(** * Interrupt-driven character-device core of mbed OS

    A shallow embedding of
    - [platform/ConditionVariableCS.cpp] (both build variants),
    - [drivers/UARTSerial.cpp],
    - [platform/mbed_poll.cpp],
    and the properties of the design specification checked against them.

    Conventions.  A critical section is the unit of atomicity: code that runs
    between [core_util_critical_section_enter] and the matching exit is one
    function on the state.  Code that runs with interrupts enabled is
    interleaved with the rest of the system; what the rest of the system does
    in such a window is given explicitly, as a list of events.  A pointer is an
    [option] of an address, [None] being [NULL]; dereferencing [NULL] or a
    dead object is [Fault], and so is an [MBED_ASSERT] that fails. *)

From Stdlib Require Import ZArith List Bool Lia.
From stdpp Require Import gmap.

Local Open Scope Z_scope.

(** ** Outcomes of a call *)

Inductive outcome (A : Type) : Type :=
| Returned (a : A)   (* the call returns [a] *)
| Blocked            (* the caller is still suspended when the schedule ends *)
| Fault              (* NULL or dangling dereference, or a failed MBED_ASSERT *)
| OutOfFuel.         (* the recursion bound of the model was too small *)

Arguments Returned {A} a.
Arguments Blocked {A}.
Arguments Fault {A}.
Arguments OutOfFuel {A}.

Definition obind {A B : Type} (m : outcome A) (k : A -> outcome B) : outcome B :=
  match m with
  | Returned a => k a
  | Blocked => Blocked
  | Fault => Fault
  | OutOfFuel => OutOfFuel
  end.

Notation "'do' x <- m ; k" := (obind m (fun x => k))
  (at level 10, x pattern, m at level 100, k at level 200).

Definition deref {A : Type} (o : option A) : outcome A :=
  match o with
  | Some a => Returned a
  | None => Fault
  end.

(** ** ConditionVariableCS, bare-metal variant ([!MBED_CONF_RTOS_PRESENT]) *)

Module CSCV_BareMetal.

(** The object has one field. *)
Record ConditionVariableCS : Type := mkCV { _notified : bool }.

(** Interrupts that can run while [wait_for] has left the critical section. *)
Inductive irq : Type :=
| IrqNotifyOne     (* a handler that calls [notify_one] *)
| IrqNotifyAll     (* a handler that calls [notify_all] *)
| IrqTimeout       (* the [Timeout] attached by [wait_for] expires *)
| IrqOther.        (* any other interrupt: wakes WFE, touches nothing here *)

Definition notify_one (cv : ConditionVariableCS) : ConditionVariableCS :=
  {| _notified := true |}.

Definition notify_all (cv : ConditionVariableCS) : ConditionVariableCS :=
  notify_one cv.

(** [_timeout(bool *flag)]: [*flag = true]. *)
Definition _timeout (flag : bool) : bool := true.

(** One interrupt.  [attached] says whether [wait_for] attached the timeout
    callback; [timed_out] is the local of [wait_for] the callback points to. *)
Definition run_irq (attached : bool) (i : irq)
           (s : ConditionVariableCS * bool) : ConditionVariableCS * bool :=
  match i with
  | IrqNotifyOne => (notify_one (fst s), snd s)
  | IrqNotifyAll => (notify_all (fst s), snd s)
  | IrqTimeout => if attached then (fst s, _timeout (snd s)) else s
  | IrqOther => s
  end.

Definition run_irqs (attached : bool) (w : list irq)
           (s : ConditionVariableCS * bool) : ConditionVariableCS * bool :=
  fold_left (fun s i => run_irq attached i s) w s.

(** The [do { ... } while (!timed_out)] loop.  Each element of [sched] is the
    interrupts that run in one pass with the critical section released (at
    the ISB, or while the core sleeps in WFE).  With [millisec != 0] the pass
    executes WFE, so when no further interrupt ever comes the core sleeps for
    ever; with [millisec == 0] no WFE is executed. *)
Fixpoint wait_loop (millisec : Z) (attached : bool) (sched : list (list irq))
         (cv : ConditionVariableCS) (timed_out : bool)
  : outcome (bool * ConditionVariableCS) :=
  match sched with
  | [] =>
      if millisec =? 0 then
        if _notified cv then Returned (false, cv)
        else if timed_out then Returned (true, cv)
        else Blocked
      else Blocked
  | w :: rest =>
      let s := run_irqs attached w (cv, timed_out) in
      if _notified (fst s) then Returned (false, fst s)
      else if snd s then Returned (true, fst s)
      else wait_loop millisec attached rest (fst s) (snd s)
  end.

(** [bool wait_for(uint32_t millisec)]. *)
Definition wait_for (millisec : Z) (sched : list (list irq))
           (cv : ConditionVariableCS) : outcome (bool * ConditionVariableCS) :=
  let timed_out := millisec =? 0 in
  let cv := {| _notified := false |} in
  let attached := (0 <? millisec) && (millisec <? 4294967295) in
  wait_loop millisec attached sched cv timed_out.

Definition is_notify (i : irq) : bool :=
  match i with
  | IrqNotifyOne | IrqNotifyAll => true
  | _ => false
  end.

Definition notify_in (sched : list (list irq)) : bool :=
  existsb (existsb is_notify) sched.

End CSCV_BareMetal.

(** ** ConditionVariableCS, RTOS variant ([MBED_CONF_RTOS_PRESENT]) *)

Module CSCV_RTOS.

(** [struct Waiter].  Addresses and thread ids are natural numbers. *)
Record Waiter : Type := mkWaiter {
  tid : nat;
  prev : option nat;
  next : option nat;
  in_list : bool
}.

(** The condition variable, the [Waiter] objects alive on the stacks of the
    waiting threads, and the RTOS thread flags: [thread_flags] is the set of
    threads whose THREAD_FLAG_UNBLOCK bit is set. *)
Record state : Type := mkState {
  mem : gmap nat Waiter;
  _wait_list : option nat;
  thread_flags : gset nat
}.

Definition with_mem (m : gmap nat Waiter) (s : state) : state :=
  {| mem := m; _wait_list := _wait_list s; thread_flags := thread_flags s |}.

Definition with_wait_list (p : option nat) (s : state) : state :=
  {| mem := mem s; _wait_list := p; thread_flags := thread_flags s |}.

(** [p->next = v], [p->prev = v], [p->in_list = v]. *)
Definition store_next (p v : option nat) (m : gmap nat Waiter)
  : outcome (gmap nat Waiter) :=
  do a <- deref p;
  do w <- deref (m !! a);
  Returned (<[a := {| tid := tid w; prev := prev w; next := v;
                      in_list := in_list w |}]> m).

Definition store_prev (p v : option nat) (m : gmap nat Waiter)
  : outcome (gmap nat Waiter) :=
  do a <- deref p;
  do w <- deref (m !! a);
  Returned (<[a := {| tid := tid w; prev := v; next := next w;
                      in_list := in_list w |}]> m).

Definition store_in_list (p : option nat) (v : bool) (m : gmap nat Waiter)
  : outcome (gmap nat Waiter) :=
  do a <- deref p;
  do w <- deref (m !! a);
  Returned (<[a := {| tid := tid w; prev := prev w; next := next w;
                      in_list := v |}]> m).

Definition ptr_eqb (p q : option nat) : bool :=
  match p, q with
  | Some a, Some b => Nat.eqb a b
  | None, None => true
  | _, _ => false
  end.

(** [void ConditionVariableCS::_add_wait_list(Waiter *waiter)]. *)
Definition _add_wait_list (waiter : nat) (s : state) : outcome state :=
  match _wait_list s with
  | None =>
      do m1 <- store_next (Some waiter) (Some waiter) (mem s);
      do m2 <- store_prev (Some waiter) (Some waiter) m1;
      do m3 <- store_in_list (Some waiter) true m2;
      Returned (with_mem m3 (with_wait_list (Some waiter) s))
  | Some first =>
      do f <- deref (mem s !! first);
      let last := prev f in
      do m1 <- store_next (Some waiter) (Some first) (mem s);
      do m2 <- store_prev (Some waiter) last m1;
      do m3 <- store_prev (Some first) (Some waiter) m2;
      do m4 <- store_next last (Some waiter) m3;
      do m5 <- store_in_list (Some waiter) true m4;
      Returned (with_mem m5 s)
  end.

(** [void ConditionVariableCS::_remove_wait_list(Waiter *waiter)]. *)
Definition _remove_wait_list (waiter : nat) (s : state) : outcome state :=
  do w <- deref (mem s !! waiter);
  let prev_ := prev w in
  let next_ := next w in
  do w1 <- deref (mem s !! waiter);
  do m1 <- store_next prev_ (next w1) (mem s);
  do w2 <- deref (m1 !! waiter);
  do m2 <- store_prev next_ (prev w2) m1;
  do w3 <- deref (m2 !! waiter);
  let wl := next w3 in
  let wl := if ptr_eqb wl (Some waiter) then None else wl in
  do m3 <- store_next (Some waiter) None m2;
  do m4 <- store_prev (Some waiter) None m3;
  do m5 <- store_in_list (Some waiter) false m4;
  Returned (with_mem m5 (with_wait_list wl s)).

(** Modelled from the spec: the RTOS kernel is not among the sources.
    [osThreadFlagsSet(t, THREAD_FLAG_UNBLOCK)] sets the reserved flag of
    thread [t] (section 4.2). *)
Definition osThreadFlagsSet (t : nat) (s : state) : state :=
  {| mem := mem s; _wait_list := _wait_list s;
     thread_flags := {[ t ]} ∪ thread_flags s |}.

(** [void ConditionVariableCS::notify_one()], run without interruption (from
    a handler, or inside a critical section). *)
Definition notify_one (s : state) : outcome state :=
  match _wait_list s with
  | Some head =>
      do s1 <- _remove_wait_list head s;
      do h <- deref (_wait_list s1);
      do w <- deref (mem s1 !! h);
      Returned (osThreadFlagsSet (tid w) s1)
  | None => Returned s
  end.

(** [void ConditionVariableCS::notify_all()]: the critical section, which
    yields the local [waiter], and one pass of the [while] loop, which runs
    with the critical section released. *)
Definition notify_all_detach (s : state) : state * option nat :=
  (with_wait_list None s, _wait_list s).

Definition notify_all_pass (waiter : nat) (s : state)
  : outcome (state * option nat) :=
  do w <- deref (mem s !! waiter);
  let next_ := next w in
  do m1 <- store_next (Some waiter) None (mem s);
  do m2 <- store_prev (Some waiter) None m1;
  do m3 <- store_in_list (Some waiter) false m2;
  do w' <- deref (m3 !! waiter);
  Returned (osThreadFlagsSet (tid w') (with_mem m3 s), next_).

Fixpoint notify_all_loop (fuel : nat) (waiter : option nat) (s : state)
  : outcome state :=
  match waiter with
  | None => Returned s
  | Some a =>
      match fuel with
      | O => OutOfFuel
      | S fuel' =>
          do r <- notify_all_pass a s;
          notify_all_loop fuel' (snd r) (fst r)
      end
  end.

(** [notify_all] run without interruption. *)
Definition notify_all (s : state) : outcome state :=
  let r := notify_all_detach s in
  notify_all_loop (S (size (mem s))) (snd r) (fst r).

(** The CMSIS-RTOS2 values [wait_for] compares with ([cmsis_os2.h] is not
    among the sources). *)
Definition THREAD_FLAG_UNBLOCK : Z := Z.shiftl 1 30.
Definition osFlagsError : Z := 0x80000000.
Definition osFlagsErrorTimeout : Z := 0xFFFFFFFE.
Definition osFlagsErrorResource : Z := 0xFFFFFFFD.
Definition osWaitForever : Z := 0xFFFFFFFF.

(** Modelled from the spec: the RTOS kernel is not among the sources.
    Section 4.2: the thread blocks on a per-thread flag, wait-for-any of a
    single reserved bit, with the given timeout.  This is
    [osThreadFlagsWait(THREAD_FLAG_UNBLOCK, osFlagsWaitAny, millisec)] of
    thread [t] at the moment the call completes: a set flag is consumed and
    returned; with no flag set the call completes at once with
    [osFlagsErrorResource] for a zero timeout, by expiry with
    [osFlagsErrorTimeout] for a finite one, and not at all for
    [osWaitForever]. *)
Definition osThreadFlagsWait (t : nat) (millisec : Z) (s : state)
  : outcome (Z * state) :=
  if bool_decide (t ∈ thread_flags s) then
    Returned (THREAD_FLAG_UNBLOCK,
              {| mem := mem s; _wait_list := _wait_list s;
                 thread_flags := thread_flags s ∖ {[ t ]} |})
  else if millisec =? 0 then Returned (osFlagsErrorResource, s)
  else if millisec =? osWaitForever then Blocked
  else Returned (osFlagsErrorTimeout, s).

(** [wait_for], first part: construct [current_thread] at address [a] in
    thread [t], link it, leave the critical section. *)
Definition wait_for_enter (a t : nat) (s : state) : outcome state :=
  _add_wait_list a
    (with_mem (<[a := {| tid := t; prev := None; next := None;
                         in_list := false |}]> (mem s)) s).

(** The [timeout] local computed from [ret], with the two assertions:
    [MBED_ASSERT(millisec != osWaitForever)] in the first branch and
    [MBED_ASSERT(!(ret & osFlagsError) && (ret & THREAD_FLAG_UNBLOCK))] in
    the last. *)
Definition timeout_of (ret millisec : Z) : outcome bool :=
  if ret =? osFlagsErrorTimeout then
    if millisec =? osWaitForever then Fault else Returned true
  else if (ret =? osFlagsErrorResource) && (millisec =? 0) then Returned true
  else if (Z.land ret osFlagsError =? 0)
          && negb (Z.land ret THREAD_FLAG_UNBLOCK =? 0)
  then Returned false
  else Fault.

(** [wait_for], last part: compute [timeout], re-enter the critical
    section, unlink if still linked, return; [current_thread] dies with the
    frame. *)
Definition wait_for_exit (a : nat) (ret millisec : Z) (s : state)
  : outcome (bool * state) :=
  do timeout <- timeout_of ret millisec;
  do w <- deref (mem s !! a);
  do s1 <- (if in_list w then _remove_wait_list a s else Returned s);
  Returned (timeout, with_mem (delete a (mem s1)) s1).

(** The addresses met when following [next] from the list head, a dangling
    address included. *)
Fixpoint walk (fuel : nat) (m : gmap nat Waiter) (p : option nat) : list nat :=
  match fuel, p with
  | S fuel', Some a =>
      a :: match m !! a with
           | Some w => walk fuel' m (next w)
           | None => []
           end
  | _, _ => []
  end.

Definition reachable (s : state) (a : nat) : bool :=
  existsb (Nat.eqb a) (walk (S (size (mem s))) (mem s) (_wait_list s)).

(** *** Threads

    The calls above, interleaved.  A thread is outside any call, suspended
    in the [osThreadFlagsWait] of [wait_for], between the return of
    [osThreadFlagsWait] and the critical section that ends [wait_for], or in
    the [while] loop of a [notify_all] it called with interrupts enabled. *)
Inductive thread : Type :=
| Idle (last : option bool)
| InFlagsWait (a : nat) (millisec : Z)
| Resumed (a : nat) (millisec ret : Z)
| InNotifyAll (waiter : option nat).

Record system : Type := mkSystem {
  cv : state;
  threads : gmap nat thread
}.

Definition thread_of (t : nat) (y : system) : thread :=
  default (Idle None) (threads y !! t).

Definition set_thread (t : nat) (th : thread) (s : state) (y : system) : system :=
  {| cv := s; threads := <[t := th]> (threads y) |}.

Inductive event : Type :=
| CallWaitFor (t a : nat) (millisec : Z)  (* up to the critical-section exit *)
| FlagsWaitReturns (t : nat)              (* by flag or by expiry *)
| WaitForReturns (t : nat)                (* final critical section and return *)
| IsrNotifyOne                            (* [notify_one] from a handler *)
| IsrNotifyAll                            (* [notify_all] from a handler *)
| CallNotifyAll (t : nat)                 (* thread [t], its critical section *)
| NotifyAllPass (t : nat).                (* one loop test and pass of thread [t] *)

(** An event that the thread concerned cannot perform where it stands is
    [Blocked]. *)
Definition step (e : event) (y : system) : outcome system :=
  match e with
  | CallWaitFor t a millisec =>
      match thread_of t y with
      | Idle _ =>
          do s <- wait_for_enter a t (cv y);
          Returned (set_thread t (InFlagsWait a millisec) s y)
      | _ => Blocked
      end
  | FlagsWaitReturns t =>
      match thread_of t y with
      | InFlagsWait a millisec =>
          do r <- osThreadFlagsWait t millisec (cv y);
          Returned (set_thread t (Resumed a millisec (fst r)) (snd r) y)
      | _ => Blocked
      end
  | WaitForReturns t =>
      match thread_of t y with
      | Resumed a millisec ret =>
          do r <- wait_for_exit a ret millisec (cv y);
          Returned (set_thread t (Idle (Some (fst r))) (snd r) y)
      | _ => Blocked
      end
  | IsrNotifyOne =>
      do s <- notify_one (cv y);
      Returned {| cv := s; threads := threads y |}
  | IsrNotifyAll =>
      do s <- notify_all (cv y);
      Returned {| cv := s; threads := threads y |}
  | CallNotifyAll t =>
      match thread_of t y with
      | Idle _ =>
          let r := notify_all_detach (cv y) in
          Returned (set_thread t (InNotifyAll (snd r)) (fst r) y)
      | _ => Blocked
      end
  | NotifyAllPass t =>
      match thread_of t y with
      | InNotifyAll (Some w) =>
          do r <- notify_all_pass w (cv y);
          Returned (set_thread t (InNotifyAll (snd r)) (fst r) y)
      | InNotifyAll None => Returned (set_thread t (Idle None) (cv y) y)
      | _ => Blocked
      end
  end.

Fixpoint run (es : list event) (y : system) : outcome system :=
  match es with
  | [] => Returned y
  | e :: es' => do y' <- step e y; run es' y'
  end.

(** A fresh condition variable and no thread in any call. *)
Definition init : system :=
  {| cv := {| mem := ∅; _wait_list := None; thread_flags := ∅ |};
     threads := ∅ |}.

(** *** Consistency of the wait list, checked along schedules

    [waiters_consistent]: a live node has [in_list] set exactly when it is
    reachable from the list head, and nothing reachable from the head is
    dead.  [explore events depth y] checks it in [y] and in every state
    reached from [y] by at most [depth] of the given events. *)
Definition waiters_consistent (s : state) : bool :=
  forallb (fun aw => Bool.eqb (in_list (snd aw)) (reachable s (fst aw)))
          (map_to_list (mem s))
  && forallb (fun a => match mem s !! a with Some _ => true | None => false end)
             (walk (S (size (mem s))) (mem s) (_wait_list s)).

Fixpoint explore (events : list event) (depth : nat) (y : system) : bool :=
  waiters_consistent (cv y)
  && match depth with
     | O => true
     | S depth' =>
         forallb (fun e => match step e y with
                           | Returned y' => explore events depth' y'
                           | _ => true
                           end) events
     end.

(** Three threads that wait (for ever, for 50 ms, for 0 ms), and
    notifications from handlers. *)
Definition atomic_events : list event :=
  [CallWaitFor 1 10 osWaitForever; CallWaitFor 2 20 50; CallWaitFor 3 30 0;
   FlagsWaitReturns 1; FlagsWaitReturns 2; FlagsWaitReturns 3;
   WaitForReturns 1; WaitForReturns 2; WaitForReturns 3;
   IsrNotifyOne; IsrNotifyAll].

(** *** The wait list as a list of addresses

    The nodes of a well-formed wait list, head first.  [chain m p l n]: the
    nodes [l] are alive in [m] with [in_list] set, each one's [next] is its
    successor in [l] and its [prev] its predecessor, the first having
    predecessor [p] and the last successor [n]. *)
Fixpoint chain (m : gmap nat Waiter) (p : nat) (l : list nat) (n : nat) : Prop :=
  match l with
  | [] => True
  | a :: l' =>
      (exists w, m !! a = Some w /\ in_list w = true /\
                 prev w = Some p /\ next w = Some (hd n l'))
      /\ chain m a l' n
  end.

(** The list is circular: the last node is followed by the first one. *)
Definition ring (m : gmap nat Waiter) (l : list nat) : Prop :=
  match l with
  | [] => True
  | a :: _ => chain m (List.last l a) l a
  end.

(** [linked s l]: [l] is the wait list of [s], head first, each node once,
    and no node outside it has [in_list] set. *)
Definition linked (s : state) (l : list nat) : Prop :=
  NoDup l /\
  ring (mem s) l /\
  _wait_list s = head l /\
  forall x w, mem s !! x = Some w -> in_list w = true -> x ∈ l.

(** The three field updates, on a node. *)
Definition set_prev (v : option nat) (w : Waiter) : Waiter :=
  {| tid := tid w; prev := v; next := next w; in_list := in_list w |}.

Definition set_next (v : option nat) (w : Waiter) : Waiter :=
  {| tid := tid w; prev := prev w; next := v; in_list := in_list w |}.

Definition set_in_list (v : bool) (w : Waiter) : Waiter :=
  {| tid := tid w; prev := prev w; next := next w; in_list := v |}.

(** A node as [notify_all] and [_remove_wait_list] leave it. *)
Definition cleared (w : Waiter) : Prop :=
  in_list w = false /\ next w = None /\ prev w = None.

(** Events that run without interruption: the parts of [wait_for], and
    notifications made from a handler.  A thread entering [wait_for] brings
    a [Waiter] of its own stack frame, at an address that holds no live
    node. *)
Definition atomic_event (e : event) (y : system) : Prop :=
  match e with
  | CallWaitFor _ a _ => mem (cv y) !! a = None
  | CallNotifyAll _ | NotifyAllPass _ => False
  | _ => True
  end.

Fixpoint atomic_run (es : list event) (y : system) : Prop :=
  match es with
  | [] => True
  | e :: es' =>
      atomic_event e y /\
      match step e y with
      | Returned y' => atomic_run es' y'
      | _ => True
      end
  end.

(** *** Scenarios *)

(** Threads 1, 2 and 3 wait, in this order, with their [Waiter] objects at
    addresses 10, 20 and 30. *)
Definition one_waiter : list event :=
  [CallWaitFor 1 10 osWaitForever].

Definition two_waiters : list event :=
  [CallWaitFor 1 10 osWaitForever; CallWaitFor 2 20 osWaitForever].

Definition three_waiters : list event :=
  [CallWaitFor 1 10 osWaitForever; CallWaitFor 2 20 50;
   CallWaitFor 3 30 osWaitForever].

(** What is visible of a run: the list head, the threads flagged, and for
    each of the three nodes whether it is alive, its [in_list], and whether
    it is reachable from the head. *)
Definition node_view (s : state) (a : nat) : option bool * bool :=
  (in_list <$> (mem s !! a), reachable s a).

Definition view (o : outcome system)
  : outcome (option nat * list nat * list (option bool * bool)) :=
  do y <- o;
  Returned (_wait_list (cv y), elements (thread_flags (cv y)),
            map (node_view (cv y)) [10%nat; 20%nat; 30%nat]).

(** Thread 1 polls while the flag set by an earlier [notify_all] is
    pending. *)
Definition stale_flag : list event :=
  [CallWaitFor 1 10 50; FlagsWaitReturns 1; IsrNotifyAll; WaitForReturns 1;
   CallWaitFor 1 11 0].

End CSCV_RTOS.

(** ** Platform constants

    [platform/mbed_poll.h] and [<errno.h>] are not among the sources, so the
    event bits and [EAGAIN] are parameters, as are the two ring capacities
    ([MBED_CONF_DRIVERS_UART_SERIAL_RXBUF_SIZE] and [..._TXBUF_SIZE]). *)

Class PollEvents : Type := {
  POLLIN : Z;
  POLLOUT : Z;
  POLLERR : Z;
  POLLHUP : Z;
  POLLNVAL : Z
}.

Class UartConfig : Type := {
  RXBUF_SIZE : nat;
  TXBUF_SIZE : nat;
  EAGAIN : Z
}.

(** Values for worked examples: the event bits as mbed OS defines them in
    [mbed_poll.h], 256-byte rings, and 11 for [EAGAIN]. *)
Definition mbed_poll_h : PollEvents :=
  {| POLLIN := 0x0001; POLLOUT := 0x0010; POLLERR := 0x1000;
     POLLHUP := 0x2000; POLLNVAL := 0x4000 |}.

Definition mbed_uart_config : UartConfig :=
  {| RXBUF_SIZE := 256; TXBUF_SIZE := 256; EAGAIN := 11 |}.

(** A small configuration (4-byte rings) for worked examples. *)
Definition small_uart_config : UartConfig :=
  {| RXBUF_SIZE := 4; TXBUF_SIZE := 4; EAGAIN := 11 |}.

(** ** Ring buffer *)

Module CircularBuffer.

(** Modelled from the spec: [platform/CircularBuffer.h] is not among the
    sources.  Section 4.3: a byte FIFO of fixed capacity with [push]
    (precondition: not full), [pop] (precondition: not empty), [empty]
    ([count == 0]) and [full] ([count == N]).  The buffer is the list of the
    queued bytes, oldest first. *)
Definition empty (b : list Byte.byte) : bool :=
  match b with
  | [] => true
  | _ :: _ => false
  end.

Definition full (N : nat) (b : list Byte.byte) : bool :=
  Nat.eqb (length b) N.

Definition push (c : Byte.byte) (b : list Byte.byte) : list Byte.byte :=
  b ++ [c].

Definition pop (b : list Byte.byte) : option (Byte.byte * list Byte.byte) :=
  match b with
  | [] => None
  | c :: b' => Some (c, b')
  end.

End CircularBuffer.

(** ** UARTSerial *)

Module UART.

Import CircularBuffer.

(** Modelled from the spec: the UART register layer ([SerialBase]) is an
    opaque HAL (section 1).  [rx_fifo] holds the bytes the peripheral has
    received and not yet handed over ([readable] iff non-empty, [_base_getc]
    takes the oldest); [tx_room] is the number of bytes the peripheral
    accepts before [writeable] turns false; [tx_line] is every byte given to
    [_base_putc] so far, oldest first. *)
Record SerialBase : Type := mkSerialBase {
  rx_fifo : list Byte.byte;
  tx_room : nat;
  tx_line : list Byte.byte
}.

(** Modelled from the spec: [InterruptIn] is not among the sources.
    [pin_level] is what [read()] returns ([true] for non-zero); [irq_edge]
    is the edge the [dcd_irq] callback is attached to. *)
Inductive edge : Type := Fall | Rise.

Record InterruptIn : Type := mkInterruptIn {
  pin_level : bool;
  irq_edge : edge
}.

(** The two condition variables of the endpoint. *)
Inductive cvar : Type := _cv_rx | _cv_tx.

(** Calls the endpoint makes on its collaborators, in order. *)
Inductive call : Type :=
| NotifyAll (cv : cvar)       (* [cv->notify_all()] *)
| WakePoll (events : Z)       (* [wake_poll(events)] *)
| SigioCb.                    (* [_sigio_cb()] *)

Record UARTSerial : Type := mkUARTSerial {
  serial : SerialBase;
  _rxbuf : list Byte.byte;
  _txbuf : list Byte.byte;
  _blocking : bool;
  _tx_irq_enabled : bool;
  _rx_irq_enabled : bool;
  _dcd_irq : option InterruptIn;
  _poll_wake_events : Z;
  _sigio_cb : bool;             (* a callback is installed *)
  calls : list call
}.

Definition set_serial (v : SerialBase) (u : UARTSerial) : UARTSerial :=
  mkUARTSerial v (_rxbuf u) (_txbuf u) (_blocking u) (_tx_irq_enabled u)
    (_rx_irq_enabled u) (_dcd_irq u) (_poll_wake_events u) (_sigio_cb u) (calls u).

Definition set_rxbuf (v : list Byte.byte) (u : UARTSerial) : UARTSerial :=
  mkUARTSerial (serial u) v (_txbuf u) (_blocking u) (_tx_irq_enabled u)
    (_rx_irq_enabled u) (_dcd_irq u) (_poll_wake_events u) (_sigio_cb u) (calls u).

Definition set_txbuf (v : list Byte.byte) (u : UARTSerial) : UARTSerial :=
  mkUARTSerial (serial u) (_rxbuf u) v (_blocking u) (_tx_irq_enabled u)
    (_rx_irq_enabled u) (_dcd_irq u) (_poll_wake_events u) (_sigio_cb u) (calls u).

Definition set_tx_irq_enabled (v : bool) (u : UARTSerial) : UARTSerial :=
  mkUARTSerial (serial u) (_rxbuf u) (_txbuf u) (_blocking u) v
    (_rx_irq_enabled u) (_dcd_irq u) (_poll_wake_events u) (_sigio_cb u) (calls u).

Definition set_rx_irq_enabled (v : bool) (u : UARTSerial) : UARTSerial :=
  mkUARTSerial (serial u) (_rxbuf u) (_txbuf u) (_blocking u) (_tx_irq_enabled u)
    v (_dcd_irq u) (_poll_wake_events u) (_sigio_cb u) (calls u).

Definition set_dcd_irq (v : option InterruptIn) (u : UARTSerial) : UARTSerial :=
  mkUARTSerial (serial u) (_rxbuf u) (_txbuf u) (_blocking u) (_tx_irq_enabled u)
    (_rx_irq_enabled u) v (_poll_wake_events u) (_sigio_cb u) (calls u).

Definition set_poll_wake_events (v : Z) (u : UARTSerial) : UARTSerial :=
  mkUARTSerial (serial u) (_rxbuf u) (_txbuf u) (_blocking u) (_tx_irq_enabled u)
    (_rx_irq_enabled u) (_dcd_irq u) v (_sigio_cb u) (calls u).

Definition add_call (c : call) (u : UARTSerial) : UARTSerial :=
  mkUARTSerial (serial u) (_rxbuf u) (_txbuf u) (_blocking u) (_tx_irq_enabled u)
    (_rx_irq_enabled u) (_dcd_irq u) (_poll_wake_events u) (_sigio_cb u)
    (calls u ++ [c]).

Section Endpoint.

Context {PE : PollEvents} {UC : UartConfig}.

(** [UARTSerial::UARTSerial(tx, rx, baud)], over a given peripheral. *)
Definition UARTSerial_ctor (hw : SerialBase) : UARTSerial :=
  {| serial := hw; _rxbuf := []; _txbuf := [];
     _blocking := true; _tx_irq_enabled := false; _rx_irq_enabled := true;
     _dcd_irq := None; _poll_wake_events := 0; _sigio_cb := false;
     calls := [] |}.

(** [set_data_carrier_detect(dcd_pin, active_high)]: [dcd_pin] is [None]
    for [NC], otherwise the level the pin has. *)
Definition set_data_carrier_detect (dcd_pin : option bool) (active_high : bool)
           (u : UARTSerial) : UARTSerial :=
  match dcd_pin with
  | Some level =>
      set_dcd_irq (Some {| pin_level := level;
                           irq_edge := if active_high then Fall else Rise |}) u
  | None => set_dcd_irq None u
  end.

(** Modelled from the spec: [UARTSerial.h] is not among the sources.
    Section 4.4: blocking mode is a per-endpoint boolean; [set_blocking]
    stores it. *)
Definition set_blocking (v : bool) (u : UARTSerial) : UARTSerial :=
  mkUARTSerial (serial u) (_rxbuf u) (_txbuf u) v (_tx_irq_enabled u)
    (_rx_irq_enabled u) (_dcd_irq u) (_poll_wake_events u) (_sigio_cb u)
    (calls u).

(** [bool UARTSerial::hup() const]. *)
Definition hup (u : UARTSerial) : bool :=
  match _dcd_irq u with
  | Some d => pin_level d
  | None => false
  end.

(** [void UARTSerial::wake(ConditionVariableCS *cv, short events)]. *)
Definition wake (cv : option cvar) (events : Z) (u : UARTSerial) : UARTSerial :=
  let u1 := match cv with
            | Some c => add_call (NotifyAll c) u
            | None => u
            end in
  let u2 := if Z.land (_poll_wake_events u1) events =? 0 then u1
            else add_call (WakePoll events)
                   (set_poll_wake_events
                      (Z.land (_poll_wake_events u1) (Z.lnot events)) u1) in
  if _sigio_cb u2 then add_call SigioCb u2 else u2.

(** [void UARTSerial::dcd_irq()]. *)
Definition dcd_irq (u : UARTSerial) : UARTSerial := wake None POLLHUP u.

(** [short UARTSerial::poll(short events) const]. *)
Definition poll (events : Z) (u : UARTSerial) : Z :=
  let revents := 0 in
  let revents := if negb (empty (_rxbuf u)) then Z.lor revents POLLIN
                 else revents in
  if hup u then Z.lor revents POLLHUP
  else if negb (full TXBUF_SIZE (_txbuf u)) then Z.lor revents POLLOUT
  else revents.

(** [short UARTSerial::poll_with_wake(short events, bool wake)]. *)
Definition poll_with_wake (events : Z) (wake : bool) (u : UARTSerial)
  : Z * UARTSerial :=
  let revents := poll events u in
  if wake && (Z.land revents events =? 0) then
    (revents, set_poll_wake_events (Z.lor (_poll_wake_events u) events) u)
  else (revents, u).

(** The loop of [rx_irq]: while the ring is not full and the peripheral is
    readable, take a byte and push it.  Yields what is left in the
    peripheral and the ring. *)
Fixpoint rx_fill (fifo buf : list Byte.byte) : list Byte.byte * list Byte.byte :=
  match fifo with
  | [] => (fifo, buf)
  | c :: fifo' =>
      if full RXBUF_SIZE buf then (fifo, buf) else rx_fill fifo' (push c buf)
  end.

(** [void UARTSerial::rx_irq(void)]. *)
Definition rx_irq (u : UARTSerial) : UARTSerial :=
  let was_empty := empty (_rxbuf u) in
  let r := rx_fill (rx_fifo (serial u)) (_rxbuf u) in
  let u := set_rxbuf (snd r)
             (set_serial {| rx_fifo := fst r; tx_room := tx_room (serial u);
                            tx_line := tx_line (serial u) |} u) in
  let u := if _rx_irq_enabled u && full RXBUF_SIZE (_rxbuf u)
           then set_rx_irq_enabled false u else u in
  if was_empty && negb (empty (_rxbuf u)) then wake (Some _cv_rx) POLLIN u
  else u.

(** The loop of [tx_irq]: while the ring is not empty and the peripheral is
    writeable, pop a byte and emit it. *)
Fixpoint tx_drain (room : nat) (buf line : list Byte.byte)
  : nat * list Byte.byte * list Byte.byte :=
  match buf with
  | [] => (room, buf, line)
  | c :: buf' =>
      match room with
      | O => (room, buf, line)
      | S room' => tx_drain room' buf' (line ++ [c])
      end
  end.

(** [void UARTSerial::tx_irq(void)]. *)
Definition tx_irq (u : UARTSerial) : UARTSerial :=
  let was_full := full TXBUF_SIZE (_txbuf u) in
  let r := tx_drain (tx_room (serial u)) (_txbuf u) (tx_line (serial u)) in
  let u := set_txbuf (snd (fst r))
             (set_serial {| rx_fifo := rx_fifo (serial u);
                            tx_room := fst (fst r); tx_line := snd r |} u) in
  let u := if _tx_irq_enabled u && empty (_txbuf u)
           then set_tx_irq_enabled false u else u in
  if was_full && negb (full TXBUF_SIZE (_txbuf u)) && negb (hup u)
  then wake (Some _cv_tx) POLLOUT u
  else u.

(** What the rest of the system does to the endpoint while a caller is
    suspended in [_cv_rx.wait()] or [_cv_tx.wait()]. *)
Inductive env_event : Type :=
| HwReceive (bs : list Byte.byte)  (* bytes arrive in the peripheral *)
| HwTxRoom (n : nat)               (* the peripheral accepts [n] bytes again *)
| IrqRx                            (* RX interrupt; handled if attached *)
| IrqTx                            (* TX interrupt; handled if attached *)
| DcdPin (level : bool).           (* the DCD pin takes this level *)

Definition run_env_event (e : env_event) (u : UARTSerial) : UARTSerial :=
  match e with
  | HwReceive bs =>
      set_serial {| rx_fifo := rx_fifo (serial u) ++ bs;
                    tx_room := tx_room (serial u);
                    tx_line := tx_line (serial u) |} u
  | HwTxRoom n =>
      set_serial {| rx_fifo := rx_fifo (serial u); tx_room := n;
                    tx_line := tx_line (serial u) |} u
  | IrqRx => if _rx_irq_enabled u then rx_irq u else u
  | IrqTx => if _tx_irq_enabled u then tx_irq u else u
  | DcdPin level =>
      match _dcd_irq u with
      | None => u
      | Some d =>
          let u' := set_dcd_irq (Some {| pin_level := level;
                                         irq_edge := irq_edge d |}) u in
          match irq_edge d with
          | Fall => if pin_level d && negb level then dcd_irq u' else u'
          | Rise => if negb (pin_level d) && level then dcd_irq u' else u'
          end
      end
  end.

Definition run_env (w : list env_event) (u : UARTSerial) : UARTSerial :=
  fold_left (fun u e => run_env_event e u) w u.

(** The first loop of [read]: [true] when the ring has data, [false] when
    [read] gives up with [-EAGAIN].  Each [_cv_rx.wait()] consumes one
    element of the schedule. *)
Fixpoint read_wait (sched : list (list env_event)) (u : UARTSerial)
  : outcome (bool * UARTSerial) :=
  if empty (_rxbuf u) then
    if negb (_blocking u) then Returned (false, u)
    else match sched with
         | [] => Blocked
         | w :: rest => read_wait rest (run_env w u)
         end
  else Returned (true, u).

(** The second loop of [read]: the bytes stored through [ptr], and the
    ring that remains. *)
Fixpoint rx_drain (length : nat) (buf : list Byte.byte)
  : list Byte.byte * list Byte.byte :=
  match length, buf with
  | S length', c :: buf' =>
      let r := rx_drain length' buf' in (c :: fst r, snd r)
  | _, _ => ([], buf)
  end.

(** [ssize_t UARTSerial::read(void *buffer, size_t length)]: the result,
    the bytes stored in [buffer], and the endpoint. *)
Definition read (length : nat) (sched : list (list env_event)) (u : UARTSerial)
  : outcome (Z * list Byte.byte * UARTSerial) :=
  match length with
  | O => Returned (0, [], u)
  | S _ =>
      do r <- read_wait sched u;
      if fst r then
        let u := snd r in
        let d := rx_drain length (_rxbuf u) in
        let u := set_rxbuf (snd d) u in
        let u := if negb (_rx_irq_enabled u) then
                   let u := rx_irq u in
                   if negb (full RXBUF_SIZE (_rxbuf u))
                   then set_rx_irq_enabled true u else u
                 else u in
        Returned (Z.of_nat (List.length (fst d)), fst d, u)
      else Returned (- EAGAIN, [], snd r)
  end.

(** [cv->notify_all()] is among the calls the endpoint made between two
    of its states. *)
Definition is_notify_all (cv : cvar) (c : call) : bool :=
  match c, cv with
  | NotifyAll _cv_rx, _cv_rx => true
  | NotifyAll _cv_tx, _cv_tx => true
  | _, _ => false
  end.

Definition notified (cv : cvar) (before after : UARTSerial) : bool :=
  existsb (is_notify_all cv)
          (skipn (List.length (calls before)) (calls after)).

(** The [do { _cv_tx.wait(); } while (_txbuf.full())] loop of [write].
    Each element of the schedule is what the rest of the system does in
    one window in which the suspended caller has left the critical
    section.  [_cv_tx.wait()] returns from the window in which [_cv_tx] is
    notified, and not before; the loop ends when it returns with room in
    the ring. *)
Fixpoint tx_wait (sched : list (list env_event)) (u : UARTSerial)
  : outcome (list (list env_event) * UARTSerial) :=
  match sched with
  | [] => Blocked
  | w :: rest =>
      let u' := run_env w u in
      if notified _cv_tx u u' then
        if full TXBUF_SIZE (_txbuf u') then tx_wait rest u'
        else Returned (rest, u')
      else tx_wait rest u'
  end.

(** The inner loop of [write]: what is left of the source, and the ring. *)
Fixpoint tx_fill (src buf : list Byte.byte) : list Byte.byte * list Byte.byte :=
  match src with
  | [] => (src, buf)
  | c :: src' =>
      if full TXBUF_SIZE buf then (src, buf) else tx_fill src' (push c buf)
  end.

(** The [if (!_tx_irq_enabled) { ... }] block of [write]. *)
Definition tx_kick (u : UARTSerial) : UARTSerial :=
  if negb (_tx_irq_enabled u) then
    let u := tx_irq u in
    if negb (empty (_txbuf u)) then set_tx_irq_enabled true u else u
  else u.

(** The outer loop of [write]; [src] is what remains of the buffer. *)
Fixpoint write_loop (fuel : nat) (src : list Byte.byte) (data_written : nat)
         (sched : list (list env_event)) (u : UARTSerial)
  : outcome (nat * UARTSerial) :=
  match src with
  | [] => Returned (data_written, u)
  | _ :: _ =>
      match fuel with
      | O => OutOfFuel
      | S fuel' =>
          let body := fun sched u =>
            let r := tx_fill src (_txbuf u) in
            let n := (List.length src - List.length (fst r))%nat in
            write_loop fuel' (fst r) (data_written + n)%nat sched
              (tx_kick (set_txbuf (snd r) u)) in
          if full TXBUF_SIZE (_txbuf u) then
            if negb (_blocking u) then Returned (data_written, u)
            else do r <- tx_wait sched u; body (fst r) (snd r)
          else body sched u
      end
  end.

(** [ssize_t UARTSerial::write(const void *buffer, size_t length)], with
    [buffer] the [length] bytes to write. *)
Definition write (buffer : list Byte.byte) (sched : list (list env_event))
           (u : UARTSerial) : outcome (Z * UARTSerial) :=
  match buffer with
  | [] => Returned (0, u)
  | _ :: _ =>
      do r <- write_loop (List.length buffer) buffer 0 sched u;
      Returned (if Nat.eqb (fst r) 0 then - EAGAIN else Z.of_nat (fst r),
                snd r)
  end.

(** Every byte accepted for transmission and not lost: those already on
    the line, then those still in the ring. *)
Definition tx_stream (u : UARTSerial) : list Byte.byte :=
  tx_line (serial u) ++ _txbuf u.

(** Schedules in which the DCD pin is never driven high, or never driven
    low: [hup()], once false, or once true, stays so. *)
Definition dcd_stays_low (sched : list (list env_event)) : Prop :=
  Forall (Forall (fun e => e <> DcdPin true)) sched.


(** Windows in each of which the peripheral accepts at least one byte and
    the TX interrupt is taken. *)
Definition line_takes (rooms : list nat) : list (list env_event) :=
  map (fun n => [HwTxRoom (S n); IrqTx]) rooms.

(** The endpoint after the first [k] waits of a schedule. *)
Definition after_waits (k : nat) (sched : list (list env_event))
           (u : UARTSerial) : UARTSerial :=
  fold_left (fun u w => run_env w u) (firstn k sched) u.

(** A sequence of [wake] calls with no [poll_with_wake] in between, and
    the number of them in which bit [n] is both signalled and armed. *)
Fixpoint wakes (ws : list (option cvar * Z)) (u : UARTSerial) : UARTSerial :=
  match ws with
  | [] => u
  | c :: ws' => wakes ws' (wake (fst c) (snd c) u)
  end.

Fixpoint fired (n : Z) (ws : list (option cvar * Z)) (u : UARTSerial) : nat :=
  match ws with
  | [] => O
  | c :: ws' =>
      ((if Z.testbit (snd c) n && Z.testbit (_poll_wake_events u) n
        then 1 else 0)
       + fired n ws' (wake (fst c) (snd c) u))%nat
  end.

(** The calls of [wake_poll] in a log. *)
Definition wake_polls (l : list call) : list Z :=
  flat_map (fun c => match c with WakePoll e => [e] | _ => [] end) l.


(** ISR state consistency: the RX handler is detached only while the RX
    ring is full; the TX handler is attached exactly while the TX ring is
    non-empty. *)
Definition isr_consistent (u : UARTSerial) : Prop :=
  (_rx_irq_enabled u = false -> full RXBUF_SIZE (_rxbuf u) = true) /\
  (_tx_irq_enabled u = false -> _txbuf u = []) /\
  (_tx_irq_enabled u = true -> _txbuf u <> []).

(** The level after the edge on which [dcd_irq] reports the hang-up. *)
Definition disconnected (d : InterruptIn) : bool :=
  match irq_edge d with
  | Fall => negb (pin_level d)
  | Rise => pin_level d
  end.

End Endpoint.

End UART.

(** ** The poll multiplexer *)

Module MbedPoll.

Section Poll.

Context {PE : PollEvents}.

(** Everything [poll] acts on besides its array: the devices, the clock,
    the scheduler. *)
Variable world : Type.

(** Modelled from the spec: [platform/FileHandle.h] is not among the
    sources.  Section 4.5: a handle answers the plain query [poll(mask)] and
    the wake-capable query [poll_with_wake(mask, arm)]; a device is these two
    virtual functions, acting on the world. *)
Record FileHandle : Type := mkFileHandle {
  fh_poll : Z -> world -> Z * world;
  fh_poll_with_wake : Z -> bool -> world -> Z * world
}.

(** [struct pollfh]. *)
Record pollfh : Type := mkPollfh {
  fh : option FileHandle;
  events : Z;
  revents : Z
}.

(** The primitives [poll] suspends on: [wake_cv.current_time()],
    [wake_cv.wait_until(t)], [wake_cv.wait()] and the 1 ms sleep
    ([rtos::Thread::wait(1)] or [wait_ms(1)]). *)
Record Platform : Type := mkPlatform {
  current_time : world -> Z;
  wait_until : Z -> world -> outcome (bool * world);
  wait : world -> outcome world;
  sleep_1ms : world -> world
}.

Variable platform : Platform.

Definition mask_of (p : pollfh) : Z :=
  Z.lor (Z.lor (Z.lor (events p) POLLERR) POLLHUP) POLLNVAL.

(** The body of the scanning [for] loop for one entry: the new [revents],
    [all_handles_support_wake] and the world. *)
Definition scan_one (p : pollfh) (timeout count : Z)
           (all_handles_support_wake : bool) (w : world)
  : Z * bool * world :=
  let mask := mask_of p in
  match fh p with
  | Some h =>
      let s1 :=
        if all_handles_support_wake then
          let r := fh_poll_with_wake h mask
                     ((count =? 0) && negb (timeout =? 0)) w in
          let rv := Z.land (fst r) mask in
          if Z.land rv POLLNVAL =? 0 then (rv, true, snd r)
          else (rv, false, snd r)
        else (revents p, false, w) in
      if negb (snd (fst s1)) then
        let r := fh_poll h mask (snd s1) in
        (Z.land (fst r) mask, false, snd r)
      else s1
  | None => (POLLNVAL, all_handles_support_wake, w)
  end.

(** The scanning loop: the array, [count], [all_handles_support_wake] and
    the world after it. *)
Fixpoint scan (fhs : list pollfh) (timeout count : Z)
         (all_handles_support_wake : bool) (w : world)
  : list pollfh * Z * bool * world :=
  match fhs with
  | [] => ([], count, all_handles_support_wake, w)
  | p :: rest =>
      let s := scan_one p timeout count all_handles_support_wake w in
      let rv := fst (fst s) in
      let count := if rv =? 0 then count else count + 1 in
      let r := scan rest timeout count (snd (fst s)) (snd s) in
      ({| fh := fh p; events := events p; revents := rv |}
         :: fst (fst (fst r)),
       snd (fst (fst r)), snd (fst r), snd r)
  end.

(** What a call of [poll] leaves behind. *)
Record result : Type := mkResult {
  ret : Z;                    (* the value returned *)
  out : list pollfh;          (* the array *)
  final : world;
  scans : nat;                (* passes of the scanning loop *)
  suspensions : nat           (* calls of a suspending primitive *)
}.

(** The [for (;;)] loop. *)
Fixpoint poll_loop (fuel : nat) (fhs : list pollfh)
         (timeout finish_time count : Z) (all_handles_support_wake : bool)
         (w : world) (nscans nsusp : nat) : outcome result :=
  match fuel with
  | O => OutOfFuel
  | S fuel' =>
      let s := scan fhs timeout count all_handles_support_wake w in
      let fhs := fst (fst (fst s)) in
      let count := snd (fst (fst s)) in
      let all_handles_support_wake := snd (fst s) in
      let w := snd s in
      let stop := {| ret := count; out := fhs; final := w;
                     scans := S nscans; suspensions := nsusp |} in
      if (0 <? count) || (timeout =? 0) then Returned stop
      else if all_handles_support_wake then
        do r <- (if 0 <? timeout then wait_until platform finish_time w
                 else do w' <- wait platform w; Returned (false, w'));
        if fst r then
          poll_loop fuel' fhs 0 finish_time count all_handles_support_wake
            (snd r) (S nscans) (S nsusp)
        else
          poll_loop fuel' fhs timeout finish_time count
            all_handles_support_wake (snd r) (S nscans) (S nsusp)
      else if (0 <? timeout) && (finish_time <=? current_time platform w)
      then Returned stop
      else
        poll_loop fuel' fhs timeout finish_time count
          all_handles_support_wake (sleep_1ms platform w)
          (S nscans) (S nsusp)
  end.

(** [int poll(pollfh fhs[], unsigned nfhs, int timeout)], [fhs] being the
    [nfhs] entries; [fuel] bounds the number of scans. *)
Definition poll (fuel : nat) (fhs : list pollfh) (timeout : Z) (w : world)
  : outcome result :=
  let finish_time := if 0 <? timeout then current_time platform w + timeout
                     else 0 in
  poll_loop fuel fhs timeout finish_time 0 true w 0 0.

(** The number of entries with a non-zero [revents]. *)
Fixpoint ready (fhs : list pollfh) : Z :=
  match fhs with
  | [] => 0
  | p :: rest => (if revents p =? 0 then 0 else 1) + ready rest
  end.

(** [r] is within [m]: every bit of [r] is a bit of [m]. *)
Definition subset_of (r m : Z) : Prop := Z.land r m = r.

(** What one pass of the scanning loop establishes. *)
Definition scanned (fhs out : list pollfh) : Prop :=
  map fh out = map fh fhs /\
  map events out = map events fhs /\
  Forall (fun p => fh p = None -> revents p = POLLNVAL) out /\
  Forall (fun p => subset_of (revents p) (mask_of p)) out.

End Poll.

End MbedPoll.

(** ** Worked scenarios

    Endpoints with the event bits of mbed OS and 4-byte rings. *)

Module Scenarios.

Import UART.

#[local] Existing Instance mbed_poll_h.
#[local] Existing Instance small_uart_config.

(** An idle peripheral, and the endpoint constructed over it. *)
Definition idle_hw : SerialBase :=
  {| rx_fifo := []; tx_room := 0; tx_line := [] |}.

Definition fresh : UARTSerial := UARTSerial_ctor idle_hw.

(** The byte 0x41 arrives and the RX interrupt is taken. *)
Definition rx_0x41 : list env_event := [HwReceive [Byte.x41]; IrqRx].

(** The line takes one byte and the TX interrupt is taken. *)
Definition tx_one : list env_event := [HwTxRoom 1; IrqTx].

(** The TX ring filled to capacity, its handler attached. *)
Definition tx_full : UARTSerial :=
  set_tx_irq_enabled true
    (set_txbuf [Byte.x61; Byte.x62; Byte.x63; Byte.x64] fresh).

(** Two endpoints A and B as the devices of a [poll]; while the caller is
    suspended on the process-wide condition variable, B receives 0x41. *)
Definition dev_A : MbedPoll.FileHandle (UARTSerial * UARTSerial) :=
  {| MbedPoll.fh_poll := fun ev w => (poll ev (fst w), w);
     MbedPoll.fh_poll_with_wake := fun ev arm w =>
       let r := poll_with_wake ev arm (fst w) in (fst r, (snd r, snd w)) |}.

Definition dev_B : MbedPoll.FileHandle (UARTSerial * UARTSerial) :=
  {| MbedPoll.fh_poll := fun ev w => (poll ev (snd w), w);
     MbedPoll.fh_poll_with_wake := fun ev arm w =>
       let r := poll_with_wake ev arm (snd w) in (fst r, (fst w, snd r)) |}.

Definition b_receives : MbedPoll.Platform (UARTSerial * UARTSerial) :=
  {| MbedPoll.current_time := fun _ => 0;
     MbedPoll.wait_until := fun _ w =>
       Returned (false, (fst w, run_env rx_0x41 (snd w)));
     MbedPoll.wait := fun w => Returned (fst w, run_env rx_0x41 (snd w));
     MbedPoll.sleep_1ms := fun w => w |}.

Definition both_for_input : list (MbedPoll.pollfh (UARTSerial * UARTSerial)) :=
  [ {| MbedPoll.fh := Some dev_A; MbedPoll.events := POLLIN;
       MbedPoll.revents := 0 |};
    {| MbedPoll.fh := Some dev_B; MbedPoll.events := POLLIN;
       MbedPoll.revents := 0 |} ].

(** What is visible of a [poll] that returned: its value, the [revents],
    the number of scans and of suspensions. *)
Definition poll_view (o : outcome (MbedPoll.result (UARTSerial * UARTSerial)))
  : outcome (Z * list Z * nat * nat) :=
  do r <- o;
  Returned (MbedPoll.ret _ r, map (MbedPoll.revents _) (MbedPoll.out _ r),
            MbedPoll.scans _ r, MbedPoll.suspensions _ r).

End Scenarios.

(** ** ConditionVariableCS, bare-metal variant: the other waits *)

Module CSCV_BareMetal_Waits.

Import CSCV_BareMetal.

(** [void ConditionVariableCS::wait()]: [wait_for(0xFFFFFFFFu)], the result
    dropped. *)
Definition wait (sched : list (list irq)) (cv : ConditionVariableCS)
  : outcome ConditionVariableCS :=
  do r <- wait_for 0xFFFFFFFF sched cv;
  Returned (snd r).

(** [bool ConditionVariableCS::wait_until(uint64_t end_time)], [now] being
    the value [current_time()] returns.  [end_time - now] is a [uint64_t];
    passing it to [wait_for(uint32_t)] keeps its low 32 bits. *)
Definition wait_until (end_time now : Z) (sched : list (list irq))
           (cv : ConditionVariableCS) : outcome (bool * ConditionVariableCS) :=
  if now >=? end_time then wait_for 0 sched cv
  else wait_for (((end_time - now) mod 2 ^ 64) mod 2 ^ 32) sched cv.

Definition is_timeout (i : irq) : bool :=
  match i with
  | IrqTimeout => true
  | _ => false
  end.

(** A pass that ends a finite wait: a handler notified, or the timeout
    fired. *)
Definition decisive (w : list irq) : bool :=
  existsb is_notify w || existsb is_timeout w.

End CSCV_BareMetal_Waits.

(** ** ConditionVariableCS, RTOS variant: checking a wait list *)

Module CSCV_RTOS_Check.

Import CSCV_RTOS.

(** [chain], [ring] and [linked] as computations, for concrete states. *)
Fixpoint chainb (m : gmap nat Waiter) (p : nat) (l : list nat) (n : nat) : bool :=
  match l with
  | [] => true
  | a :: l' =>
      match m !! a with
      | Some w =>
          in_list w && ptr_eqb (prev w) (Some p)
          && ptr_eqb (next w) (Some (hd n l'))
      | None => false
      end
      && chainb m a l' n
  end.

Definition ringb (m : gmap nat Waiter) (l : list nat) : bool :=
  match l with
  | [] => true
  | a :: _ => chainb m (List.last l a) l a
  end.

Definition linkedb (s : state) (l : list nat) : bool :=
  bool_decide (NoDup l)
  && ringb (mem s) l
  && bool_decide (_wait_list s = head l)
  && forallb (fun xw => implb (in_list (snd xw)) (bool_decide (fst xw ∈ l)))
             (map_to_list (mem s)).

(** Threads 1, 2 and 3 waiting, in this order, with their nodes at 10, 20
    and 30; a fourth node, at 40, is alive and not linked. *)
Definition three_linked : state :=
  {| mem := <[10%nat := {| tid := 1; prev := Some 30%nat; next := Some 20%nat;
                           in_list := true |}]>
            (<[20%nat := {| tid := 2; prev := Some 10%nat; next := Some 30%nat;
                            in_list := true |}]>
             (<[30%nat := {| tid := 3; prev := Some 20%nat; next := Some 10%nat;
                             in_list := true |}]>
              (<[40%nat := {| tid := 4; prev := None; next := None;
                              in_list := false |}]> ∅)));
     _wait_list := Some 10%nat;
     thread_flags := ∅ |}.

(** What a notification does to a waiter: its node is unlinked, with its
    thread unchanged ... *)
Definition released (s s' : state) (x : nat) : Prop :=
  exists w w', mem s !! x = Some w /\ mem s' !! x = Some w' /\
               cleared w' /\ tid w' = tid w.

(** ... and the flags raised are those of the waiters of [l], added to the
    ones already raised. *)
Definition flagged (s s' : state) (l : list nat) : Prop :=
  forall t, t ∈ thread_flags s' <->
            (t ∈ thread_flags s \/
             exists x w, x ∈ l /\ mem s !! x = Some w /\ tid w = t).

End CSCV_RTOS_Check.

(** ** UARTSerial: [sigio] and [sync] *)

Module UART_More.

Import CircularBuffer UART.

Definition set_sigio_cb (v : bool) (u : UARTSerial) : UARTSerial :=
  mkUARTSerial (serial u) (_rxbuf u) (_txbuf u) (_blocking u) (_tx_irq_enabled u)
    (_rx_irq_enabled u) (_dcd_irq u) (_poll_wake_events u) v (calls u).

Section Endpoint.

Context {PE : PollEvents} {UC : UartConfig}.

(** [void UARTSerial::sigio(Callback<void()> func)]; [func] is [true] for a
    callback that is not empty. *)
Definition sigio (func : bool) (u : UARTSerial) : UARTSerial :=
  let u := set_sigio_cb func u in
  if _sigio_cb u then
    let current_events := poll 0x7FFF u in
    if current_events =? 0 then u else add_call SigioCb u
  else u.

(** [int UARTSerial::sync()].  Each [_cv_tx.wait_for(1)] consumes one
    element of the schedule: what the rest of the system does until the
    wait returns, by notification or after its millisecond. *)
Fixpoint sync (sched : list (list env_event)) (u : UARTSerial)
  : outcome (Z * UARTSerial) :=
  if empty (_txbuf u) then Returned (0, u)
  else match sched with
       | [] => Blocked
       | w :: rest => sync rest (run_env w u)
       end.

(** No RX interrupt is taken in the schedule. *)
Definition is_irq_rx (e : env_event) : bool :=
  match e with
  | IrqRx => true
  | _ => false
  end.

Definition no_rx_irq (sched : list (list env_event)) : bool :=
  forallb (forallb (fun e => negb (is_irq_rx e))) sched.

(** The calls [wake(cv, events)] makes on an endpoint in state [u]. *)
Definition wake_log (cv : cvar) (events : Z) (u : UARTSerial) : list call :=
  NotifyAll cv
  :: (if Z.land (_poll_wake_events u) events =? 0 then []
      else [WakePoll events])
  ++ (if _sigio_cb u then [SigioCb] else []).

End Endpoint.

End UART_More.

(** ** FileHandle.cpp *)

Module FileHandle_cpp.

Import UART.

Inductive whence : Type := SEEK_SET | SEEK_CUR | SEEK_END.

Section Size.

(** A file is its virtual [seek], acting on the file's state. *)
Variable file : Type.
Variable seek : Z -> whence -> file -> Z * file.

(** [off_t FileHandle::size()]. *)
Definition size (f : file) : Z * file :=
  let off := seek 0 SEEK_CUR f in
  if fst off <? 0 then off
  else
    let size := seek 0 SEEK_END (snd off) in
    let back := seek (fst off) SEEK_SET (snd size) in
    (fst size, snd back).

End Size.

(** [off_t UARTSerial::seek(off_t offset, int whence)], with [ESPIPE] the
    value of the platform's [<errno.h>]. *)
Definition uart_seek (ESPIPE : Z) (offset : Z) (w : whence) (u : UARTSerial)
  : Z * UARTSerial :=
  (- ESPIPE, u).

(** Modelled from the spec: [mbed_critical.h] is not among the sources.
    Section 5: critical sections nest, and interrupts are masked exactly
    while the nesting level is not zero. *)
Definition core_util_are_interrupts_enabled (nesting : nat) : bool :=
  Nat.eqb nesting 0.

(** The assertions of [ConditionVariableCS::wait_for] on the interrupt
    state, for a caller at the given nesting level:
    [MBED_ASSERT(!core_util_are_interrupts_enabled())] on entry, and
    [MBED_ASSERT(core_util_are_interrupts_enabled())] after its
    [core_util_critical_section_exit()]. *)
Definition wait_allowed (nesting : nat) : bool :=
  negb (core_util_are_interrupts_enabled nesting)
  && core_util_are_interrupts_enabled (nesting - 1).

Section WakeHelper.

Context {PE : PollEvents}.

Variable EAGAIN : Z.

(** The device derived from [FileHandleDeviceWakeHelper]: its state, and the
    virtual functions the helper calls.  [read_nonblocking] is given the
    buffer (its length is the [size] argument) and yields the buffer it
    leaves; [write_nonblocking] is given the bytes from [ptr] on (their
    number is the [size] argument). *)
Variable dev : Type.

Record DeviceOps : Type := mkDeviceOps {
  read_nonblocking : list Byte.byte -> dev -> Z * list Byte.byte * dev;
  write_nonblocking : list Byte.byte -> dev -> Z * dev;
  is_blocking : dev -> bool;
  is_stream : dev -> bool;
  dev_poll : Z -> dev -> Z
}.

Variable ops : DeviceOps.

(** [ssize_t FileHandleDeviceWakeHelper::read(void *buffer, size_t size)],
    called at critical-section nesting level [nesting]; the function
    enters no critical section of its own.  A [_cv_rx.wait()] whose
    assertions fail stops the system, which is [Fault]; otherwise it
    consumes one element of the schedule: what the rest of the system does
    to the device until the wait returns. *)
Fixpoint read (nesting : nat) (sched : list (dev -> dev))
         (buffer : list Byte.byte) (d : dev)
  : outcome (Z * list Byte.byte * dev) :=
  let r := read_nonblocking ops buffer d in
  let amount_read := fst (fst r) in
  if (amount_read =? - EAGAIN) && is_blocking ops (snd r) then
    if wait_allowed nesting then
      match sched with
      | [] => Blocked
      | w :: rest => read nesting rest (snd (fst r)) (w (snd r))
      end
    else Fault
  else Returned r.

(** The [for (;;)] loop of [write]; [ptr] is the bytes from [ptr] to the
    end of the buffer.  A device that breaks
    [MBED_ASSERT(n <= size - amount_written)] stops the system, which is
    [Fault] here, and so does a [_cv_tx.wait()] whose assertions fail.
    [fuel] bounds the number of passes. *)
Fixpoint write_loop (nesting fuel : nat) (sched : list (dev -> dev))
         (ptr : list Byte.byte) (size amount_written : Z) (d : dev)
  : outcome (Z * dev) :=
  match fuel with
  | O => OutOfFuel
  | S fuel' =>
      let r := write_nonblocking ops ptr d in
      let n := fst r in
      let d := snd r in
      if 0 <=? n then
        if size - amount_written <? n then Fault
        else
          let ptr := skipn (Z.to_nat n) ptr in
          let amount_written := amount_written + n in
          if (size <=? amount_written) || negb (is_stream ops d)
          then Returned (amount_written, d)
          else write_loop nesting fuel' sched ptr size amount_written d
      else if (n =? - EAGAIN) && is_blocking ops d then
        if wait_allowed nesting then
          match sched with
          | [] => Blocked
          | w :: rest =>
              write_loop nesting fuel' rest ptr size amount_written (w d)
          end
        else Fault
      else Returned (n, d)
  end.

(** [ssize_t FileHandleDeviceWakeHelper::write(const void *buffer,
    size_t size)], called at critical-section nesting level [nesting]. *)
Definition write (nesting fuel : nat) (sched : list (dev -> dev))
           (buffer : list Byte.byte) (d : dev) : outcome (Z * dev) :=
  write_loop nesting fuel sched buffer (Z.of_nat (length buffer)) 0 d.

(** The helper's own fields, the device, and the calls made on the
    collaborators. *)
Record helper : Type := mkHelper {
  device : dev;
  h_poll_wake_events : Z;
  h_sigio_cb : bool;
  h_calls : list call
}.

Definition h_add_call (c : call) (h : helper) : helper :=
  mkHelper (device h) (h_poll_wake_events h) (h_sigio_cb h) (h_calls h ++ [c]).

Definition h_set_poll_wake_events (v : Z) (h : helper) : helper :=
  mkHelper (device h) v (h_sigio_cb h) (h_calls h).

(** [short FileHandleDeviceWakeHelper::poll_with_wake(short events,
    bool wake)]. *)
Definition h_poll_with_wake (events : Z) (wake : bool) (h : helper)
  : Z * helper :=
  let revents := dev_poll ops events (device h) in
  if wake && (Z.land revents events =? 0) then
    (revents, h_set_poll_wake_events (Z.lor (h_poll_wake_events h) events) h)
  else (revents, h).

(** [void FileHandleDeviceWakeHelper::wake(short events)]. *)
Definition h_wake (events : Z) (h : helper) : helper :=
  let h := if Z.land events (Z.lor POLLIN POLLERR) =? 0 then h
           else h_add_call (NotifyAll _cv_rx) h in
  let h := if Z.land events (Z.lor (Z.lor POLLOUT POLLHUP) POLLERR) =? 0 then h
           else h_add_call (NotifyAll _cv_tx) h in
  let h := if Z.land (h_poll_wake_events h) events =? 0 then h
           else h_add_call (WakePoll events)
                  (h_set_poll_wake_events
                     (Z.land (h_poll_wake_events h) (Z.lnot events)) h) in
  if h_sigio_cb h then h_add_call SigioCb h else h.

(** [void FileHandleDeviceWakeHelper::sigio(Callback<void()> func)]. *)
Definition h_sigio (func : bool) (h : helper) : helper :=
  let h := mkHelper (device h) (h_poll_wake_events h) func (h_calls h) in
  if h_sigio_cb h then
    let current_events := dev_poll ops 0x7FFF (device h) in
    if current_events =? 0 then h else h_add_call SigioCb h
  else h.

End WakeHelper.

(** A seekable file for worked examples: a position in a file of a given
    length, with [seek] as POSIX [lseek] on a regular file. *)
Record plain_file : Type := mkPlainFile { pos : nat; len : nat }.

Definition plain_seek (offset : Z) (w : whence) (f : plain_file)
  : Z * plain_file :=
  let target := match w with
                | SEEK_SET => offset
                | SEEK_CUR => Z.of_nat (pos f) + offset
                | SEEK_END => Z.of_nat (len f) + offset
                end in
  if target <? 0 then (-22, f)
  else (target, {| pos := Z.to_nat target; len := len f |}).

(** A stream device for worked examples: a queue that holds at most four
    bytes and is never blocking. *)
Definition queue4 : DeviceOps (list Byte.byte) :=
  {| read_nonblocking := fun buffer q =>
       match q with
       | [] => (-11, buffer, q)
       | _ :: _ =>
           (Z.of_nat (Nat.min (length buffer) (length q)),
            firstn (length buffer) q
              ++ skipn (Nat.min (length buffer) (length q)) buffer,
            skipn (length buffer) q)
       end;
     write_nonblocking := fun ptr q =>
       if (4 <=? length q)%nat then (-11, q)
       else (Z.of_nat (Nat.min (length ptr) (4 - length q)),
             q ++ firstn (4 - length q) ptr);
     is_blocking := fun _ => false;
     is_stream := fun _ => true;
     dev_poll := fun _ q =>
       Z.lor (if q is [] then 0 else 0x0001)
             (if (4 <=? length q)%nat then 0 else 0x0010) |}.

(** The same queue on a blocking device. *)
Definition queue4_blocking : DeviceOps (list Byte.byte) :=
  {| read_nonblocking := read_nonblocking _ queue4;
     write_nonblocking := write_nonblocking _ queue4;
     is_blocking := fun _ => true;
     is_stream := is_stream _ queue4;
     dev_poll := dev_poll _ queue4 |}.

End FileHandle_cpp.

(** ** The poll multiplexer: kinds of handles *)

Module MbedPoll_More.

Import MbedPoll.

Section Poll.

Context {PE : PollEvents}.
Variable world : Type.

(** A handle that does not support [poll_with_wake]: the call reports
    POLLNVAL, whatever it is asked. *)
Definition legacy (h : FileHandle world) : Prop :=
  forall mask arm w, Z.land (fst (fh_poll_with_wake world h mask arm w)) POLLNVAL
                     = POLLNVAL.

(** A handle whose queries have no side effect unless they arm a wake-up. *)
Definition quiet (h : FileHandle world) : Prop :=
  (forall mask w, snd (fh_poll_with_wake world h mask false w) = w) /\
  (forall mask w, snd (fh_poll world h mask w) = w).

End Poll.

End MbedPoll_More.

(** ** ns_slist.h: singly-linked list with a tail pointer *)

Module NsSlist.

(** A [void **] as the list code uses it: the address of a list head's
    [first_entry], or of an entry's [next] (the lvalue
    [NS_SLIST_NEXT_(e, offset)]). *)
Inductive loc : Type :=
| FirstEntry (list : Z)
| NextOf (entry : Z).

(** [struct ns_slist].  A null [last_nextptr] is what a zero-initialised
    head holds. *)
Record ns_slist_t : Type := mkSlist {
  first_entry : option Z;
  last_nextptr : option loc
}.

(** The list heads, by address, and the [next] member of the link of every
    entry that is alive, by the entry's address.  Addresses are integers;
    [None] is [NULL]. *)
Record memory : Type := mkMemory {
  heads : gmap Z ns_slist_t;
  links : gmap Z (option Z)
}.

Definition with_heads (h : gmap Z ns_slist_t) (m : memory) : memory :=
  {| heads := h; links := links m |}.

Definition with_links (l : gmap Z (option Z)) (m : memory) : memory :=
  {| heads := heads m; links := l |}.

(** [NS_SLIST_POISON]. *)
Definition NS_SLIST_POISON : option Z := Some 0xDEADBEEF.

(** Reading and writing [NS_SLIST_NEXT_(e, offset)] and the two members of
    a head. *)
Definition get_next (e : Z) (m : memory) : outcome (option Z) :=
  deref (links m !! e).

Definition set_next (e : Z) (v : option Z) (m : memory) : outcome memory :=
  do _ <- deref (links m !! e);
  Returned (with_links (<[e := v]> (links m)) m).

Definition get_head (list : Z) (m : memory) : outcome ns_slist_t :=
  deref (heads m !! list).

Definition set_first_entry (list : Z) (v : option Z) (m : memory)
  : outcome memory :=
  do h <- deref (heads m !! list);
  Returned (with_heads (<[list := {| first_entry := v;
                                     last_nextptr := last_nextptr h |}]>
                          (heads m)) m).

Definition set_last_nextptr (list : Z) (v : option loc) (m : memory)
  : outcome memory :=
  do h <- deref (heads m !! list);
  Returned (with_heads (<[list := {| first_entry := first_entry h;
                                     last_nextptr := v |}]>
                          (heads m)) m).

(** [*p] and [*p = v] for a [void **p]. *)
Definition load (p : option loc) (m : memory) : outcome (option Z) :=
  match p with
  | None => Fault
  | Some (FirstEntry list) => do h <- get_head list m; Returned (first_entry h)
  | Some (NextOf e) => get_next e m
  end.

Definition store (p : option loc) (v : option Z) (m : memory) : outcome memory :=
  match p with
  | None => Fault
  | Some (FirstEntry list) => set_first_entry list v m
  | Some (NextOf e) => set_next e v m
  end.

(** [ns_slist_init_]. *)
Definition ns_slist_init_ (list : Z) (m : memory) : outcome memory :=
  do m <- set_first_entry list None m;
  set_last_nextptr list (Some (FirstEntry list)) m.

(** [ns_slist_link_init_], on the link of entry [e]. *)
Definition ns_slist_link_init_ (e : Z) (m : memory) : outcome memory :=
  set_next e NS_SLIST_POISON m.

(** [ns_slist_add_to_start_]. *)
Definition ns_slist_add_to_start_ (list entry : Z) (m : memory)
  : outcome memory :=
  do h <- get_head list m;
  let next := first_entry h in
  do m <- set_next entry next m;
  do m <- (if next is None then set_last_nextptr list (Some (NextOf entry)) m
           else Returned m);
  set_first_entry list (Some entry) m.

(** [ns_slist_add_after_]. *)
Definition ns_slist_add_after_ (list current entry : Z) (m : memory)
  : outcome memory :=
  do next <- get_next current m;
  do m <- set_next entry next m;
  do m <- (if next is None then set_last_nextptr list (Some (NextOf entry)) m
           else Returned m);
  set_next current (Some entry) m.

(** [ns_slist_add_to_end_]. *)
Definition ns_slist_add_to_end_ (list entry : Z) (m : memory)
  : outcome memory :=
  do m <- set_next entry None m;
  do h <- get_head list m;
  let prev_nextptr := last_nextptr h in
  do m <- store prev_nextptr (Some entry) m;
  set_last_nextptr list (Some (NextOf entry)) m.

(** [ns_slist_get_next_]. *)
Definition ns_slist_get_next_ (current : Z) (m : memory) : outcome (option Z) :=
  get_next current m.

(** [NS_SLIST_ENTRY_(linkptr, offset)]: the entry whose link is at
    [linkptr].  The link of entry [e] is at [e + offset]; a head's
    [first_entry] is at the head's address. *)
Definition entry_of (offset : Z) (p : loc) : option Z :=
  match p with
  | NextOf e => Some e
  | FirstEntry list => Some (list - offset)
  end.

(** [ns_slist_get_last_]. *)
Definition ns_slist_get_last_ (list offset : Z) (m : memory)
  : outcome (option Z) :=
  do h <- get_head list m;
  if first_entry h is None then Returned None
  else do p <- deref (last_nextptr h); Returned (entry_of offset p).

(** [ns_slist_is_empty] and [ns_slist_get_first]. *)
Definition ns_slist_is_empty (list : Z) (m : memory) : outcome bool :=
  do h <- get_head list m;
  Returned (if first_entry h is None then true else false).

Definition ns_slist_get_first (list : Z) (m : memory) : outcome (option Z) :=
  do h <- get_head list m;
  Returned (first_entry h).

Definition ptr_eqb (p q : option Z) : bool :=
  match p, q with
  | Some a, Some b => a =? b
  | None, None => true
  | _, _ => false
  end.

(** The scanning loop of [ns_slist_remove_]: [prev_nextptr] when it ends.
    Stepping from a null [p] reads through [&NS_SLIST_NEXT_(NULL, offset)]. *)
Fixpoint remove_scan (fuel : nat) (removed : Z) (prev_nextptr : loc)
         (p : option Z) (m : memory) : outcome loc :=
  if ptr_eqb p (Some removed) then Returned prev_nextptr
  else
    match fuel with
    | O => OutOfFuel
    | S fuel' =>
        match p with
        | None => Fault
        | Some a =>
            do p' <- get_next a m;
            remove_scan fuel' removed (NextOf a) p' m
        end
    end.

(** [ns_slist_remove_].  The scan is given as many steps as there are
    entries alive, and one more. *)
Definition ns_slist_remove_ (list removed : Z) (m : memory) : outcome memory :=
  do p <- load (Some (FirstEntry list)) m;
  do prev_nextptr <- remove_scan (S (size (links m))) removed
                       (FirstEntry list) p m;
  do next <- get_next removed m;
  do m <- (if next is None then set_last_nextptr list (Some prev_nextptr) m
           else Returned m);
  do m <- store (Some prev_nextptr) next m;
  ns_slist_link_init_ removed m.

(** [ns_slist_remove_next_]. *)
Definition ns_slist_remove_next_ (list before : Z) (m : memory)
  : outcome (option Z * memory) :=
  let prev_nextptr := NextOf before in
  do removed <- load (Some prev_nextptr) m;
  match removed with
  | None => Returned (None, m)
  | Some r =>
      do next <- get_next r m;
      do m <- (if next is None then set_last_nextptr list (Some prev_nextptr) m
               else Returned m);
      do m <- store (Some prev_nextptr) next m;
      do m <- ns_slist_link_init_ r m;
      Returned (Some r, m)
  end.

(** [ns_slist_remove_first_]. *)
Definition ns_slist_remove_first_ (list : Z) (m : memory)
  : outcome (option Z * memory) :=
  do h <- get_head list m;
  match first_entry h with
  | None => Returned (None, m)
  | Some removed =>
      do next <- get_next removed m;
      do m <- (if next is None
               then set_last_nextptr list (Some (FirstEntry list)) m
               else Returned m);
      do m <- set_first_entry list next m;
      do m <- ns_slist_link_init_ removed m;
      Returned (Some removed, m)
  end.

(** [ns_slist_concatenate_]. *)
Definition ns_slist_concatenate_ (dst src : Z) (m : memory) : outcome memory :=
  do s <- get_head src m;
  match first_entry s with
  | None => Returned m
  | Some src_first =>
      do d <- get_head dst m;
      do m <- store (last_nextptr d) (Some src_first) m;
      do s <- get_head src m;
      do m <- set_last_nextptr dst (last_nextptr s) m;
      ns_slist_init_ src m
  end.

Section Count.

(** The width of [uint_fast16_t], which the platform chooses (16 bits at
    least). *)
Variable W : Z.

(** The loop of [ns_slist_count_]. *)
Fixpoint count_loop (fuel : nat) (p : option Z) (count : Z) (m : memory)
  : outcome Z :=
  match p with
  | None => Returned count
  | Some a =>
      match fuel with
      | O => OutOfFuel
      | S fuel' =>
          do p' <- get_next a m;
          count_loop fuel' p' ((count + 1) mod 2 ^ W) m
      end
  end.

(** [ns_slist_count_]. *)
Definition ns_slist_count_ (list : Z) (m : memory) : outcome Z :=
  do h <- get_head list m;
  count_loop (S (size (links m))) (first_entry h) 0 m.

End Count.

(** *** The list a head stands for *)

(** [hd_or l t]: the first of [l], or [t] when [l] is empty. *)
Definition hd_or (l : list Z) (t : option Z) : option Z :=
  match l with
  | [] => t
  | b :: _ => Some b
  end.

(** The entries [l] are alive and linked in this order, the last one
    having [t] for its [next]. *)
Fixpoint lseg (lk : gmap Z (option Z)) (l : list Z) (t : option Z) : Prop :=
  match l with
  | [] => True
  | a :: l' => lk !! a = Some (hd_or l' t) /\ lseg lk l' t
  end.

(** Where the terminating null pointer of the list is. *)
Definition last_slot (h : Z) (l : list Z) : loc :=
  match last l with
  | Some z => NextOf z
  | None => FirstEntry h
  end.

(** The head at [h] stands for the entries [l], first to last. *)
Definition slist (m : memory) (h : Z) (l : list Z) : Prop :=
  NoDup l /\
  heads m !! h = Some {| first_entry := head l;
                         last_nextptr := Some (last_slot h l) |} /\
  lseg (links m) l None.

(** The same as a computation, for concrete memories. *)
Fixpoint lsegb (lk : gmap Z (option Z)) (l : list Z) (t : option Z) : bool :=
  match l with
  | [] => true
  | a :: l' =>
      match lk !! a with
      | Some n => ptr_eqb n (hd_or l' t)
      | None => false
      end && lsegb lk l' t
  end.

Definition loc_eqb (p q : loc) : bool :=
  match p, q with
  | FirstEntry a, FirstEntry b => a =? b
  | NextOf a, NextOf b => a =? b
  | _, _ => false
  end.

Definition slistb (m : memory) (h : Z) (l : list Z) : bool :=
  bool_decide (NoDup l)
  && match heads m !! h with
     | Some hd =>
         ptr_eqb (first_entry hd) (head l)
         && match last_nextptr hd with
            | Some p => loc_eqb p (last_slot h l)
            | None => false
            end
     | None => false
     end
  && lsegb (links m) l None.

(** Two lists for worked examples: the head at 1000 with the entries 10,
    20, 30, the head at 2000 with 50, 60; entry 40 is alive and on no list,
    and the head at 3000 is zero-initialised. *)
Definition demo : memory :=
  {| heads := <[1000 := {| first_entry := Some 10;
                           last_nextptr := Some (NextOf 30) |}]>
              (<[2000 := {| first_entry := Some 50;
                            last_nextptr := Some (NextOf 60) |}]>
               (<[3000 := {| first_entry := None; last_nextptr := None |}]> ∅));
     links := <[10 := Some 20]> (<[20 := Some 30]> (<[30 := None]>
              (<[40 := NS_SLIST_POISON]>
              (<[50 := Some 60]> (<[60 := None]> ∅))))) |}.

(** What an operation on the list at [h] leaves alone: the other heads,
    and the links of the entries outside [touched]. *)
Definition frame (m m' : memory) (h : Z) (touched : list Z) : Prop :=
  (forall h', h' <> h -> heads m' !! h' = heads m !! h') /\
  (forall x, x ∉ touched -> links m' !! x = links m !! x) /\
  (forall x, is_Some (links m' !! x) <-> is_Some (links m !! x)).

End NsSlist.

(** ** ns_hslist.h: singly-linked list with a head pointer only *)

Module NsHslist.

Import NsSlist.

(** [struct ns_hslist] is its [first_entry].  The heads, by address, and
    the [next] member of the link of every entry that is alive. *)
Record hmemory : Type := mkHmemory {
  hheads : gmap Z (option Z);
  hlinks : gmap Z (option Z)
}.

Definition with_hheads (h : gmap Z (option Z)) (m : hmemory) : hmemory :=
  {| hheads := h; hlinks := hlinks m |}.

Definition with_hlinks (l : gmap Z (option Z)) (m : hmemory) : hmemory :=
  {| hheads := hheads m; hlinks := l |}.

(** [NS_HSLIST_POISON]. *)
Definition NS_HSLIST_POISON : option Z := Some 0xDEADBEEF.

Definition hget_next (e : Z) (m : hmemory) : outcome (option Z) :=
  deref (hlinks m !! e).

Definition hset_next (e : Z) (v : option Z) (m : hmemory) : outcome hmemory :=
  do _ <- deref (hlinks m !! e);
  Returned (with_hlinks (<[e := v]> (hlinks m)) m).

Definition hget_first (list : Z) (m : hmemory) : outcome (option Z) :=
  deref (hheads m !! list).

Definition hset_first (list : Z) (v : option Z) (m : hmemory)
  : outcome hmemory :=
  do _ <- deref (hheads m !! list);
  Returned (with_hheads (<[list := v]> (hheads m)) m).

(** [*p = v] for a [void **p] that is the address of a head's
    [first_entry] or of an entry's [next]. *)
Definition hstore (p : loc) (v : option Z) (m : hmemory) : outcome hmemory :=
  match p with
  | FirstEntry list => hset_first list v m
  | NextOf e => hset_next e v m
  end.

(** [ns_hslist_init_]. *)
Definition ns_hslist_init_ (list : Z) (m : hmemory) : outcome hmemory :=
  hset_first list None m.

(** [ns_hslist_link_init_], on the link of entry [e]. *)
Definition ns_hslist_link_init_ (e : Z) (m : hmemory) : outcome hmemory :=
  hset_next e NS_HSLIST_POISON m.

(** [ns_hslist_add_to_start_]. *)
Definition ns_hslist_add_to_start_ (list entry : Z) (m : hmemory)
  : outcome hmemory :=
  do first <- hget_first list m;
  do m <- hset_next entry first m;
  hset_first list (Some entry) m.

(** [ns_hslist_add_after_]. *)
Definition ns_hslist_add_after_ (current entry : Z) (m : hmemory)
  : outcome hmemory :=
  do next <- hget_next current m;
  do m <- hset_next entry next m;
  hset_next current (Some entry) m.

(** [ns_hslist_get_next_]. *)
Definition ns_hslist_get_next_ (current : Z) (m : hmemory)
  : outcome (option Z) :=
  hget_next current m.

(** The scanning loop of [ns_hslist_remove_]. *)
Fixpoint hremove_scan (fuel : nat) (removed : Z) (prev_nextptr : loc)
         (p : option Z) (m : hmemory) : outcome loc :=
  if ptr_eqb p (Some removed) then Returned prev_nextptr
  else
    match fuel with
    | O => OutOfFuel
    | S fuel' =>
        match p with
        | None => Fault
        | Some a =>
            do p' <- hget_next a m;
            hremove_scan fuel' removed (NextOf a) p' m
        end
    end.

(** [ns_hslist_remove_]. *)
Definition ns_hslist_remove_ (list removed : Z) (m : hmemory)
  : outcome hmemory :=
  do p <- hget_first list m;
  do prev_nextptr <- hremove_scan (S (size (hlinks m))) removed
                       (FirstEntry list) p m;
  do next <- hget_next removed m;
  do m <- hstore prev_nextptr next m;
  ns_hslist_link_init_ removed m.

(** [ns_hslist_remove_next_]. *)
Definition ns_hslist_remove_next_ (before : Z) (m : hmemory)
  : outcome (option Z * hmemory) :=
  do removed <- hget_next before m;
  match removed with
  | None => Returned (None, m)
  | Some r =>
      do next <- hget_next r m;
      do m <- hset_next before next m;
      do m <- ns_hslist_link_init_ r m;
      Returned (Some r, m)
  end.

(** [ns_hslist_remove_first_]. *)
Definition ns_hslist_remove_first_ (list : Z) (m : hmemory)
  : outcome (option Z * hmemory) :=
  do removed <- hget_first list m;
  match removed with
  | None => Returned (None, m)
  | Some r =>
      do next <- hget_next r m;
      do m <- hset_first list next m;
      do m <- ns_hslist_link_init_ r m;
      Returned (Some r, m)
  end.

Section Count.

(** The width of [uint_fast16_t]. *)
Variable W : Z.

Fixpoint hcount_loop (fuel : nat) (p : option Z) (count : Z) (m : hmemory)
  : outcome Z :=
  match p with
  | None => Returned count
  | Some a =>
      match fuel with
      | O => OutOfFuel
      | S fuel' =>
          do p' <- hget_next a m;
          hcount_loop fuel' p' ((count + 1) mod 2 ^ W) m
      end
  end.

(** [ns_hslist_count_]. *)
Definition ns_hslist_count_ (list : Z) (m : hmemory) : outcome Z :=
  do first <- hget_first list m;
  hcount_loop (S (size (hlinks m))) first 0 m.

End Count.

(** The head at [h] stands for the entries [l], first to last. *)
Definition hslist (m : hmemory) (h : Z) (l : list Z) : Prop :=
  NoDup l /\ hheads m !! h = Some (head l) /\ lseg (hlinks m) l None.

Definition hslistb (m : hmemory) (h : Z) (l : list Z) : bool :=
  bool_decide (NoDup l)
  && match hheads m !! h with
     | Some f => ptr_eqb f (head l)
     | None => false
     end
  && lsegb (hlinks m) l None.

(** A list for worked examples: the head at 1000 with the entries 10, 20,
    30; entry 40 is alive and on no list. *)
Definition hdemo : hmemory :=
  {| hheads := <[1000 := Some 10]> ∅;
     hlinks := <[10 := Some 20]> (<[20 := Some 30]> (<[30 := None]>
               (<[40 := NS_HSLIST_POISON]> ∅))) |}.

End NsHslist.

(** * Properties *)

(** ** Bare-metal condition variable *)

Module CSCV_BareMetal_Facts.
Import CSCV_BareMetal.

Lemma run_irqs_app attached w1 w2 s :
  run_irqs attached (w1 ++ w2) s = run_irqs attached w2 (run_irqs attached w1 s).
Proof. unfold run_irqs. apply fold_left_app. Qed.

(** Once set, [_notified] stays set for the rest of the window. *)
Lemma run_irqs_notified attached w cv timed_out :
  _notified cv = true ->
  _notified (fst (run_irqs attached w (cv, timed_out))) = true.
Proof.
  revert cv timed_out.
  induction w as [|i w IH]; intros cv timed_out Hn; simpl; [exact Hn|].
  destruct i; simpl.
  - apply IH. reflexivity.
  - apply IH. reflexivity.
  - destruct attached; simpl; apply IH; exact Hn.
  - apply IH. exact Hn.
Qed.

(** Only a notifying handler sets [_notified]. *)
Lemma run_irqs_notified_iff attached w cv timed_out :
  _notified cv = false ->
  _notified (fst (run_irqs attached w (cv, timed_out))) = existsb is_notify w.
Proof.
  revert cv timed_out.
  induction w as [|i w IH]; intros cv timed_out Hn; simpl; [exact Hn|].
  destruct i; simpl.
  - apply run_irqs_notified. reflexivity.
  - apply run_irqs_notified. reflexivity.
  - destruct attached; simpl; apply IH; exact Hn.
  - apply IH. exact Hn.
Qed.

(** Without a timeout attached, the [timed_out] local keeps its value. *)
Lemma run_irqs_not_attached w cv timed_out :
  snd (run_irqs false w (cv, timed_out)) = timed_out.
Proof.
  revert cv timed_out.
  induction w as [|i w IH]; intros cv timed_out; simpl; [reflexivity|].
  destruct i; simpl; apply IH.
Qed.

Lemma wait_loop_false millisec attached sched :
  forall cv timed_out cv',
    _notified cv = false ->
    wait_loop millisec attached sched cv timed_out = Returned (false, cv') ->
    exists pre w post,
      sched = pre ++ w :: post /\
      existsb is_notify w = true /\
      notify_in pre = false.
Proof.
  induction sched as [|w rest IH]; intros cv timed_out cv' Hn Hr; simpl in Hr.
  - rewrite Hn in Hr.
    destruct (millisec =? 0); [destruct timed_out|]; discriminate.
  - pose proof (run_irqs_notified_iff attached w cv timed_out Hn) as Hw.
    destruct (_notified (fst (run_irqs attached w (cv, timed_out)))) eqn:Hf.
    + exists [], w, rest. repeat split. symmetry. exact Hw.
    + destruct (snd (run_irqs attached w (cv, timed_out))); [discriminate|].
      destruct (IH _ _ _ Hf Hr) as (pre & w' & post & -> & Hw' & Hpre).
      exists (w :: pre), w', post. repeat split; [exact Hw'|].
      unfold notify_in in *. simpl. rewrite <- Hw, Hpre. reflexivity.
Qed.

(** C10.  Bare-metal [wait_for] forgets what was notified before it was
    called: its outcome is the same from every prior state of the condition
    variable, a [notify_one] or [notify_all] completed just before included;
    and it returns [false] (notified) only when a handler that notifies runs
    in one of the passes it makes with the critical section released, the
    earlier passes being free of notifications. *)
Theorem wait_for_forgets_prior_notify :
  forall (millisec : Z) (sched : list (list irq)) (cv : ConditionVariableCS),
    (forall cv0, wait_for millisec sched cv0 = wait_for millisec sched cv) /\
    wait_for millisec sched (notify_one cv) = wait_for millisec sched cv /\
    wait_for millisec sched (notify_all cv) = wait_for millisec sched cv /\
    (forall cv',
        wait_for millisec sched cv = Returned (false, cv') ->
        exists pre w post,
          sched = pre ++ w :: post /\
          existsb is_notify w = true /\
          notify_in pre = false) /\
    (notify_in sched = false ->
     forall cv', wait_for millisec sched (notify_one cv) <> Returned (false, cv')).
Proof.
  intros millisec sched cv.
  assert (Hfalse : forall cv',
             wait_for millisec sched cv = Returned (false, cv') ->
             exists pre w post,
               sched = pre ++ w :: post /\
               existsb is_notify w = true /\
               notify_in pre = false).
  { intros cv' Hr. unfold wait_for in Hr.
    eapply wait_loop_false; [|exact Hr]. reflexivity. }
  repeat split; try reflexivity; [exact Hfalse|].
  intros Hnone cv' Hr.
  change (wait_for millisec sched cv = Returned (false, cv')) in Hr.
  destruct (Hfalse cv' Hr) as (pre & w & post & -> & Hw & _).
  unfold notify_in in Hnone. rewrite existsb_app in Hnone. simpl in Hnone.
  rewrite Hw in Hnone. rewrite orb_true_r in Hnone. discriminate.
Qed.

Lemma wait_for_forgets_prior_notify_witness :
  (wait_for 50 [[IrqOther]; [IrqNotifyOne]] (notify_one {| _notified := false |})
   = Returned (false, {| _notified := true |}) /\
   exists pre w post,
     [[IrqOther]; [IrqNotifyOne]] = pre ++ w :: post /\
     existsb is_notify w = true /\
     notify_in pre = false) /\
  (notify_in [[IrqOther]; [IrqTimeout]] = false /\
   wait_for 50 [[IrqOther]; [IrqTimeout]] (notify_one {| _notified := false |})
   <> Returned (false, {| _notified := true |})).
Proof.
  split; split; try reflexivity.
  - apply (proj1 (proj2 (proj2 (proj2
             (wait_for_forgets_prior_notify 50 [[IrqOther]; [IrqNotifyOne]]
                {| _notified := false |}))))
           {| _notified := true |}).
    reflexivity.
  - apply (proj2 (proj2 (proj2 (proj2
             (wait_for_forgets_prior_notify 50 [[IrqOther]; [IrqTimeout]]
                {| _notified := false |}))))).
    reflexivity.
Defined.

End CSCV_BareMetal_Facts.

(** ** RTOS condition variable *)

Module CSCV_RTOS_Facts.
Import CSCV_RTOS.

Ltac split_bind H :=
  repeat match type of H with
         | obind ?m _ = Returned _ =>
             let E := fresh "E" in
             destruct m eqn:E; simpl in H; try discriminate H
         end.

Lemma store_in_list_lookup p v m m' a :
  store_in_list p v m = Returned m' -> p = Some a ->
  in_list <$> (m' !! a) = Some v.
Proof.
  intros H ->. unfold store_in_list in H. simpl in H.
  destruct (m !! a) as [w|] eqn:E; simpl in H; [|discriminate].
  injection H as <-. rewrite lookup_insert_eq. reflexivity.
Qed.

(** What [_remove_wait_list] leaves: the node is not the head, and its
    [in_list] is false. *)
Lemma remove_wait_list_unlinks waiter s s1 :
  _remove_wait_list waiter s = Returned s1 ->
  _wait_list s1 <> Some waiter /\
  in_list <$> (mem s1 !! waiter) = Some false /\
  thread_flags s1 = thread_flags s.
Proof.
  intros H. unfold _remove_wait_list in H.
  split_bind H. injection H as <-. simpl.
  repeat split.
  - destruct (next a3) as [n|]; simpl; [|discriminate].
    destruct (Nat.eqb n waiter) eqn:En; [discriminate|].
    apply Nat.eqb_neq in En. congruence.
  - eapply store_in_list_lookup; [eassumption|reflexivity].
Qed.

(** Whenever [notify_one] finds a waiter and returns, the thread whose flag
    it sets owns the node that is the head after the unlinking, which is
    never the node it unlinked. *)
Lemma notify_one_flags_new_head s head s' :
  _wait_list s = Some head ->
  notify_one s = Returned s' ->
  exists h' w',
    h' <> head /\
    _wait_list s' = Some h' /\
    mem s' !! h' = Some w' /\
    thread_flags s' = {[ tid w' ]} ∪ thread_flags s /\
    in_list <$> (mem s' !! head) = Some false.
Proof.
  intros Hh H. unfold notify_one in H. rewrite Hh in H.
  split_bind H. injection H as <-.
  destruct (remove_wait_list_unlinks _ _ _ E) as (Hne & Hin & Hfl).
  destruct (_wait_list a) as [h'|] eqn:Eh; [|discriminate].
  simpl in E0. injection E0 as ->.
  destruct (mem a !! a0) as [w'|] eqn:Ew; [|discriminate].
  simpl in E1. injection E1 as ->.
  exists a0, a1. simpl. rewrite Hfl.
  repeat split; try assumption; congruence.
Qed.

(** C1.  [notify_one] on the code.  On an empty list it does nothing.  With
    threads 1 and 2 waiting in this order, it unlinks the node of thread 1
    and sets the flag of thread 2, whose node stays linked as the head;
    thread 1 is not flagged.  With one waiter it dereferences the emptied
    list head.  After the middle one of three waiters has timed out and
    unlinked itself, the head is the waiter that came last, and [notify_one]
    unlinks that one while flagging thread 1. *)
Theorem notify_one_wakes_the_wrong_thread :
  run [IsrNotifyOne] init = Returned init /\
  view (run two_waiters init)
  = Returned (Some 10%nat, [],
              [(Some true, true); (Some true, true); (None, false)]) /\
  view (run (two_waiters ++ [IsrNotifyOne]) init)
  = Returned (Some 20%nat, [2%nat],
              [(Some false, false); (Some true, true); (None, false)]) /\
  run (one_waiter ++ [IsrNotifyOne]) init = Fault /\
  view (run (three_waiters ++ [FlagsWaitReturns 2; WaitForReturns 2]) init)
  = Returned (Some 30%nat, [],
              [(Some true, true); (None, false); (Some true, true)]) /\
  view (run (three_waiters
               ++ [FlagsWaitReturns 2; WaitForReturns 2; IsrNotifyOne]) init)
  = Returned (Some 10%nat, [1%nat],
              [(Some true, true); (None, false); (Some false, false)]).
Proof. repeat split; vm_compute; reflexivity. Qed.

(** *** The wait list under [wait_for] and notifications from handlers *)

(** [List.last] of a non-empty list does not depend on the default. *)
Lemma last_cons (a : nat) l d : List.last (a :: l) d = List.last l a.
Proof.
  revert a d. induction l as [|b l IH]; intros a d; [reflexivity|].
  change (List.last (a :: b :: l) d) with (List.last (b :: l) d).
  rewrite (IH b d), (IH b a). reflexivity.
Qed.

(** A segment depends on its own nodes only. *)
Lemma chain_frame m m' p l n :
  (forall x, x ∈ l -> m' !! x = m !! x) -> chain m p l n -> chain m' p l n.
Proof.
  revert p. induction l as [|a l IH]; intros p Hf H; [exact I|].
  destruct H as [(w & Hw & Hi & Hp & Hn) Hc]. split.
  - exists w. rewrite Hf by (left). repeat split; assumption.
  - apply IH; [|exact Hc]. intros x Hx. apply Hf. right. exact Hx.
Qed.

(** A segment splits at any point. *)
Lemma chain_app m p l1 l2 n :
  chain m p (l1 ++ l2) n <->
  chain m p l1 (hd n l2) /\ chain m (List.last l1 p) l2 n.
Proof.
  revert p. induction l1 as [|a l1 IH]; intros p.
  - simpl. tauto.
  - cbn [app chain]. rewrite IH.
    assert (Hhd : hd n (l1 ++ l2) = hd (hd n l2) l1) by (destruct l1; reflexivity).
    rewrite Hhd, last_cons. tauto.
Qed.

Lemma chain_lookup m p l n x :
  chain m p l n -> x ∈ l -> exists w, m !! x = Some w /\ in_list w = true.
Proof.
  revert p. induction l as [|a l IH]; intros p H Hx.
  - inversion Hx.
  - destruct H as [(w & Hw & Hi & _) Hc].
    apply elem_of_cons in Hx as [->|Hx]; [eauto|]. eapply IH; eassumption.
Qed.

(** The stores through a valid pointer, as map updates. *)
Lemma store_prev_ok a v m w :
  m !! a = Some w -> store_prev (Some a) v m = Returned (<[a := set_prev v w]> m).
Proof. intros H. unfold store_prev. simpl. rewrite H. reflexivity. Qed.

Lemma store_next_ok a v m w :
  m !! a = Some w -> store_next (Some a) v m = Returned (<[a := set_next v w]> m).
Proof. intros H. unfold store_next. simpl. rewrite H. reflexivity. Qed.

Lemma store_in_list_ok a v m w :
  m !! a = Some w ->
  store_in_list (Some a) v m = Returned (<[a := set_in_list v w]> m).
Proof. intros H. unfold store_in_list. simpl. rewrite H. reflexivity. Qed.

(** Redirecting the [prev] of the first node. *)
Lemma chain_set_prev_first m p a l n w p' :
  chain m p (a :: l) n -> a ∉ l -> m !! a = Some w ->
  chain (<[a := set_prev (Some p') w]> m) p' (a :: l) n.
Proof.
  intros [(w0 & Hw0 & Hi & Hp & Hn) Hc] Hnot Hw.
  assert (w0 = w) by congruence. subst w0. split.
  - exists (set_prev (Some p') w). rewrite lookup_insert_eq.
    repeat split; assumption.
  - eapply chain_frame; [|exact Hc].
    intros x Hx. apply lookup_insert_ne. intros ->. contradiction.
Qed.

(** Redirecting the [next] of the last node. *)
Lemma chain_set_next_last m p l z n w n' :
  chain m p (l ++ [z]) n -> z ∉ l -> m !! z = Some w ->
  chain (<[z := set_next (Some n') w]> m) p (l ++ [z]) n'.
Proof.
  intros H Hnot Hw. apply chain_app in H as [H1 H2]. apply chain_app. split.
  - simpl in *. eapply chain_frame; [|exact H1].
    intros x Hx. apply lookup_insert_ne. intros ->. contradiction.
  - destruct H2 as [(w0 & Hw0 & Hi & Hp & Hn) _].
    assert (w0 = w) by congruence. subst w0. split; [|exact I].
    exists (set_next (Some n') w). rewrite lookup_insert_eq.
    repeat split; assumption.
Qed.

Lemma last_nonempty (l : list nat) d d' : l <> [] -> List.last l d = List.last l d'.
Proof.
  induction l as [|a l IH]; intros H; [congruence|].
  rewrite !last_cons. reflexivity.
Qed.

(** A circular list can be read from any of its nodes. *)
Lemma ring_rotate m a l : ring m (a :: l) -> ring m (l ++ [a]).
Proof.
  destruct l as [|b l]; [exact id|].
  unfold ring. intros [(w & Hw & Hi & Hp & Hn) Hc].
  change ((b :: l) ++ [a]) with (b :: (l ++ [a])).
  cbv iota beta.
  rewrite last_cons, last_last.
  change (b :: (l ++ [a])) with ((b :: l) ++ [a]).
  apply chain_app. split; [exact Hc|].
  split; [|exact I]. exists w. rewrite last_cons in Hp.
  split; [exact Hw|]. split; [exact Hi|]. split; [exact Hp | exact Hn].
Qed.

Lemma ring_rotate_to m pre a post :
  ring m (pre ++ a :: post) -> ring m (a :: post ++ pre).
Proof.
  revert post. induction pre as [|x pre IH]; intros post H.
  - rewrite app_nil_r. exact H.
  - apply ring_rotate in H. rewrite <- app_assoc in H. simpl in H.
    apply IH in H. rewrite <- app_assoc in H. exact H.
Qed.

Lemma split_last (l : list nat) :
  l <> [] -> exists l0 z, l = l0 ++ [z] /\ forall d, List.last l d = z.
Proof.
  intros H. destruct (exists_last H) as (l0 & z & ->).
  exists l0, z. split; [reflexivity|]. intros d. apply last_last.
Qed.

(** [_remove_wait_list] on the first node of the list as read from that
    node: the others stay linked in their order, the list head becomes the
    removed node's successor (none when it was alone), and no node is
    created or freed. *)
Lemma remove_first s a r :
  NoDup (a :: r) -> ring (mem s) (a :: r) ->
  exists m',
    _remove_wait_list a s = Returned (with_mem m' (with_wait_list (head r) s)) /\
    ring m' r /\
    in_list <$> (m' !! a) = Some false /\
    (forall x, x ∉ r -> x <> a -> m' !! x = mem s !! x) /\
    (forall x, is_Some (m' !! x) <-> is_Some (mem s !! x)).
Proof.
  intros Hnd Hring.
  apply NoDup_cons in Hnd as [Hna Hndr].
  destruct r as [|b r'].
  - destruct Hring as [(w & Hw & Hi & Hp & Hn) _]. simpl in Hp, Hn.
    unfold _remove_wait_list. rewrite Hw. cbn [deref obind].
    rewrite Hp, Hn.
    rewrite (store_next_ok _ _ _ _ Hw). cbn [obind].
    rewrite lookup_insert_eq. cbn [deref obind set_next prev].
    rewrite Hp.
    erewrite store_prev_ok by apply lookup_insert_eq. cbn [obind].
    rewrite lookup_insert_eq. cbn [deref obind set_prev set_next next].
    simpl ptr_eqb. rewrite Nat.eqb_refl.
    erewrite store_next_ok by apply lookup_insert_eq. cbn [obind].
    erewrite store_prev_ok by apply lookup_insert_eq. cbn [obind].
    erewrite store_in_list_ok by apply lookup_insert_eq. cbn [obind].
    eexists. split; [reflexivity|]. split; [exact I|]. split; [|split].
    + rewrite lookup_insert_eq. reflexivity.
    + intros x _ Hx. rewrite !lookup_insert_ne by congruence. reflexivity.
    + intros x. destruct (decide (x = a)) as [->|Hx].
      * rewrite lookup_insert_eq, Hw. split; eauto.
      * rewrite !lookup_insert_ne by congruence. reflexivity.
  - destruct Hring as [(w & Hw & Hi & Hp & Hn) Hc].
    destruct (split_last (b :: r') ltac:(discriminate)) as (r0 & z & Hr & Hlast).
    rewrite last_cons, (Hlast a) in Hp. simpl in Hn.
    assert (Hzr : z ∈ b :: r') by (rewrite Hr; apply elem_of_app; right; left).
    assert (Haz : a <> z) by (intros ->; contradiction).
    assert (Hab : a <> b) by (intros ->; apply Hna; left).
    assert (Hz0 : z ∉ r0).
    { rewrite Hr in Hndr. apply NoDup_app in Hndr as (_ & Hd & _).
      intros Hz. apply (Hd z Hz). left. }
    apply NoDup_cons in Hndr as [Hbr Hndr'].
    destruct (chain_lookup _ _ _ _ z Hc Hzr) as (wz & Hwz & _).
    pose proof Hc as Hc1. rewrite Hr in Hc1.
    apply (chain_set_next_last _ _ _ _ _ wz b) in Hc1; [|exact Hz0|exact Hwz].
    rewrite <- Hr in Hc1.
    destruct (chain_lookup _ _ _ _ b Hc1 ltac:(left)) as (wb & Hwb & _).
    pose proof (chain_set_prev_first _ _ _ _ _ wb z Hc1 Hbr Hwb) as Hc2.
    unfold _remove_wait_list. rewrite Hw. cbn [deref obind].
    rewrite Hp, Hn.
    rewrite (store_next_ok _ _ _ _ Hwz). cbn [obind].
    rewrite lookup_insert_ne, Hw by congruence. cbn [deref obind]. rewrite Hp.
    rewrite (store_prev_ok _ _ _ _ Hwb). cbn [obind].
    rewrite !lookup_insert_ne, Hw by congruence. cbn [deref obind]. rewrite Hn.
    simpl ptr_eqb. destruct (Nat.eqb_spec b a) as [E|_]; [congruence|].
    erewrite store_next_ok
      by (rewrite !lookup_insert_ne by congruence; exact Hw).
    cbn [obind].
    erewrite store_prev_ok by apply lookup_insert_eq. cbn [obind].
    erewrite store_in_list_ok by apply lookup_insert_eq. cbn [obind].
    eexists. split; [reflexivity|]. split; [|split; [|split]].
    + unfold ring. rewrite (Hlast b).
      eapply chain_frame; [|exact Hc2].
      intros x Hx.
      assert (x <> a) by (intros ->; contradiction).
      rewrite !(lookup_insert_ne _ a) by congruence. reflexivity.
    + rewrite lookup_insert_eq. reflexivity.
    + intros x Hxr Hxa.
      assert (x <> z) by (intros ->; contradiction).
      assert (x <> b) by (intros ->; apply Hxr; left).
      rewrite !lookup_insert_ne by congruence. reflexivity.
    + intros x.
      destruct (decide (x = a)) as [->|Hxa];
        [rewrite lookup_insert_eq, Hw; split; eauto|].
      rewrite !(lookup_insert_ne _ a) by congruence.
      destruct (decide (x = b)) as [->|Hxb].
      { rewrite lookup_insert_eq.
        destruct (chain_lookup _ _ _ _ b Hc ltac:(left)) as (wb0 & -> & _).
        split; eauto. }
      rewrite lookup_insert_ne by congruence.
      destruct (decide (x = z)) as [->|Hxz];
        [rewrite lookup_insert_eq, Hwz; split; eauto|].
      rewrite lookup_insert_ne by congruence. reflexivity.
Qed.

Lemma ring_lookup m l x :
  ring m l -> x ∈ l -> exists w, m !! x = Some w /\ in_list w = true.
Proof.
  destruct l as [|a l]; [intros _ Hx; inversion Hx|].
  intros H Hx. eapply chain_lookup; eassumption.
Qed.

Lemma ring_frame m m' l :
  (forall x, x ∈ l -> m' !! x = m !! x) -> ring m l -> ring m' l.
Proof.
  destruct l as [|a l]; [intros _ _; exact I|].
  intros Hf H. eapply chain_frame; eassumption.
Qed.

(** On a well-formed list, [in_list] tells membership. *)
Lemma linked_in_list s l x w :
  linked s l -> mem s !! x = Some w -> (in_list w = true <-> x ∈ l).
Proof.
  intros (_ & Hr & _ & Hin) Hw. split; [apply (Hin x w Hw)|].
  intros Hx. destruct (ring_lookup _ _ _ Hr Hx) as (w' & Hw' & Hi). congruence.
Qed.

(** [_remove_wait_list] on any node of a well-formed list returns and
    leaves a well-formed list: the nodes after the removed one, then those
    before it.  So a waiter that leaves from the middle moves the head. *)
Lemma remove_linked s l a :
  linked s l -> a ∈ l ->
  exists s' pre post,
    l = pre ++ a :: post /\
    _remove_wait_list a s = Returned s' /\
    linked s' (post ++ pre) /\
    thread_flags s' = thread_flags s /\
    in_list <$> (mem s' !! a) = Some false /\
    (forall x, is_Some (mem s' !! x) <-> is_Some (mem s !! x)).
Proof.
  intros (Hnd & Hring & Hhead & Hin) Ha.
  apply list_elem_of_split in Ha as (pre & post & ->).
  assert (Hnd' : NoDup (a :: post ++ pre)).
  { rewrite (Permutation_app_comm post pre), Permutation_middle. exact Hnd. }
  apply ring_rotate_to in Hring.
  destruct (remove_first s a (post ++ pre) Hnd' Hring)
    as (m' & Hrm & Hring' & Hia & Hsame & Hdom).
  eexists _, pre, post. split; [reflexivity|]. split; [exact Hrm|].
  apply NoDup_cons in Hnd' as [Hna Hnd''].
  split; [|split; [reflexivity|split; [exact Hia | exact Hdom]]].
  split; [exact Hnd''|]. split; [exact Hring'|]. split; [reflexivity|].
  simpl. intros x w Hw Hi.
  destruct (decide (x ∈ post ++ pre)) as [Hx|Hx]; [exact Hx|].
  destruct (decide (x = a)) as [->|Hxa].
  - rewrite Hw in Hia. simpl in Hia. congruence.
  - rewrite (Hsame x Hx Hxa) in Hw. specialize (Hin x w Hw Hi).
    apply elem_of_app in Hin as [Hin|Hin]; [apply elem_of_app; right; exact Hin|].
    apply elem_of_cons in Hin as [->|Hin]; [congruence|].
    apply elem_of_app. left. exact Hin.
Qed.

(** The end of the lifetime of a node that is not on the list. *)
Lemma linked_delete s l a :
  linked s l -> a ∉ l -> linked (with_mem (delete a (mem s)) s) l.
Proof.
  intros (Hnd & Hring & Hhead & Hin) Ha.
  split; [exact Hnd|]. split; [|split; [exact Hhead|]].
  - eapply ring_frame; [|exact Hring]. simpl.
    intros x Hx. apply lookup_delete_ne. intros ->. contradiction.
  - simpl. intros x w Hw Hi.
    destruct (decide (x = a)) as [->|Hxa];
      [rewrite lookup_delete_eq in Hw; discriminate|].
    rewrite lookup_delete_ne in Hw by congruence. eapply Hin; eassumption.
Qed.

(** [wait_for] never leaves its node behind: whenever its last part
    returns, the node is off the list and gone. *)
Lemma exit_linked s l a ret millisec b s' :
  linked s l -> wait_for_exit a ret millisec s = Returned (b, s') ->
  exists l',
    linked s' l' /\ (a ∉ l') /\ mem s' !! a = None /\
    (forall x, x ∈ l' <-> (x ∈ l /\ x <> a)).
Proof.
  intros Hl H. unfold wait_for_exit in H.
  destruct (timeout_of ret millisec) as [b0| | |]; cbn [obind] in H;
    try discriminate.
  destruct (mem s !! a) as [w|] eqn:Hw; [|discriminate]. cbn [deref obind] in H.
  destruct (in_list w) eqn:Hi.
  - assert (Ha : a ∈ l) by (eapply linked_in_list; eassumption).
    destruct (remove_linked s l a Hl Ha)
      as (s1 & pre & post & -> & Hrm & Hl1 & _ & _ & _).
    rewrite Hrm in H. cbn [obind] in H. injection H as _ <-.
    pose proof Hl as (Hnd & _).
    assert (Hna : a ∉ post ++ pre).
    { apply NoDup_app in Hnd as (_ & Hd & Hnd2).
      apply NoDup_cons in Hnd2 as [Hap _].
      intros Hx. apply elem_of_app in Hx as [Hx|Hx]; [contradiction|].
      apply (Hd a Hx). left. }
    exists (post ++ pre). split; [apply linked_delete; assumption|].
    split; [exact Hna|]. split; [apply lookup_delete_eq|].
    intros x. rewrite !elem_of_app, elem_of_cons. split.
    + intros Hx. split; [tauto|]. intros ->. apply Hna.
      apply elem_of_app. tauto.
    + intros [[Hx|[->|Hx]] Hne]; tauto.
  - cbn [obind] in H. injection H as _ <-.
    assert (Hna : a ∉ l).
    { intros Ha. apply (linked_in_list _ _ _ _ Hl Hw) in Ha. congruence. }
    exists l. split; [apply linked_delete; assumption|].
    split; [exact Hna|]. split; [apply lookup_delete_eq|].
    intros x. split; [|tauto]. intros Hx. split; [exact Hx|].
    intros ->. contradiction.
Qed.

(** [notify_one], whenever it returns, has unlinked the head and kept the
    order of the others. *)
Lemma notify_one_linked s l s' :
  linked s l -> notify_one s = Returned s' -> linked s' (tail l).
Proof.
  intros Hl H. unfold notify_one in H.
  pose proof Hl as (Hnd & Hring & Hhead & Hin).
  destruct l as [|h r]; simpl in Hhead; rewrite Hhead in H.
  - injection H as <-. exact Hl.
  - destruct (remove_first s h r Hnd Hring) as (m' & Hrm & Hring' & Hia & Hsame & _).
    rewrite Hrm in H. cbn [obind] in H.
    destruct (deref (_wait_list _)) as [h'| | |]; cbn [obind] in H;
      try discriminate.
    destruct (deref (_ !! h')) as [w'| | |]; cbn [obind] in H; try discriminate.
    injection H as <-.
    apply NoDup_cons in Hnd as [Hna Hnd'].
    split; [exact Hnd'|]. split; [exact Hring'|]. split; [reflexivity|].
    simpl. intros x w Hw Hi.
    destruct (decide (x ∈ r)) as [Hx|Hx]; [exact Hx|].
    destruct (decide (x = h)) as [->|Hxh].
    + rewrite Hw in Hia. simpl in Hia. congruence.
    + rewrite (Hsame x Hx Hxh) in Hw. specialize (Hin x w Hw Hi).
      apply elem_of_cons in Hin as [->|Hin]; [congruence | exact Hin].
Qed.

(** [wait_for] links its fresh node at the tail. *)
Lemma enter_linked s l a t :
  linked s l -> mem s !! a = None ->
  exists s',
    wait_for_enter a t s = Returned s' /\
    linked s' (l ++ [a]) /\
    thread_flags s' = thread_flags s /\
    (forall x, x <> a -> is_Some (mem s' !! x) <-> is_Some (mem s !! x)).
Proof.
  intros (Hnd & Hring & Hhead & Hin) Hfresh.
  assert (Hal : a ∉ l).
  { intros Ha. destruct (ring_lookup _ _ _ Hring Ha) as (w & Hw & _). congruence. }
  unfold wait_for_enter.
  set (w0 := {| tid := t; prev := None; next := None; in_list := false |}).
  set (m0 := <[a := w0]> (mem s)).
  assert (Hm0 : m0 !! a = Some w0) by apply lookup_insert_eq.
  unfold _add_wait_list. cbn [with_mem _wait_list mem]. rewrite Hhead.
  destruct l as [|f l']; cbn [head].
  - rewrite (store_next_ok _ _ _ _ Hm0). cbn [obind].
    erewrite store_prev_ok by apply lookup_insert_eq. cbn [obind].
    erewrite store_in_list_ok by apply lookup_insert_eq. cbn [obind].
    eexists. split; [reflexivity|]. split; [|split; [reflexivity|]].
    + split; [apply NoDup_singleton|]. split; [|split; [reflexivity|]].
      * cbn [with_mem mem app]. split; [|exact I]. eexists.
        rewrite lookup_insert_eq.
        split; [reflexivity|]. repeat split.
      * simpl. intros x w Hw Hi.
        destruct (decide (x = a)) as [->|Hxa]; [left|].
        subst m0. rewrite !lookup_insert_ne in Hw by congruence.
        exfalso. specialize (Hin x w Hw Hi). inversion Hin.
    + simpl. intros x Hxa. subst m0.
      rewrite !lookup_insert_ne by congruence. reflexivity.
  - pose proof Hring as Hc. unfold ring in Hc.
    destruct (split_last (f :: l') ltac:(discriminate)) as (r0 & z & Hr & Hlast).
    rewrite (Hlast f) in Hc.
    assert (Hzl : z ∈ f :: l') by (rewrite Hr; apply elem_of_app; right; left).
    assert (Haz : a <> z) by (intros ->; contradiction).
    assert (Haf : a <> f) by (intros ->; apply Hal; left).
    assert (Hz0 : z ∉ r0).
    { rewrite Hr in Hnd. apply NoDup_app in Hnd as (_ & Hd & _).
      intros Hz. apply (Hd z Hz). left. }
    pose proof Hnd as Hnd0. apply NoDup_cons in Hnd0 as [Hfl Hnd'].
    destruct Hc as [(wf & Hwf & Hif & Hpf & Hnf) Hc'].
    assert (Hc : chain (mem s) z (f :: l') f)
      by (split; [exists wf; repeat split; assumption | exact Hc']).
    (* the list part, through the four stores that touch it *)
    assert (Hc0 : forall m, (forall x, x <> a -> m !! x = mem s !! x) ->
                            chain m z (f :: l') f).
    { intros m Hm. eapply chain_frame; [|exact Hc].
      intros x Hx. apply Hm. intros ->. contradiction. }
    subst m0.
    rewrite lookup_insert_ne, Hwf by congruence. cbn [deref obind]. rewrite Hpf.
    rewrite (store_next_ok _ _ _ _ Hm0). cbn [obind].
    erewrite store_prev_ok by apply lookup_insert_eq. cbn [obind].
    set (m2 := <[a := _]> (<[a := _]> (<[a := w0]> (mem s)))).
    assert (Hm2 : forall x, x <> a -> m2 !! x = mem s !! x).
    { intros x Hx. subst m2. rewrite !lookup_insert_ne by congruence. reflexivity. }
    assert (Hf2 : m2 !! f = Some wf) by (rewrite Hm2 by congruence; exact Hwf).
    rewrite (store_prev_ok _ _ _ _ Hf2). cbn [obind].
    pose proof (chain_set_prev_first _ _ _ _ _ wf a (Hc0 m2 Hm2) Hfl Hf2) as Hc3.
    set (m3 := <[f := _]> m2) in *.
    destruct (chain_lookup _ _ _ _ z Hc3 Hzl) as (wz & Hwz & _).
    rewrite (store_next_ok _ _ _ _ Hwz). cbn [obind].
    rewrite Hr in Hc3.
    apply (chain_set_next_last _ _ _ _ _ wz a) in Hc3; [|exact Hz0|exact Hwz].
    rewrite <- Hr in Hc3.
    set (m4 := <[z := _]> m3) in *.
    assert (Ha4 : m4 !! a = m2 !! a).
    { subst m4 m3. rewrite !lookup_insert_ne by congruence. reflexivity. }
    assert (Ha2 : exists w2, m2 !! a = Some w2 /\
                             prev w2 = Some z /\ next w2 = Some f).
    { subst m2. rewrite lookup_insert_eq. eexists. repeat split. }
    destruct Ha2 as (w2 & Hw2 & Hp2 & Hn2). rewrite Hw2 in Ha4.
    rewrite (store_in_list_ok _ _ _ _ Ha4). cbn [obind].
    eexists. split; [reflexivity|]. split; [|split; [reflexivity|]].
    + split; [|split; [|split; [simpl; exact Hhead|]]].
      * apply NoDup_app. split; [exact Hnd|]. split; [|apply NoDup_singleton].
        intros x Hx Hxa. apply list_elem_of_singleton in Hxa as ->.
        contradiction.
      * cbn [with_mem mem]. change ((f :: l') ++ [a]) with (f :: (l' ++ [a])).
        unfold ring. rewrite last_cons, last_last.
        change (f :: (l' ++ [a])) with ((f :: l') ++ [a]).
        apply chain_app. split.
        -- eapply chain_frame; [|exact Hc3].
           intros x Hx. apply lookup_insert_ne. intros ->. contradiction.
        -- split; [|exact I]. eexists. rewrite lookup_insert_eq.
           split; [reflexivity|]. split; [reflexivity|].
           rewrite (Hlast a). split; [exact Hp2 | exact Hn2].
      * cbn [with_mem mem]. intros x w Hw Hi.
        destruct (decide (x = a)) as [->|Hxa];
          [apply elem_of_app; right; left|].
        apply elem_of_app. left.
        rewrite lookup_insert_ne in Hw by congruence.
        destruct (decide (x ∈ f :: l')) as [Hx|Hx]; [exact Hx|].
        assert (x <> z) by (intros ->; contradiction).
        assert (x <> f) by (intros ->; apply Hx; left).
        subst m4 m3. rewrite !lookup_insert_ne in Hw by congruence.
        rewrite Hm2 in Hw by congruence. eapply Hin; eassumption.
    + cbn [with_mem mem]. intros x Hxa.
      rewrite lookup_insert_ne by congruence. subst m4 m3.
      destruct (decide (x = z)) as [->|Hxz].
      { rewrite lookup_insert_eq.
        destruct (chain_lookup _ _ _ _ z Hc Hzl) as (wz0 & -> & _).
        split; eauto. }
      rewrite lookup_insert_ne by congruence.
      destruct (decide (x = f)) as [->|Hxf];
        [rewrite lookup_insert_eq, Hwf; split; eauto|].
      rewrite lookup_insert_ne by congruence. rewrite Hm2 by congruence.
      reflexivity.
Qed.

Lemma linked_same_list s s' l :
  mem s' = mem s -> _wait_list s' = _wait_list s -> linked s l -> linked s' l.
Proof. unfold linked. intros -> ->. exact id. Qed.

(** One pass of the loop of [notify_all] on a live node. *)
Lemma notify_all_pass_ok s a w :
  mem s !! a = Some w ->
  exists m',
    notify_all_pass a s
    = Returned (osThreadFlagsSet (tid w) (with_mem m' s), next w) /\
    (exists w', m' !! a = Some w' /\ cleared w') /\
    (forall x, x <> a -> m' !! x = mem s !! x).
Proof.
  intros Hw. unfold notify_all_pass. rewrite Hw. cbn [deref obind].
  rewrite (store_next_ok _ _ _ _ Hw). cbn [obind].
  erewrite store_prev_ok by apply lookup_insert_eq. cbn [obind].
  erewrite store_in_list_ok by apply lookup_insert_eq. cbn [obind].
  rewrite lookup_insert_eq. cbn [deref obind].
  eexists. split; [reflexivity|]. split.
  - eexists. rewrite lookup_insert_eq. split; [reflexivity|].
    repeat split.
  - intros x Hx. rewrite !lookup_insert_ne by congruence. reflexivity.
Qed.

(** The passes of [notify_all] along a segment of the detached list. *)
Lemma notify_all_loop_chain l : forall a p n s fuel,
  NoDup (a :: l) -> chain (mem s) p (a :: l) n ->
  exists s',
    notify_all_loop (S (length l) + fuel) (Some a) s
    = notify_all_loop fuel (Some n) s' /\
    _wait_list s' = _wait_list s /\
    (forall x, x ∉ a :: l -> mem s' !! x = mem s !! x) /\
    (forall x, x ∈ a :: l -> exists w, mem s' !! x = Some w /\ cleared w).
Proof.
  induction l as [|b l IH]; intros a p n s fuel Hnd Hc.
  - destruct Hc as [(w & Hw & Hi & Hp & Hn) _]. simpl in Hn.
    destruct (notify_all_pass_ok s a w Hw) as (m' & Hpass & Hcl & Hsame).
    eexists. split.
    + cbn [length Nat.add notify_all_loop]. rewrite Hpass. cbn [obind fst snd].
      rewrite Hn. reflexivity.
    + split; [reflexivity|]. split.
      * intros x Hx. simpl. apply Hsame. intros ->. apply Hx. left.
      * intros x Hx. apply list_elem_of_singleton in Hx as ->. exact Hcl.
  - destruct Hc as [(w & Hw & Hi & Hp & Hn) Hc]. simpl in Hn.
    apply NoDup_cons in Hnd as [Ha Hnd].
    destruct (notify_all_pass_ok s a w Hw) as (m' & Hpass & Hcl & Hsame).
    set (s1 := osThreadFlagsSet (tid w) (with_mem m' s)).
    assert (Hc1 : chain (mem s1) a (b :: l) n).
    { eapply chain_frame; [|exact Hc]. intros x Hx. simpl. apply Hsame.
      intros ->. contradiction. }
    destruct (IH b a n s1 fuel Hnd Hc1) as (s' & Hloop & Hwl & Hout & Hin).
    exists s'. split.
    + change (S (length (b :: l)) + fuel)%nat
        with (S (S (length l) + fuel))%nat.
      cbn [notify_all_loop]. rewrite Hpass. cbn [obind fst snd].
      rewrite Hn. exact Hloop.
    + split; [rewrite Hwl; reflexivity|]. split.
      * intros x Hx. rewrite Hout.
        -- simpl. apply Hsame. intros ->. apply Hx. left.
        -- intros Hx'. apply Hx. right. exact Hx'.
      * intros x Hx. apply elem_of_cons in Hx as [->|Hx]; [|apply Hin; exact Hx].
        rewrite Hout by exact Ha. exact Hcl.
Qed.

(** The fuel of [notify_all] is enough for a well-formed list. *)
Lemma ring_length_le_size (m : gmap nat Waiter) l :
  NoDup l -> ring m l -> (length l <= size m)%nat.
Proof.
  intros Hnd Hr.
  rewrite <- (size_list_to_set (C := gset nat) l Hnd), <- size_dom.
  apply subseteq_size. intros x Hx. apply elem_of_list_to_set in Hx.
  destruct (ring_lookup _ _ _ Hr Hx) as (w & Hw & _).
  apply elem_of_dom. eauto.
Qed.

(** [notify_all] run without interruption returns, with the list empty and
    every node cleared. *)
Lemma notify_all_linked s l :
  linked s l -> exists s', notify_all s = Returned s' /\ linked s' [].
Proof.
  intros (Hnd & Hring & Hhead & Hin).
  unfold notify_all, notify_all_detach. cbn [fst snd]. rewrite Hhead.
  destruct l as [|a l]; cbn [head].
  - exists (with_wait_list None s). split; [reflexivity|].
    split; [constructor|]. split; [exact I|]. split; [reflexivity|].
    simpl. exact Hin.
  - pose proof (ring_length_le_size _ _ Hnd Hring) as Hlen. simpl in Hlen.
    assert (Hc : chain (mem (with_wait_list None s)) (List.last (a :: l) a)
                       (a :: l) a) by exact Hring.
    destruct (notify_all_loop_chain l a _ a _ (size (mem s) - length l)%nat
                Hnd Hc) as (s1 & Hloop & Hwl & Hout & Hcl).
    replace (S (size (mem s)))
      with (S (length l) + (size (mem s) - length l))%nat by lia.
    rewrite Hloop.
    destruct (Hcl a ltac:(left)) as (w & Hw & Hi & Hn & Hp).
    destruct (notify_all_pass_ok s1 a w Hw) as (m' & Hpass & Hcl' & Hsame).
    destruct (size (mem s) - length l)%nat as [|k] eqn:Ek; [lia|].
    cbn [notify_all_loop]. rewrite Hpass. cbn [obind fst snd]. rewrite Hn.
    eexists. split; [destruct k; reflexivity|].
    split; [constructor|]. split; [exact I|]. split; [exact Hwl|].
    simpl. intros x wx Hx Hix. exfalso.
    destruct (decide (x = a)) as [->|Hxa].
    { destruct Hcl' as (w' & Hw' & Hi' & _). congruence. }
    rewrite Hsame in Hx by exact Hxa.
    destruct (decide (x ∈ a :: l)) as [Hxl|Hxl].
    + destruct (Hcl x Hxl) as (w' & Hw' & Hi' & _). congruence.
    + rewrite Hout in Hx by exact Hxl. apply Hxl. eapply Hin; eassumption.
Qed.

(** [notify_one] on a well-formed list, case by case: nothing to do on an
    empty list; a null dereference on a list of one; on a longer list the
    head is unlinked and the flag goes to the thread of the second node,
    which stays linked as the new head. *)
Lemma notify_one_outcome s l :
  linked s l ->
  match l with
  | [] => notify_one s = Returned s
  | [h] => notify_one s = Fault
  | h :: h2 :: r =>
      exists s' w2,
        notify_one s = Returned s' /\ linked s' (h2 :: r) /\
        mem s' !! h2 = Some w2 /\
        thread_flags s' = {[ tid w2 ]} ∪ thread_flags s
  end.
Proof.
  intros Hl. pose proof Hl as (Hnd & Hring & Hhead & Hin).
  unfold notify_one. rewrite Hhead.
  destruct l as [|h [|h2 r]]; cbn [head]; [reflexivity| |].
  - destruct (remove_first s h [] Hnd Hring) as (m' & -> & _). reflexivity.
  - destruct (remove_first s h (h2 :: r) Hnd Hring) as (m' & Hrm & Hring' & _).
    destruct (ring_lookup _ _ h2 Hring' ltac:(left)) as (w2 & Hw2 & _).
    assert (H : notify_one s
                = Returned (osThreadFlagsSet (tid w2)
                              (with_mem m' (with_wait_list (Some h2) s)))).
    { unfold notify_one. rewrite Hhead. cbn [head]. rewrite Hrm.
      cbn [obind head with_mem with_wait_list _wait_list deref mem].
      rewrite Hw2. reflexivity. }
    unfold notify_one in H. rewrite Hhead in H. cbn [head] in H. rewrite H.
    eexists _, w2. split; [reflexivity|].
    split; [|split; [exact Hw2 | reflexivity]].
    apply (notify_one_linked s (h :: h2 :: r)); [exact Hl|].
    unfold notify_one. rewrite Hhead. exact H.
Qed.

(** Every event that runs without interruption keeps the wait list well
    formed. *)
Lemma step_keeps_linked e y y' l :
  linked (cv y) l -> atomic_event e y -> step e y = Returned y' ->
  exists l', linked (cv y') l'.
Proof.
  intros Hl He H. destruct e as [t a millisec|t|t| | |t|t]; simpl in H, He;
    try contradiction.
  - destruct (thread_of t y); try discriminate.
    destruct (enter_linked (cv y) l a t Hl He) as (s' & Hs & Hl' & _).
    rewrite Hs in H. injection H as <-. eexists. exact Hl'.
  - destruct (thread_of t y) as [| a millisec | |]; try discriminate.
    unfold osThreadFlagsWait in H.
    destruct (bool_decide _); [|destruct (millisec =? 0);
                                 [|destruct (millisec =? osWaitForever)]];
      try discriminate; injection H as <-; exists l;
      (eapply linked_same_list; [| |exact Hl]; reflexivity).
  - destruct (thread_of t y) as [| | a millisec ret |]; try discriminate.
    destruct (wait_for_exit a ret millisec (cv y)) as [[b s']| | |] eqn:E;
      try discriminate.
    injection H as <-.
    destruct (exit_linked _ _ _ _ _ _ _ Hl E) as (l' & Hl' & _).
    exists l'. exact Hl'.
  - destruct (notify_one (cv y)) as [s'| | |] eqn:E; try discriminate.
    injection H as <-. exists (tail l). eapply notify_one_linked; eassumption.
  - destruct (notify_all_linked _ _ Hl) as (s' & Hs & Hl').
    rewrite Hs in H. injection H as <-. exists []. exact Hl'.
Qed.

(** So does every schedule of such events, of any length and with any
    number of threads. *)
Lemma run_keeps_linked es : forall y y' l,
  linked (cv y) l -> atomic_run es y -> run es y = Returned y' ->
  exists l', linked (cv y') l'.
Proof.
  induction es as [|e es IH]; intros y y' l Hl Ha H.
  - injection H as <-. eauto.
  - destruct Ha as [He Ha]. cbn [run] in H.
    destruct (step e y) as [y1| | |] eqn:E; try discriminate.
    cbn [obind] in H.
    destruct (step_keeps_linked _ _ _ _ Hl He E) as (l1 & Hl1).
    eapply IH; eassumption.
Qed.

(** A fresh condition variable has a well-formed, empty list. *)
Lemma init_linked : linked (cv init) [].
Proof.
  split; [constructor|]. split; [exact I|]. split; [reflexivity|].
  intros x w Hw. simpl in Hw. rewrite lookup_empty in Hw. discriminate.
Qed.

(** With [notify_one] and [notify_all] called from handlers only, the wait
    list stays consistent along every schedule of up to seven events of the
    three threads: the races of a timeout with those notifications are
    harmless. *)
Lemma atomic_schedules_keep_waiters_consistent :
  explore atomic_events 7 init = true.
Proof. vm_compute. reflexivity. Qed.

(** [notify_all] called from a thread with interrupts enabled, one waiter.
    The only node is its own successor, so the loop keeps its address after
    clearing it and flagging thread 1.  Thread 1 runs, returns from
    [wait_for] and its node dies; the next pass of the loop reads and writes
    the dead node. *)
Lemma notify_all_in_thread_revisits_dead_head :
  (do y <- run (one_waiter
                  ++ [CallNotifyAll 4; NotifyAllPass 4;
                      FlagsWaitReturns 1; WaitForReturns 1]) init;
   Returned (mem (cv y) !! 10%nat, thread_of 1 y, thread_of 4 y))
  = Returned (None, Idle (Some false), InNotifyAll (Some 10%nat)) /\
  run (one_waiter
         ++ [CallNotifyAll 4; NotifyAllPass 4;
             FlagsWaitReturns 1; WaitForReturns 1; NotifyAllPass 4]) init
  = Fault.
Proof. split; vm_compute; reflexivity. Qed.

(** C9.  [notify_all] called by thread 4 with interrupts enabled, three
    waiters.  After its critical section the three nodes are off the list
    with [in_list] still true.  It clears node 10 and flags thread 1; then
    thread 2 times out, finds its [in_list] true and unlinks itself, which
    writes node 30 into the list head and node 30 into the [next] of node
    10; then thread 1 returns from [wait_for] with [false].  Node 10 is
    dead and still the successor of node 30 on the wait list, and the
    notifier holds a pointer to the dead node 20, which its next pass
    dereferences. *)
Theorem notify_all_race_leaves_dangling_waiter :
  view (run (three_waiters ++ [CallNotifyAll 4]) init)
  = Returned (None, [],
              [(Some true, false); (Some true, false); (Some true, false)]) /\
  view (run (three_waiters
               ++ [CallNotifyAll 4; NotifyAllPass 4;
                   FlagsWaitReturns 2; WaitForReturns 2;
                   FlagsWaitReturns 1; WaitForReturns 1]) init)
  = Returned (Some 30%nat, [],
              [(None, true); (None, false); (Some true, true)]) /\
  (do y <- run (three_waiters
                  ++ [CallNotifyAll 4; NotifyAllPass 4;
                      FlagsWaitReturns 2; WaitForReturns 2;
                      FlagsWaitReturns 1; WaitForReturns 1]) init;
   Returned (thread_of 1 y, thread_of 2 y, thread_of 4 y))
  = Returned (Idle (Some false), Idle (Some true), InNotifyAll (Some 20%nat)) /\
  run (three_waiters
         ++ [CallNotifyAll 4; NotifyAllPass 4;
             FlagsWaitReturns 2; WaitForReturns 2;
             FlagsWaitReturns 1; WaitForReturns 1; NotifyAllPass 4]) init
  = Fault.
Proof. repeat split; vm_compute; reflexivity. Qed.

End CSCV_RTOS_Facts.

(** ** [wait_for(0)] in both variants *)

Module CSCV_ZeroTimeout.

(** Bare metal: one pass, no WFE; the result tells whether a notifying
    handler ran in the pass. *)
Lemma bare_metal_poll sched cv :
  CSCV_BareMetal.wait_for 0 sched cv
  = Returned
      (negb (existsb CSCV_BareMetal.is_notify (hd [] sched)),
       {| CSCV_BareMetal._notified :=
            existsb CSCV_BareMetal.is_notify (hd [] sched) |}).
Proof.
  unfold CSCV_BareMetal.wait_for. simpl.
  destruct sched as [|w rest]; simpl; [reflexivity|].
  pose proof (CSCV_BareMetal_Facts.run_irqs_notified_iff false w
                {| CSCV_BareMetal._notified := false |} true eq_refl) as Hn.
  pose proof (CSCV_BareMetal_Facts.run_irqs_not_attached w
                {| CSCV_BareMetal._notified := false |} true) as Ht.
  destruct (CSCV_BareMetal.run_irqs false w _) as [[n] t]; simpl in *.
  subst. destruct (existsb CSCV_BareMetal.is_notify w); reflexivity.
Qed.

Import CSCV_RTOS.

Lemma rtos_flags_poll t s :
  exists ret s',
    osThreadFlagsWait t 0 s = Returned (ret, s') /\
    timeout_of ret 0 = Returned (negb (bool_decide (t ∈ thread_flags s))).
Proof.
  unfold osThreadFlagsWait.
  destruct (bool_decide (t ∈ thread_flags s)); simpl.
  - eexists _, _. split; reflexivity.
  - eexists _, _. split; reflexivity.
Qed.

Lemma wait_for_exit_result a ret millisec s b s' :
  wait_for_exit a ret millisec s = Returned (b, s') ->
  timeout_of ret millisec = Returned b.
Proof.
  unfold wait_for_exit. intros H.
  destruct (timeout_of ret millisec) as [b0| | |]; cbn [obind] in H;
    try discriminate.
  destruct (deref (mem s !! a)) as [w| | |]; simpl in H; try discriminate.
  destruct (if in_list w then _ else _) as [s1| | |]; simpl in H;
    try discriminate.
  injection H as <- _. reflexivity.
Qed.

Lemma thread_of_set_thread t th s y :
  thread_of t (set_thread t th s y) = th.
Proof. unfold thread_of, set_thread. simpl. rewrite lookup_insert_eq. reflexivity. Qed.

(** C5, as the code has it.  [wait_for(0)] does not suspend, in either
    variant, but its result depends on notifications.  Bare metal: it makes
    one pass without WFE and returns [true] unless a handler that notifies
    runs in that pass, in which case it returns [false]; what [_notified]
    held at entry is discarded.  RTOS: for a thread in the
    [osThreadFlagsWait] of a [wait_for(0)], that call completes at once, and
    [wait_for] then returns [true] unless the thread's unblock flag was set
    at that moment, in which case it returns [false]. *)
Theorem wait_for_zero_reports_notification :
  (forall sched cv,
      CSCV_BareMetal.wait_for 0 sched cv
      = Returned
          (negb (existsb CSCV_BareMetal.is_notify (hd [] sched)),
           {| CSCV_BareMetal._notified :=
                existsb CSCV_BareMetal.is_notify (hd [] sched) |})) /\
  (forall y t a,
      thread_of t y = InFlagsWait a 0 ->
      exists y1,
        step (FlagsWaitReturns t) y = Returned y1 /\
        forall y2,
          step (WaitForReturns t) y1 = Returned y2 ->
          thread_of t y2
          = Idle (Some (negb (bool_decide (t ∈ thread_flags (cv y)))))).
Proof.
  split; [exact bare_metal_poll|].
  intros y t a Ht.
  destruct (rtos_flags_poll t (cv y)) as (ret & s' & Hw & Hto).
  exists (set_thread t (Resumed a 0 ret) s' y).
  split.
  - simpl. rewrite Ht, Hw. reflexivity.
  - intros y2 H. simpl in H. rewrite thread_of_set_thread in H.
    destruct (wait_for_exit a ret 0 _) as [[b s2]| | |] eqn:E;
      simpl in H; try discriminate.
    injection H as <-. rewrite thread_of_set_thread.
    apply wait_for_exit_result in E. rewrite Hto in E.
    injection E as <-. reflexivity.
Qed.

Lemma wait_for_zero_reports_notification_witness :
  exists y y1,
    run stale_flag init = Returned y /\
    thread_of 1 y = InFlagsWait 11 0 /\
    step (FlagsWaitReturns 1) y = Returned y1 /\
    forall y2,
      step (WaitForReturns 1) y1 = Returned y2 ->
      thread_of 1 y2 = Idle (Some false).
Proof.
  destruct (run stale_flag init) as [y| | |] eqn:E;
    try (vm_compute in E; discriminate E).
  assert (Ht : thread_of 1 y = InFlagsWait 11 0).
  { vm_compute in E. injection E as <-. vm_compute. reflexivity. }
  assert (Hf : bool_decide (1%nat ∈ thread_flags (cv y)) = true).
  { vm_compute in E. injection E as <-. vm_compute. reflexivity. }
  destruct (proj2 wait_for_zero_reports_notification y 1%nat 11%nat Ht)
    as (y1 & Hs & Hr).
  exists y, y1. repeat split; try assumption.
  intros y2 H2. rewrite (Hr y2 H2), Hf. reflexivity.
Defined.

(** C5 as stated fails: a [wait_for(0)] returns [false] when a handler
    notifies in its window (bare metal), when [notify_all] runs between its
    critical-section exit and its flag poll (RTOS), and when a flag set by
    an earlier notification is pending at entry (RTOS). *)
Lemma wait_for_zero_can_return_false :
  CSCV_BareMetal.wait_for 0 [[CSCV_BareMetal.IrqNotifyOne]]
    {| CSCV_BareMetal._notified := false |}
  = Returned (false, {| CSCV_BareMetal._notified := true |}) /\
  (do y <- run [CallWaitFor 1 10 0; IsrNotifyAll;
                FlagsWaitReturns 1; WaitForReturns 1] init;
   Returned (thread_of 1 y))
  = Returned (Idle (Some false)) /\
  (do y <- run (stale_flag ++ [FlagsWaitReturns 1; WaitForReturns 1]) init;
   Returned (thread_of 1 y))
  = Returned (Idle (Some false)).
Proof. repeat split; vm_compute; reflexivity. Qed.

End CSCV_ZeroTimeout.

(** ** UARTSerial *)

Module UART_Facts.
Import CircularBuffer UART.

Local Arguments full : simpl never.
Local Arguments empty : simpl never.

(** *** Hang-up detection *)

(** C4.  [hup()] on the code.  With the carrier-detect input configured
    active-high, [dcd_irq] is attached to the falling edge, so the line is
    disconnected while the pin is low; [hup()] reads the pin without regard
    to the polarity.  With the pin low, [hup()] is false and [poll] reports
    POLLOUT and no POLLHUP; with the pin high (carrier present), [hup()] is
    true and [poll] reports POLLHUP and no POLLOUT.  The falling edge itself
    runs [dcd_irq], which wakes pollers armed for POLLHUP. *)
Theorem hup_ignores_dcd_polarity :
  let mk := fun level =>
    set_data_carrier_detect (Some level) true
      (UARTSerial_ctor {| rx_fifo := []; tx_room := 1; tx_line := [] |}) in
  (disconnected <$> _dcd_irq (mk false)) = Some true /\
  hup (mk false) = false /\
  poll (PE := mbed_poll_h) (UC := mbed_uart_config) 0x7FFF (mk false) = 0x0010 /\
  (disconnected <$> _dcd_irq (mk true)) = Some false /\
  hup (mk true) = true /\
  poll (PE := mbed_poll_h) (UC := mbed_uart_config) 0x7FFF (mk true) = 0x2000 /\
  (let u := run_env (PE := mbed_poll_h) (UC := mbed_uart_config)
              [DcdPin false]
              (set_poll_wake_events 0x2000 (mk true)) in
   calls u = [WakePoll 0x2000] /\ hup u = false /\
   poll (PE := mbed_poll_h) (UC := mbed_uart_config) 0x7FFF u = 0x0010).
Proof. cbv zeta. repeat apply conj; vm_compute; reflexivity. Qed.

Section Endpoint.

Context {PE : PollEvents} {UC : UartConfig}.

(** The parts of [poll] that hold as specified: POLLIN, POLLHUP against
    [hup()], POLLOUT, nothing else. *)
Lemma poll_value events u :
  poll events u
  = Z.lor (if empty (_rxbuf u) then 0 else POLLIN)
          (if hup u then POLLHUP
           else if full TXBUF_SIZE (_txbuf u) then 0 else POLLOUT).
Proof.
  unfold poll.
  destruct (empty (_rxbuf u)), (hup u), (full TXBUF_SIZE (_txbuf u));
    simpl; rewrite ?Z.lor_0_r; reflexivity.
Qed.

(** *** Arming and firing of poll wake-ups *)

Lemma land_lnot_disjoint m e :
  Z.land m e = 0 -> Z.land m (Z.lnot e) = m.
Proof.
  intros H. apply Z.bits_inj'. intros n Hn.
  rewrite Z.land_spec, Z.lnot_spec by assumption.
  assert (Hb : Z.testbit (Z.land m e) n = false)
    by (rewrite H; apply Z.bits_0).
  rewrite Z.land_spec in Hb.
  destruct (Z.testbit m n), (Z.testbit e n); simpl in *; congruence.
Qed.

Lemma nonzero_has_bit x : x <> 0 -> exists n, Z.testbit x n = true.
Proof.
  intros Hx.
  destruct (Z.lt_trichotomy x 0) as [Hneg|[H0|Hpos]]; [|contradiction|].
  - exists (Z.succ (Z.log2 (Z.abs x))).
    apply Z.bits_iff_neg; [lia | exact Hneg].
  - exists (Z.log2 x). apply Z.bit_log2. exact Hpos.
Qed.

(** Two masks meet exactly when some bit is set in both. *)
Lemma land_nonzero_bit m e :
  Z.land m e <> 0 <-> exists n, Z.testbit e n && Z.testbit m n = true.
Proof.
  split.
  - intros H. destruct (nonzero_has_bit _ H) as (n & Hn).
    exists n. rewrite Z.land_spec in Hn. rewrite andb_comm. exact Hn.
  - intros (n & Hn) H0.
    assert (Hb : Z.testbit (Z.land m e) n = false)
      by (rewrite H0; apply Z.bits_0).
    rewrite Z.land_spec, andb_comm in Hb. congruence.
Qed.

Lemma wake_mask cv events u :
  _poll_wake_events (wake cv events u)
  = Z.land (_poll_wake_events u) (Z.lnot events).
Proof.
  unfold wake.
  set (u1 := match cv with Some c => add_call (NotifyAll c) u | None => u end).
  assert (H1 : _poll_wake_events u1 = _poll_wake_events u)
    by (subst u1; destruct cv; reflexivity).
  destruct (Z.land (_poll_wake_events u1) events =? 0) eqn:E.
  - apply Z.eqb_eq in E. rewrite H1 in E.
    rewrite (land_lnot_disjoint _ _ E).
    destruct (_sigio_cb u1); simpl; exact H1.
  - rewrite <- H1.
    destruct (_sigio_cb _); reflexivity.
Qed.

Lemma wake_calls cv events u :
  calls (wake cv events u)
  = calls u
    ++ match cv with Some c => [NotifyAll c] | None => [] end
    ++ (if Z.land (_poll_wake_events u) events =? 0 then []
        else [WakePoll events])
    ++ (if _sigio_cb u then [SigioCb] else []).
Proof.
  unfold wake.
  destruct cv as [c|]; simpl;
    destruct (Z.land (_poll_wake_events u) events =? 0); simpl;
      destruct (_sigio_cb u); simpl;
        rewrite <- ?app_assoc, ?app_nil_r; reflexivity.
Qed.

Lemma fired_unarmed n ws :
  forall u, Z.testbit (_poll_wake_events u) n = false -> fired n ws u = O.
Proof.
  induction ws as [|c ws IH]; intros u Hb; simpl; [reflexivity|].
  rewrite Hb, andb_false_r. simpl. apply IH.
  rewrite wake_mask.
  destruct (Z.ltb_spec n 0) as [Hneg|Hpos].
  - apply Z.testbit_neg_r. assumption.
  - rewrite Z.land_spec, Hb. reflexivity.
Qed.

Lemma fired_at_most_once n ws :
  forall u, (fired n ws u <= 1)%nat.
Proof.
  induction ws as [|c ws IH]; intros u; simpl; [lia|].
  destruct (Z.testbit (snd c) n && Z.testbit (_poll_wake_events u) n) eqn:E.
  - apply andb_true_iff in E as [He Hm].
    rewrite fired_unarmed; [lia|].
    rewrite wake_mask.
    destruct (Z.ltb_spec n 0) as [Hneg|Hpos].
    + apply Z.testbit_neg_r. assumption.
    + rewrite Z.land_spec, Z.lnot_spec, He by assumption.
      apply andb_false_r.
  - specialize (IH (wake (fst c) (snd c) u)). lia.
Qed.

(** C6.  [poll_with_wake(events, arm)] changes nothing but
    [_poll_wake_events], and that only when [arm] is true and none of the
    requested events is ready, by or-ing [events] into it.
    [wake(cv, events)] calls [wake_poll(events)] exactly when [events]
    meets [_poll_wake_events], that is when some bit is both signalled
    and armed, and leaves [_poll_wake_events] with the bits of [events]
    cleared; a second [wake] for the same events calls no [wake_poll];
    and over any sequence of [wake] calls with no arming in between, a
    bit is both signalled and armed at most once. *)
Theorem arm_once_fire_once :
  (forall events arm u,
      fst (poll_with_wake events arm u) = poll events u /\
      snd (poll_with_wake events arm u)
      = if arm && (Z.land (poll events u) events =? 0)
        then set_poll_wake_events (Z.lor (_poll_wake_events u) events) u
        else u) /\
  (forall cv events u,
      wake_polls (calls (wake cv events u))
      = wake_polls (calls u)
        ++ (if Z.land (_poll_wake_events u) events =? 0 then []
            else [events]) /\
      _poll_wake_events (wake cv events u)
      = Z.land (_poll_wake_events u) (Z.lnot events) /\
      Z.land (_poll_wake_events (wake cv events u)) events = 0) /\
  (forall events u,
      Z.land (_poll_wake_events u) events <> 0 <->
      exists n, Z.testbit events n && Z.testbit (_poll_wake_events u) n = true) /\
  (forall cv cv' events u,
      wake_polls (calls (wake cv' events (wake cv events u)))
      = wake_polls (calls (wake cv events u))) /\
  (forall n ws u, (fired n ws u <= 1)%nat).
Proof.
  assert (Hclr : forall cv events u,
             Z.land (_poll_wake_events (wake cv events u)) events = 0).
  { intros cv events u. rewrite wake_mask.
    rewrite <- Z.land_assoc, (Z.land_comm (Z.lnot events)).
    rewrite Z.land_lnot_diag. apply Z.land_0_r. }
  assert (Hpolls : forall cv events u,
             wake_polls (calls (wake cv events u))
             = wake_polls (calls u)
               ++ (if Z.land (_poll_wake_events u) events =? 0 then []
                   else [events])).
  { intros cv events u. rewrite wake_calls. unfold wake_polls.
    rewrite !flat_map_app.
    destruct cv; simpl;
      destruct (Z.land (_poll_wake_events u) events =? 0); simpl;
        destruct (_sigio_cb u); simpl; rewrite ?app_nil_r; reflexivity. }
  split; [|split; [|split; [|split]]].
  - intros events arm u. unfold poll_with_wake.
    destruct (arm && _); split; reflexivity.
  - intros cv events u.
    split; [apply Hpolls | split; [apply wake_mask | apply Hclr]].
  - intros events u. apply land_nonzero_bit.
  - intros cv cv' events u. rewrite Hpolls, Hclr. simpl.
    apply app_nil_r.
  - intros n ws u. apply fired_at_most_once.
Qed.

(** *** Frame lemmas *)

Lemma wake_frame cv events u :
  serial (wake cv events u) = serial u /\
  _rxbuf (wake cv events u) = _rxbuf u /\
  _txbuf (wake cv events u) = _txbuf u /\
  _blocking (wake cv events u) = _blocking u /\
  _tx_irq_enabled (wake cv events u) = _tx_irq_enabled u /\
  _rx_irq_enabled (wake cv events u) = _rx_irq_enabled u /\
  _dcd_irq (wake cv events u) = _dcd_irq u.
Proof.
  unfold wake.
  destruct cv; simpl;
    destruct (Z.land (_poll_wake_events u) events =? 0); simpl;
      destruct (_sigio_cb u); simpl; repeat split.
Qed.

Lemma wake_serial cv events u : serial (wake cv events u) = serial u.
Proof. apply wake_frame. Qed.
Lemma wake_rxbuf cv events u : _rxbuf (wake cv events u) = _rxbuf u.
Proof. apply wake_frame. Qed.
Lemma wake_txbuf cv events u : _txbuf (wake cv events u) = _txbuf u.
Proof. apply wake_frame. Qed.
Lemma wake_blocking cv events u : _blocking (wake cv events u) = _blocking u.
Proof. apply wake_frame. Qed.
Lemma wake_tx_irq_enabled cv events u :
  _tx_irq_enabled (wake cv events u) = _tx_irq_enabled u.
Proof. apply wake_frame. Qed.
Lemma wake_rx_irq_enabled cv events u :
  _rx_irq_enabled (wake cv events u) = _rx_irq_enabled u.
Proof. apply wake_frame. Qed.
Lemma wake_dcd_irq cv events u : _dcd_irq (wake cv events u) = _dcd_irq u.
Proof. apply wake_frame. Qed.

Create Rewrite HintDb uart.
Hint Rewrite wake_serial wake_rxbuf wake_txbuf wake_blocking
     wake_tx_irq_enabled wake_rx_irq_enabled wake_dcd_irq : uart.

Lemma rx_fill_app fifo :
  forall buf, exists extra,
    snd (rx_fill fifo buf) = buf ++ extra /\
    fifo = extra ++ fst (rx_fill fifo buf).
Proof.
  induction fifo as [|c fifo IH]; intros buf; simpl.
  - exists []. rewrite app_nil_r. split; reflexivity.
  - destruct (full RXBUF_SIZE buf).
    + exists []. rewrite app_nil_r. split; reflexivity.
    + destruct (IH (push c buf)) as (extra & H1 & H2).
      exists (c :: extra). unfold push in *.
      rewrite H1, <- app_assoc. simpl. split; congruence.
Qed.

(** When [rx_fill] stops with bytes left in the peripheral, the ring is
    full. *)
Lemma rx_fill_stops fifo :
  forall buf,
    fst (rx_fill fifo buf) = [] \/
    full RXBUF_SIZE (snd (rx_fill fifo buf)) = true.
Proof.
  induction fifo as [|c fifo IH]; intros buf; simpl; [left; reflexivity|].
  destruct (full RXBUF_SIZE buf) eqn:E; simpl; [right; exact E|].
  apply IH.
Qed.

Lemma rx_fill_full fifo buf :
  full RXBUF_SIZE buf = true -> rx_fill fifo buf = (fifo, buf).
Proof. intros H. destruct fifo; simpl; [reflexivity|]. rewrite H. reflexivity. Qed.

Lemma rx_irq_frame u :
  _txbuf (rx_irq u) = _txbuf u /\
  _blocking (rx_irq u) = _blocking u /\
  _tx_irq_enabled (rx_irq u) = _tx_irq_enabled u /\
  _dcd_irq (rx_irq u) = _dcd_irq u /\
  tx_line (serial (rx_irq u)) = tx_line (serial u) /\
  _rxbuf (rx_irq u) = snd (rx_fill (rx_fifo (serial u)) (_rxbuf u)) /\
  _rx_irq_enabled (rx_irq u)
  = _rx_irq_enabled u && negb (full RXBUF_SIZE (_rxbuf (rx_irq u))).
Proof.
  unfold rx_irq. cbv zeta.
  set (r := rx_fill (rx_fifo (serial u)) (_rxbuf u)).
  destruct (_rx_irq_enabled u) eqn:Ei;
    destruct (full RXBUF_SIZE (snd r)) eqn:Ef;
    simpl; rewrite ?Ei, ?Ef; simpl;
    match goal with
    | |- context [if ?c then _ else _] => destruct c
    end;
    autorewrite with uart; simpl; rewrite ?Ei, ?Ef; repeat split.
Qed.

Lemma tx_drain_stream room :
  forall buf line,
    snd (tx_drain room buf line) ++ snd (fst (tx_drain room buf line))
    = line ++ buf.
Proof.
  induction room as [|room IH]; intros buf line.
  - destruct buf; reflexivity.
  - destruct buf as [|c buf]; simpl; [reflexivity|].
    rewrite IH, <- app_assoc. reflexivity.
Qed.

(** [tx_drain] leaves a suffix of the ring. *)
Lemma tx_drain_suffix room :
  forall buf line, exists sent,
    buf = sent ++ snd (fst (tx_drain room buf line)).
Proof.
  induction room as [|room IH]; intros buf line.
  - exists []. destruct buf; reflexivity.
  - destruct buf as [|c buf]; simpl; [exists []; reflexivity|].
    destruct (IH buf (line ++ [c])) as (sent & H).
    exists (c :: sent). simpl. congruence.
Qed.

Lemma tx_drain_empty room line :
  tx_drain room [] line = (room, [], line).
Proof. destruct room; reflexivity. Qed.

Lemma tx_irq_frame u :
  _rxbuf (tx_irq u) = _rxbuf u /\
  _blocking (tx_irq u) = _blocking u /\
  _rx_irq_enabled (tx_irq u) = _rx_irq_enabled u /\
  _dcd_irq (tx_irq u) = _dcd_irq u /\
  rx_fifo (serial (tx_irq u)) = rx_fifo (serial u) /\
  _txbuf (tx_irq u)
  = snd (fst (tx_drain (tx_room (serial u)) (_txbuf u) (tx_line (serial u)))) /\
  tx_line (serial (tx_irq u))
  = snd (tx_drain (tx_room (serial u)) (_txbuf u) (tx_line (serial u))) /\
  _tx_irq_enabled (tx_irq u)
  = _tx_irq_enabled u && negb (empty (_txbuf (tx_irq u))).
Proof.
  unfold tx_irq. cbv zeta.
  set (r := tx_drain (tx_room (serial u)) (_txbuf u) (tx_line (serial u))).
  destruct (_tx_irq_enabled u) eqn:Ei;
    destruct (empty (snd (fst r))) eqn:Ef;
    simpl; rewrite ?Ei, ?Ef; simpl;
    match goal with
    | |- context [if ?c then _ else _] => destruct c
    end;
    autorewrite with uart; simpl; rewrite ?Ei, ?Ef; repeat split.
Qed.

Lemma tx_irq_stream u : tx_stream (tx_irq u) = tx_stream u.
Proof.
  unfold tx_stream.
  destruct (tx_irq_frame u) as (_ & _ & _ & _ & _ & -> & -> & _).
  apply tx_drain_stream.
Qed.

Lemma run_env_event_frame e u :
  _blocking (run_env_event e u) = _blocking u /\
  tx_stream (run_env_event e u) = tx_stream u.
Proof.
  destruct e; simpl.
  - split; reflexivity.
  - split; reflexivity.
  - destruct (_rx_irq_enabled u); [|split; reflexivity].
    destruct (rx_irq_frame u) as (Ht & Hb & _ & _ & Hl & _).
    unfold tx_stream. rewrite Ht, Hb, Hl. split; reflexivity.
  - destruct (_tx_irq_enabled u); [|split; reflexivity].
    split; [apply tx_irq_frame | apply tx_irq_stream].
  - destruct (_dcd_irq u) as [d|]; [|split; reflexivity].
    unfold dcd_irq, tx_stream.
    destruct (irq_edge d);
      match goal with
      | |- context [if ?c then _ else _] => destruct c
      end; autorewrite with uart; split; reflexivity.
Qed.

Lemma run_env_frame w :
  forall u,
    _blocking (run_env w u) = _blocking u /\
    tx_stream (run_env w u) = tx_stream u.
Proof.
  induction w as [|e w IH]; intros u; simpl; [split; reflexivity|].
  destruct (IH (run_env_event e u)) as (-> & ->).
  apply run_env_event_frame.
Qed.

(** *** [read] *)

Lemma rx_drain_spec length :
  forall buf, rx_drain length buf = (firstn length buf, skipn length buf).
Proof.
  induction length as [|n IH]; intros buf; simpl; [reflexivity|].
  destruct buf as [|c buf]; [reflexivity|].
  rewrite IH. reflexivity.
Qed.

Lemma after_waits_cons k w rest u :
  after_waits (S k) (w :: rest) u = after_waits k rest (run_env w u).
Proof. reflexivity. Qed.

Lemma after_waits_nil k u : after_waits k [] u = u.
Proof. unfold after_waits. rewrite firstn_nil. reflexivity. Qed.

Lemma read_wait_spec sched :
  forall u,
    _rxbuf u <> [] \/ _blocking u = true ->
    (read_wait sched u = Blocked /\
     _blocking u = true /\
     forall k, _rxbuf (after_waits k sched u) = [])
    \/
    (exists k,
        (k <= length sched)%nat /\
        (forall j, (j < k)%nat -> _rxbuf (after_waits j sched u) = []) /\
        _rxbuf (after_waits k sched u) <> [] /\
        read_wait sched u = Returned (true, after_waits k sched u)).
Proof.
  induction sched as [|w rest IH]; intros u H.
  - simpl. destruct (_rxbuf u) as [|c b] eqn:E.
    + destruct H as [H|H]; [congruence|].
      left. unfold empty. rewrite H. simpl. repeat split.
      intros k. rewrite after_waits_nil. exact E.
    + right. exists O. unfold empty, after_waits. simpl. rewrite E.
      repeat split; [lia | intros j Hj; lia | discriminate].
  - destruct (_rxbuf u) as [|c b] eqn:E.
    + destruct H as [H|H]; [congruence|].
      assert (Hb : _blocking (run_env w u) = true)
        by (rewrite (proj1 (run_env_frame w u)); exact H).
      simpl. unfold empty at 1. rewrite E, H. simpl.
      destruct (IH (run_env w u) (or_intror Hb)) as [(Hr & _ & Hall)|(k & Hk & Hlt & Hne & Hr)].
      * left. repeat split; [exact Hr|].
        intros [|k]; [exact E | rewrite after_waits_cons; apply Hall].
      * right. exists (S k). rewrite after_waits_cons.
        repeat split; [simpl; lia | | exact Hne | exact Hr].
        intros [|j] Hj; [exact E|].
        rewrite after_waits_cons. apply Hlt. lia.
    + right. exists O. simpl. unfold empty, after_waits. simpl. rewrite E.
      repeat split; [lia | intros j Hj; lia | discriminate].
Qed.

(** C2.  [read(buf, 0)] returns 0 and changes nothing.  With the RX ring
    empty on a non-blocking endpoint, [read] returns [-EAGAIN] and changes
    nothing.  Otherwise [read] waits until the ring is non-empty (for
    ever, when the schedule never brings data); from the ring [b] it then
    finds, it stores the first [min length |b|] bytes of [b], in order,
    returns that count, which is at least 1, and leaves the rest of [b]
    in the ring, followed by whatever the re-primed RX handler took from
    the peripheral, which is nothing when the RX interrupt was
    enabled. *)
Theorem read_spec :
  forall (length : nat) (sched : list (list env_event)) (u : UARTSerial),
    read 0 sched u = Returned (0, [], u) /\
    (length <> O -> _rxbuf u = [] -> _blocking u = false ->
     read length sched u = Returned (- EAGAIN, [], u)) /\
    (length <> O -> _rxbuf u <> [] \/ _blocking u = true ->
     (read length sched u = Blocked /\
      _blocking u = true /\
      forall k, _rxbuf (after_waits k sched u) = [])
     \/
     (exists k u',
         (k <= List.length sched)%nat /\
         (forall j, (j < k)%nat -> _rxbuf (after_waits j sched u) = []) /\
         let b := _rxbuf (after_waits k sched u) in
         b <> [] /\
         read length sched u
         = Returned (Z.of_nat (Nat.min length (List.length b)),
                     firstn length b, u') /\
         1 <= Z.of_nat (Nat.min length (List.length b)) /\
         exists extra,
           _rxbuf u' = skipn length b ++ extra /\
           (_rx_irq_enabled (after_waits k sched u) = true -> extra = []))).
Proof.
  intros length sched u. split; [reflexivity|]. split.
  - intros Hl He Hb. destruct length as [|n]; [congruence|].
    unfold read. destruct sched; simpl; unfold empty; rewrite He, Hb; reflexivity.
  - intros Hl H. destruct length as [|n]; [congruence|].
    destruct (read_wait_spec sched u H) as [(Hr & Hb & Hall)|(k & Hk & Hlt & Hne & Hr)].
    + left. unfold read. rewrite Hr. repeat split; assumption.
    + right. remember (after_waits k sched u) as u1 eqn:Hu1.
      unfold read. rewrite Hr. unfold obind. cbv beta iota zeta.
      cbn [fst snd]. rewrite rx_drain_spec. cbn [fst snd].
      eexists k, _. rewrite <- Hu1.
      repeat split; [exact Hk | exact Hlt | exact Hne | | |].
      * rewrite length_firstn. reflexivity.
      * destruct (_rxbuf u1); [congruence|]. simpl. lia.
      * destruct (_rx_irq_enabled u1) eqn:Ei; simpl; rewrite Ei; simpl.
        -- exists []. rewrite app_nil_r. split; reflexivity.
        -- match goal with
           | |- context [rx_irq ?v] =>
               destruct (rx_irq_frame v) as (_ & _ & _ & _ & _ & Hrx & _);
               destruct (rx_fill_app (rx_fifo (serial v)) (_rxbuf v))
                 as (extra & Hx & _);
               exists extra; split; [|discriminate];
               destruct (full RXBUF_SIZE (_rxbuf (rx_irq v))); simpl;
               rewrite Hrx, Hx; reflexivity
           end.
Qed.

(** *** [write] *)

Lemma full_length b : full TXBUF_SIZE b = true <-> List.length b = TXBUF_SIZE.
Proof. unfold full. apply Nat.eqb_eq. Qed.

(** The inner loop pushes a prefix of the source, and stops early only on
    a full ring; from a ring with room it pushes at least one byte. *)
Lemma tx_fill_spec src :
  forall buf, exists pushed,
    src = pushed ++ fst (tx_fill src buf) /\
    snd (tx_fill src buf) = buf ++ pushed /\
    (fst (tx_fill src buf) <> [] -> full TXBUF_SIZE (snd (tx_fill src buf)) = true) /\
    (full TXBUF_SIZE buf = false -> src <> [] -> pushed <> []).
Proof.
  induction src as [|c src IH]; intros buf; simpl.
  - exists []. simpl. rewrite app_nil_r. repeat split; intros; congruence.
  - destruct (full TXBUF_SIZE buf) eqn:E.
    + exists []. simpl. rewrite app_nil_r. repeat split; intros; congruence.
    + destruct (IH (push c buf)) as (pushed & H1 & H2 & H3 & _).
      exists (c :: pushed). unfold push in *.
      repeat split; [simpl; congruence | | exact H3 | discriminate].
      rewrite H2, <- app_assoc. reflexivity.
Qed.





(** *** ISR state consistency *)

Lemma empty_nil (b : list Byte.byte) : empty b = true <-> b = [].
Proof. destruct b; unfold empty; split; congruence. Qed.

Lemma rx_irq_consistent u : isr_consistent u -> isr_consistent (rx_irq u).
Proof.
  intros (Hrx & Htx0 & Htx1).
  destruct (rx_irq_frame u) as (Ht & _ & Hti & _ & _ & Hr & Hri).
  unfold isr_consistent. rewrite Ht, Hti. repeat split; try assumption.
  intros Hoff. rewrite Hri in Hoff.
  destruct (_rx_irq_enabled u) eqn:Ei; simpl in Hoff.
  - apply negb_false_iff in Hoff. exact Hoff.
  - rewrite Hr, rx_fill_full by auto. simpl. auto.
Qed.

Lemma tx_irq_consistent u : isr_consistent u -> isr_consistent (tx_irq u).
Proof.
  intros (Hrx & Htx0 & Htx1).
  destruct (tx_irq_frame u) as (Hr & _ & Hri & _ & _ & Ht & _ & Hti).
  unfold isr_consistent. rewrite Hr, Hri. repeat split; try assumption.
  - intros Hoff. rewrite Hti in Hoff.
    destruct (_tx_irq_enabled u) eqn:Ei; simpl in Hoff.
    + apply negb_false_iff in Hoff. apply empty_nil. exact Hoff.
    + rewrite Ht, Htx0, tx_drain_empty by reflexivity. reflexivity.
  - intros Hon. rewrite Hti in Hon.
    apply andb_true_iff in Hon as [_ Hon].
    apply negb_true_iff in Hon. intros Hnil.
    rewrite Hnil in Hon. discriminate.
Qed.

Lemma run_env_event_consistent e u :
  isr_consistent u -> isr_consistent (run_env_event e u).
Proof.
  intros H. destruct e; simpl.
  - exact H.
  - exact H.
  - destruct (_rx_irq_enabled u); [apply rx_irq_consistent|]; exact H.
  - destruct (_tx_irq_enabled u); [apply tx_irq_consistent|]; exact H.
  - destruct (_dcd_irq u) as [d|]; [|exact H].
    unfold dcd_irq, isr_consistent in *.
    destruct (irq_edge d);
      match goal with
      | |- context [if ?c then _ else _] => destruct c
      end; autorewrite with uart; exact H.
Qed.

Lemma run_env_consistent w :
  forall u, isr_consistent u -> isr_consistent (run_env w u).
Proof.
  induction w as [|e w IH]; intros u H; simpl; [exact H|].
  apply IH, run_env_event_consistent, H.
Qed.

Lemma read_wait_consistent sched :
  forall u r,
    isr_consistent u -> read_wait sched u = Returned r ->
    isr_consistent (snd r).
Proof.
  induction sched as [|w rest IH]; intros u r H Hr; simpl in Hr.
  - destruct (empty (_rxbuf u)); [destruct (negb (_blocking u))|];
      try discriminate; injection Hr as <-; exact H.
  - destruct (empty (_rxbuf u)); [destruct (negb (_blocking u))|];
      try (injection Hr as <-; exact H).
    eapply IH; [|exact Hr]. apply run_env_consistent, H.
Qed.

Lemma tx_wait_consistent sched :
  forall u r,
    isr_consistent u -> tx_wait sched u = Returned r ->
    isr_consistent (snd r).
Proof.
  induction sched as [|w rest IH]; intros u r H Hr; cbn [tx_wait] in Hr;
    [discriminate|]. cbv zeta in Hr.
  destruct (notified _cv_tx u (run_env w u));
    [destruct (full TXBUF_SIZE (_txbuf (run_env w u)))|].
  - eapply IH; [|exact Hr]. apply run_env_consistent, H.
  - injection Hr as <-. apply run_env_consistent, H.
  - eapply IH; [|exact Hr]. apply run_env_consistent, H.
Qed.

Lemma tx_kick_consistent v :
  (_rx_irq_enabled v = false -> full RXBUF_SIZE (_rxbuf v) = true) ->
  (_tx_irq_enabled v = true -> _txbuf v <> []) ->
  isr_consistent (tx_kick v).
Proof.
  intros Hrx Hon. unfold tx_kick.
  destruct (_tx_irq_enabled v) eqn:Ei; simpl.
  - repeat split; [exact Hrx | congruence | auto].
  - destruct (tx_irq_frame v) as (Hr & _ & Hri & _ & _ & _ & _ & Hti).
    rewrite Ei in Hti. simpl in Hti.
    destruct (empty (_txbuf (tx_irq v))) eqn:Ee; simpl.
    + unfold isr_consistent. rewrite Hr, Hri, Hti.
      repeat split; [exact Hrx | | discriminate].
      intros _. apply empty_nil, Ee.
    + unfold isr_consistent. simpl. rewrite Hr, Hri.
      repeat split; [exact Hrx | discriminate |].
      intros _ Hnil. rewrite Hnil in Ee. discriminate.
Qed.

Lemma write_loop_consistent fuel :
  forall src n sched u r,
    isr_consistent u ->
    write_loop fuel src n sched u = Returned r ->
    isr_consistent (snd r).
Proof.
  induction fuel as [|fuel IH]; intros src n sched u r H Hr.
  - destruct src; simpl in Hr; [|discriminate].
    injection Hr as <-. exact H.
  - destruct src as [|c src'].
    { simpl in Hr. injection Hr as <-. exact H. }
    assert (Hbody : forall sched1 u1 r1,
               isr_consistent u1 ->
               (let r := tx_fill (c :: src') (_txbuf u1) in
                write_loop fuel (fst r)
                  (n + (List.length (c :: src') - List.length (fst r)))%nat
                  sched1 (tx_kick (set_txbuf (snd r) u1))) = Returned r1 ->
               isr_consistent (snd r1)).
    { intros sched1 u1 r1 (Hrx & Htx0 & Htx1) Hr1. cbv zeta in Hr1.
      eapply IH; [|exact Hr1].
      apply tx_kick_consistent;
        cbn [_rx_irq_enabled _rxbuf _tx_irq_enabled _txbuf set_txbuf];
        [exact Hrx|].
      intros Hon.
      destruct (tx_fill_spec (c :: src') (_txbuf u1)) as (pushed & _ & -> & _).
      intros Happ. apply app_eq_nil in Happ as [Hnil _].
      exact (Htx1 Hon Hnil). }
    cbn [write_loop] in Hr. cbv zeta in Hr.
    destruct (full TXBUF_SIZE (_txbuf u)).
    + destruct (negb (_blocking u)).
      * injection Hr as <-. exact H.
      * destruct (tx_wait sched u) as [[rest u1]| | |] eqn:Ew;
          simpl in Hr; try discriminate.
        eapply Hbody; [|exact Hr].
        apply (tx_wait_consistent _ _ _ H Ew).
    + eapply Hbody; [exact H | exact Hr].
Qed.

(** C8.  ISR state consistency holds after construction and is kept by
    [rx_irq] and [tx_irq] as interrupt handlers, by everything that
    happens while a caller is suspended, and by [read] and [write] at
    every return: with the RX-ISR-enabled flag false the RX ring is full,
    with the TX-ISR-enabled flag false the TX ring is empty, and with the
    TX-ISR-enabled flag true the TX ring is non-empty. *)
Theorem isr_state_consistency :
  (forall hw, isr_consistent (UARTSerial_ctor hw)) /\
  (forall u, isr_consistent u -> isr_consistent (rx_irq u)) /\
  (forall u, isr_consistent u -> isr_consistent (tx_irq u)) /\
  (forall w u, isr_consistent u -> isr_consistent (run_env w u)) /\
  (forall length sched u ret data u',
      isr_consistent u ->
      read length sched u = Returned (ret, data, u') ->
      isr_consistent u') /\
  (forall buffer sched u ret u',
      isr_consistent u ->
      write buffer sched u = Returned (ret, u') ->
      isr_consistent u').
Proof.
  split; [|split; [|split; [|split; [|split]]]].
  - intros hw. unfold isr_consistent. simpl.
    repeat split; intros; congruence.
  - exact rx_irq_consistent.
  - exact tx_irq_consistent.
  - exact run_env_consistent.
  - intros length sched u ret data u' H Hr.
    destruct length as [|n]; [simpl in Hr; injection Hr as _ _ <-; exact H|].
    unfold read in Hr.
    destruct (read_wait sched u) as [[b u1]| | |] eqn:Ew;
      try discriminate.
    pose proof (read_wait_consistent _ _ _ H Ew) as (Hrx & Htx0 & Htx1).
    unfold obind in Hr. cbv beta iota zeta in Hr. cbn [fst snd] in *.
    destruct b; [|injection Hr as _ _ <-; repeat split; assumption].
    injection Hr as _ _ <-.
    destruct (_rx_irq_enabled u1) eqn:Ei; cbn [negb].
    + unfold isr_consistent.
      cbn [_rx_irq_enabled _tx_irq_enabled _rxbuf _txbuf set_rxbuf].
      repeat split; [congruence | exact Htx0 | exact Htx1].
    + match goal with
      | |- context [rx_irq ?x] => set (v := x)
      end.
      assert (Hv : _rx_irq_enabled v = false) by exact Ei.
      destruct (rx_irq_frame v) as (Ht & _ & Hti & _ & _ & _ & Hri).
      rewrite Hv in Hri. simpl in Hri.
      destruct (full RXBUF_SIZE (_rxbuf (rx_irq v))) eqn:Ef; cbn [negb];
        unfold isr_consistent;
        cbn [_rx_irq_enabled _tx_irq_enabled _rxbuf _txbuf set_rx_irq_enabled];
        rewrite ?Ht, ?Hti;
        repeat split; try assumption; try discriminate.
      intros _. exact Ef.
  - intros buffer sched u ret u' H Hr.
    destruct buffer as [|c b]; [simpl in Hr; injection Hr as _ <-; exact H|].
    unfold write in Hr.
    destruct (write_loop _ (c :: b) 0 sched u) as [r| | |] eqn:El;
      try discriminate.
    simpl in Hr. injection Hr as _ <-.
    apply (write_loop_consistent _ _ _ _ _ _ H El).
Qed.

(** *** Release of suspended callers

    A suspended [read] is released by one received byte.  A suspended
    [write] is released when [tx_irq] takes a byte from the full ring,
    unless the line is hung up at that moment: then [tx_irq] makes room
    without notifying [_cv_tx]. *)

Lemma run_env_app w1 w2 u : run_env (w1 ++ w2) u = run_env w2 (run_env w1 u).
Proof. unfold run_env. apply fold_left_app. Qed.

Lemma after_waits_all_consistent sched :
  forall u, isr_consistent u ->
            isr_consistent (after_waits (List.length sched) sched u).
Proof.
  induction sched as [|w rest IH]; intros u H; [exact H|].
  cbn [List.length]. rewrite after_waits_cons.
  apply IH, run_env_consistent, H.
Qed.

Lemma read_wait_returned_app sched more :
  forall u r,
    read_wait sched u = Returned r -> read_wait (sched ++ more) u = Returned r.
Proof.
  induction sched as [|w rest IH]; intros u r Hr; simpl in *.
  - destruct (empty (_rxbuf u)) eqn:E1; [destruct (negb (_blocking u)) eqn:E2|];
      try discriminate; destruct more; simpl; rewrite E1, ?E2; exact Hr.
  - destruct (empty (_rxbuf u)); [destruct (negb (_blocking u))|];
      try exact Hr.
    apply IH, Hr.
Qed.

Lemma read_wait_blocked_app sched more :
  forall u,
    read_wait sched u = Blocked ->
    read_wait (sched ++ more) u
    = read_wait more (after_waits (List.length sched) sched u).
Proof.
  induction sched as [|w rest IH]; intros u Hr; [reflexivity|].
  simpl in Hr. cbn [List.length]. rewrite after_waits_cons, <- app_comm_cons.
  cbn [read_wait].
  destruct (empty (_rxbuf u)); [destruct (negb (_blocking u))|];
    try discriminate.
  apply IH, Hr.
Qed.

(** The RX handler, attached, turns a received byte into a non-empty ring. *)
Lemma rx_byte_fills c u :
  (0 < RXBUF_SIZE)%nat -> isr_consistent u -> _rxbuf u = [] ->
  _rxbuf (run_env [HwReceive [c]; IrqRx] u) <> [].
Proof.
  intros HN (Hrx & _) He. simpl.
  destruct (_rx_irq_enabled u) eqn:Ei.
  - match goal with
    | |- context [rx_irq ?v] =>
        destruct (rx_irq_frame v) as (_ & _ & _ & _ & _ & -> & _)
    end.
    simpl. rewrite He.
    assert (Hnf : full RXBUF_SIZE [] = false)
      by (unfold full; apply Nat.eqb_neq; simpl; lia).
    destruct (rx_fifo (serial u) ++ [c]) as [|c0 fifo] eqn:Ef.
    { apply app_eq_nil in Ef as [_ Ef]. discriminate. }
    cbn [rx_fill]. rewrite Hnf.
    destruct (rx_fill_app fifo (push c0 [])) as (extra & -> & _).
    unfold push. simpl. discriminate.
  - specialize (Hrx eq_refl). rewrite He in Hrx. unfold full in Hrx.
    apply Nat.eqb_eq in Hrx. simpl in Hrx. lia.
Qed.

Lemma read_can_complete length sched u :
  (0 < RXBUF_SIZE)%nat -> isr_consistent u -> _blocking u = true ->
  exists more r, read length (sched ++ more) u = Returned r.
Proof.
  intros HN Hc Hb. destruct length as [|n]; [eexists [], _; reflexivity|].
  assert (Hfin : forall s r0,
             read_wait s u = Returned r0 ->
             exists r, read (S n) s u = Returned r).
  { intros s r0 Hr. unfold read. rewrite Hr. cbn [obind].
    destruct (fst r0); eexists; reflexivity. }
  destruct (read_wait_spec sched u (or_intror Hb))
    as [(Hr & _ & Hall)|(k & _ & _ & _ & Hr)].
  - remember (after_waits (List.length sched) sched u) as uE eqn:HuE.
    assert (HcE : isr_consistent uE)
      by (subst uE; apply after_waits_all_consistent, Hc).
    assert (HeE : _rxbuf uE = []) by (subst uE; apply Hall).
    assert (HbE : _blocking uE = true).
    { subst uE. unfold after_waits. clear -Hb.
      revert u Hb. induction (firstn _ sched) as [|w l IH]; intros u Hb;
        [exact Hb|].
      simpl. apply IH. rewrite (proj1 (run_env_frame w u)). exact Hb. }
    pose proof (rx_byte_fills Byte.x00 uE HN HcE HeE) as Hne.
    exists [[HwReceive [Byte.x00]; IrqRx]].
    apply (Hfin _ (true, run_env [HwReceive [Byte.x00]; IrqRx] uE)).
    rewrite (read_wait_blocked_app _ _ _ Hr), <- HuE. cbn [read_wait].
    rewrite HeE, HbE. unfold empty at 1. cbn [negb].
    destruct (_rxbuf (run_env _ uE)); [congruence | reflexivity].
  - exists []. apply (Hfin _ (true, after_waits k sched u)).
    apply read_wait_returned_app, Hr.
Qed.















Lemma line_takes_low rooms : dcd_stays_low (line_takes rooms).
Proof.
  induction rooms as [|n rooms IH]; [constructor|].
  constructor; [|exact IH].
  constructor; [discriminate|]. constructor; [discriminate|]. constructor.
Qed.





End Endpoint.

(** *** The theorems at work on 4-byte rings *)

#[local] Existing Instance mbed_poll_h.
#[local] Existing Instance small_uart_config.

Import Scenarios.

Lemma fresh_consistent : isr_consistent fresh.
Proof. unfold isr_consistent. simpl. repeat split; intros; congruence. Qed.

Lemma tx_full_consistent : isr_consistent tx_full.
Proof. unfold isr_consistent. simpl. repeat split; intros; congruence. Qed.

(** A non-blocking read of the empty ring; a blocking read released by the
    RX interrupt. *)
Lemma read_spec_witness :
  read 1 [] (set_blocking false fresh)
  = Returned (- EAGAIN, [], set_blocking false fresh) /\
  exists k u',
    (k <= 1)%nat /\
    read 1 [rx_0x41] fresh
    = Returned
        (Z.of_nat (Nat.min 1 (List.length (_rxbuf (after_waits k [rx_0x41] fresh)))),
         firstn 1 (_rxbuf (after_waits k [rx_0x41] fresh)), u').
Proof.
  split.
  - apply (proj1 (proj2 (read_spec 1 [] (set_blocking false fresh))));
      [discriminate | reflexivity | reflexivity].
  - destruct (proj2 (proj2 (read_spec 1 [rx_0x41] fresh))
                ltac:(discriminate) (or_intror eq_refl))
      as [(Hb & _)|(k & u' & Hk & _ & _ & Hr & _)].
    + vm_compute in Hb. discriminate Hb.
    + exists k, u'. split; [exact Hk | exact Hr].
Defined.


Lemma isr_state_consistency_witness :
  isr_consistent (rx_irq (run_env [HwReceive [Byte.x41]] fresh)) /\
  isr_consistent (tx_irq (run_env [HwTxRoom 4] tx_full)) /\
  isr_consistent (run_env (tx_one ++ rx_0x41) tx_full) /\
  (exists ret data u',
      read 1 [rx_0x41] fresh = Returned (ret, data, u') /\ isr_consistent u') /\
  (exists ret u',
      write [Byte.x58] [tx_one] tx_full = Returned (ret, u') /\
      isr_consistent u').
Proof.
  pose proof (isr_state_consistency (PE := mbed_poll_h) (UC := small_uart_config))
    as (_ & Hrx & Htx & Henv & Hread & Hwrite).
  split; [|split; [|split; [|split]]].
  - apply Hrx. apply Henv. exact fresh_consistent.
  - apply Htx. apply Henv. exact tx_full_consistent.
  - apply Henv. exact tx_full_consistent.
  - eexists _, _, _. split; [vm_compute; reflexivity|].
    eapply (Hread 1%nat [rx_0x41] fresh); [exact fresh_consistent|].
    vm_compute. reflexivity.
  - eexists _, _. split; [vm_compute; reflexivity|].
    eapply (Hwrite [Byte.x58] [tx_one] tx_full); [exact tx_full_consistent|].
    vm_compute. reflexivity.
Defined.

End UART_Facts.

(** ** The poll multiplexer *)

Module MbedPoll_Facts.
Import MbedPoll.

Section Poll.

Context {PE : PollEvents}.
Variable world : Type.
Variable platform : Platform world.

Lemma subset_of_land x m : subset_of (Z.land x m) m.
Proof. unfold subset_of. rewrite <- Z.land_assoc, Z.land_diag. reflexivity. Qed.

Lemma subset_of_lor_r x m : subset_of x (Z.lor m x).
Proof.
  unfold subset_of. apply Z.bits_inj'. intros n _.
  rewrite Z.land_spec, Z.lor_spec.
  destruct (Z.testbit x n), (Z.testbit m n); reflexivity.
Qed.

Lemma ready_nonneg (fhs : list (pollfh world)) : 0 <= ready world fhs.
Proof.
  induction fhs as [|p fhs IH]; simpl; [lia|].
  destruct (revents world p =? 0); lia.
Qed.

Lemma scan_one_spec p timeout count all w :
  let rv := fst (fst (scan_one world p timeout count all w)) in
  subset_of rv (mask_of world p) /\
  (fh world p = None -> rv = POLLNVAL).
Proof.
  unfold scan_one. destruct (fh world p) as [h|]; simpl.
  - split; [|discriminate].
    destruct all; simpl.
    + destruct (Z.land (Z.land _ _) POLLNVAL =? 0); simpl;
        apply subset_of_land.
    + apply subset_of_land.
  - split; [|reflexivity]. unfold mask_of. apply subset_of_lor_r.
Qed.

Lemma scan_spec fhs :
  forall timeout count all w,
    let s := scan world fhs timeout count all w in
    scanned world fhs (fst (fst (fst s))) /\
    snd (fst (fst s)) = count + ready world (fst (fst (fst s))).
Proof.
  induction fhs as [|p fhs IH]; intros timeout count all w.
  - simpl. split; [|lia]. repeat split; constructor.
  - cbn [scan]. cbv zeta. cbn [fst snd].
    destruct (scan_one_spec p timeout count all w) as (Hsub & Hnull).
    set (s1 := scan_one world p timeout count all w) in *.
    set (count1 := if fst (fst s1) =? 0 then count else count + 1).
    destruct (IH timeout count1 (snd (fst s1)) (snd s1))
      as ((Hfh & Hev & Hn & Hs) & Hc).
    split.
    + repeat split; simpl.
      * f_equal. exact Hfh.
      * f_equal. exact Hev.
      * constructor; [exact Hnull | exact Hn].
      * constructor; [exact Hsub | exact Hs].
    + rewrite Hc. cbn [ready revents]. subst count1.
      destruct (fst (fst s1) =? 0); lia.
Qed.

Lemma scanned_trans a b c :
  scanned world a b -> scanned world b c -> scanned world a c.
Proof.
  intros (H1 & H2 & _ & _) (H3 & H4 & H5 & H6).
  repeat split; try assumption; congruence.
Qed.

Lemma poll_loop_spec fuel :
  forall fhs timeout finish_time all w ns nsu r,
    poll_loop world platform fuel fhs timeout finish_time 0 all w ns nsu
    = Returned r ->
    scanned world fhs (out world r) /\ ret world r = ready world (out world r).
Proof.
  induction fuel as [|fuel IH];
    intros fhs timeout finish_time all w ns nsu r Hr; [discriminate|].
  cbn [poll_loop] in Hr. cbv zeta in Hr.
  destruct (scan_spec fhs timeout 0 all w) as (Hsc & Hc).
  set (s := scan world fhs timeout 0 all w) in *.
  rewrite Z.add_0_l in Hc.
  pose proof (ready_nonneg (fst (fst (fst s)))) as Hnn.
  destruct ((0 <? snd (fst (fst s))) || (timeout =? 0)) eqn:Estop.
  { injection Hr as <-. simpl. split; assumption. }
  apply orb_false_iff in Estop as [Ecount _].
  apply Z.ltb_ge in Ecount.
  assert (H0 : snd (fst (fst s)) = 0) by lia.
  rewrite H0 in Hr.
  destruct (snd (fst s)).
  - destruct (if 0 <? timeout then _ else _) as [[timed_out w']| | |];
      simpl in Hr; try discriminate.
    destruct timed_out; apply IH in Hr; destruct Hr as (Hsc' & Hret);
      (split; [exact (scanned_trans _ _ _ Hsc Hsc') | exact Hret]).
  - destruct ((0 <? timeout) && _).
    + injection Hr as <-. simpl. split; [exact Hsc | lia].
    + apply IH in Hr. destruct Hr as (Hsc' & Hret).
      split; [exact (scanned_trans _ _ _ Hsc Hsc') | exact Hret].
Qed.

(** C7.  With a timeout of 0, [poll] returns after exactly one scan and
    without calling any suspending primitive.  Whenever [poll] returns,
    the array has the same handles and requested events as on entry;
    every entry with a null handle has [revents = POLLNVAL]; every
    entry's [revents] lies within its requested events together with
    POLLERR, POLLHUP and POLLNVAL; and the value returned is the number of
    entries with a non-zero [revents]. *)
Theorem poll_multiplexer_spec :
  (forall fuel fhs w,
      exists r,
        poll world platform (S fuel) fhs 0 w = Returned r /\
        scans world r = 1%nat /\ suspensions world r = 0%nat) /\
  (forall fuel fhs timeout w r,
      poll world platform fuel fhs timeout w = Returned r ->
      map (fh world) (out world r) = map (fh world) fhs /\
      map (events world) (out world r) = map (events world) fhs /\
      Forall (fun p => fh world p = None -> revents world p = POLLNVAL)
             (out world r) /\
      Forall (fun p => subset_of (revents world p)
                         (Z.lor (Z.lor (Z.lor (events world p) POLLERR)
                                   POLLHUP) POLLNVAL))
             (out world r) /\
      ret world r = ready world (out world r)).
Proof.
  split.
  - intros fuel fhs w. unfold poll. cbn [poll_loop]. cbv zeta.
    rewrite Z.eqb_refl, orb_true_r.
    eexists. repeat split.
  - intros fuel fhs timeout w r Hr. unfold poll in Hr.
    apply poll_loop_spec in Hr as ((H1 & H2 & H3 & H4) & H5).
    repeat split; assumption.
Qed.

End Poll.

(** Two endpoints polled for input with a timeout of one second; B
    receives a byte while the caller is suspended. *)
Lemma poll_multiplexer_spec_witness :
  exists r,
    poll (PE := mbed_poll_h) _ Scenarios.b_receives 5 Scenarios.both_for_input
      1000 (Scenarios.fresh, Scenarios.fresh) = Returned r /\
    Scenarios.poll_view (Returned r) = Returned (1, [0; 0x0001], 2%nat, 1%nat) /\
    ret _ r = ready _ (out _ r).
Proof.
  eexists. split; [vm_compute; reflexivity|]. split; [vm_compute; reflexivity|].
  eapply (proj2 (poll_multiplexer_spec (PE := mbed_poll_h) _ Scenarios.b_receives)
            5%nat Scenarios.both_for_input 1000 (Scenarios.fresh, Scenarios.fresh)).
  vm_compute. reflexivity.
Defined.

End MbedPoll_Facts.

(** ** Bare-metal condition variable: [wait], finite [wait_for], [wait_until] *)

Module CSCV_BareMetal_Waits_Facts.
Import CSCV_BareMetal CSCV_BareMetal_Waits.

(** With the timeout attached, [timed_out] is set by the timeout interrupt
    and by nothing else. *)
Lemma run_irqs_attached w cv timed_out :
  snd (run_irqs true w (cv, timed_out)) = timed_out || existsb is_timeout w.
Proof.
  revert cv timed_out.
  induction w as [|i w IH]; intros cv timed_out; simpl;
    [rewrite orb_false_r; reflexivity|].
  destruct i; simpl; rewrite IH; try reflexivity.
  destruct timed_out; reflexivity.
Qed.

(** The loop without a timeout attached and [timed_out] false. *)
Lemma wait_loop_unattached millisec sched :
  millisec <> 0 ->
  forall cv,
    _notified cv = false ->
    wait_loop millisec false sched cv false
    = if notify_in sched then Returned (false, {| _notified := true |})
      else Blocked.
Proof.
  intros Hm. apply Z.eqb_neq in Hm.
  induction sched as [|w rest IH]; intros cv Hn; simpl.
  - rewrite Hm. reflexivity.
  - pose proof (CSCV_BareMetal_Facts.run_irqs_notified_iff false w cv false Hn)
      as Hw.
    pose proof (CSCV_BareMetal_Facts.run_irqs_not_attached w cv false) as Ht.
    destruct (run_irqs false w (cv, false)) as [[n] t]. simpl in *. subst.
    unfold notify_in. simpl.
    destruct (existsb is_notify w); simpl; [reflexivity|].
    apply IH. reflexivity.
Qed.

(** X1.  Bare-metal [wait()] returns exactly when a handler that calls
    [notify_one] or [notify_all] runs in one of its passes, and leaves
    [_notified] set; the timeout interrupt, other interrupts and the end of
    the schedule never make it return. *)
Theorem wait_returns_iff_notified :
  forall (sched : list (list irq)) (cv : ConditionVariableCS),
    wait sched cv
    = if notify_in sched then Returned {| _notified := true |} else Blocked.
Proof.
  intros sched cv. unfold wait, wait_for.
  change (0xFFFFFFFF =? 0) with false.
  change ((0 <? 0xFFFFFFFF) && (0xFFFFFFFF <? 4294967295)) with false.
  cbv zeta.
  rewrite wait_loop_unattached by (reflexivity || discriminate).
  destruct (notify_in sched); reflexivity.
Qed.

(** The loop with the timeout attached. *)
Lemma wait_loop_attached millisec sched :
  millisec <> 0 ->
  forall cv,
    _notified cv = false ->
    wait_loop millisec true sched cv false
    = match find decisive sched with
      | Some w => Returned (negb (existsb is_notify w),
                            {| _notified := existsb is_notify w |})
      | None => Blocked
      end.
Proof.
  intros Hm. apply Z.eqb_neq in Hm.
  induction sched as [|w rest IH]; intros cv Hn; simpl.
  - rewrite Hm. reflexivity.
  - pose proof (CSCV_BareMetal_Facts.run_irqs_notified_iff true w cv false Hn)
      as Hw.
    pose proof (run_irqs_attached w cv false) as Ht.
    destruct (run_irqs true w (cv, false)) as [[n] t]. simpl in *. subst.
    unfold decisive.
    destruct (existsb is_notify w) eqn:En; simpl; [rewrite En; reflexivity|].
    destruct (existsb is_timeout w); simpl; [rewrite En; reflexivity|].
    apply IH. reflexivity.
Qed.

(** X2.  Bare-metal [wait_for] with a finite non-zero timeout is decided
    by the first pass in which a handler notifies or the timeout fires: it
    returns [false] when that pass holds a notification (also when the
    timeout fires in the same pass), [true] when it holds the timeout only,
    and it is still waiting when there is no such pass. *)
Theorem wait_for_finite_decided_by_first_event :
  forall (millisec : Z) (sched : list (list irq)) (cv : ConditionVariableCS),
    0 < millisec < 0xFFFFFFFF ->
    wait_for millisec sched cv
    = match find decisive sched with
      | Some w => Returned (negb (existsb is_notify w),
                            {| _notified := existsb is_notify w |})
      | None => Blocked
      end.
Proof.
  intros millisec sched cv [Hlo Hhi]. unfold wait_for.
  assert (E0 : (millisec =? 0) = false) by (apply Z.eqb_neq; lia).
  assert (E1 : (0 <? millisec) = true) by (apply Z.ltb_lt; lia).
  assert (E2 : (millisec <? 4294967295) = true) by (apply Z.ltb_lt; lia).
  rewrite E0, E1, E2. cbv zeta. simpl andb.
  apply wait_loop_attached; [lia | reflexivity].
Qed.

Lemma wait_for_finite_decided_by_first_event_witness :
  wait_for 50 [[IrqOther]; [IrqTimeout; IrqNotifyOne]; [IrqTimeout]]
    {| _notified := true |}
  = Returned (false, {| _notified := true |}) /\
  wait_for 50 [[IrqOther]; [IrqTimeout]; [IrqNotifyAll]] {| _notified := true |}
  = Returned (true, {| _notified := false |}).
Proof.
  split.
  - rewrite (wait_for_finite_decided_by_first_event 50
               [[IrqOther]; [IrqTimeout; IrqNotifyOne]; [IrqTimeout]]
               {| _notified := true |}) by lia.
    reflexivity.
  - rewrite (wait_for_finite_decided_by_first_event 50
               [[IrqOther]; [IrqTimeout]; [IrqNotifyAll]]
               {| _notified := true |}) by lia.
    reflexivity.
Defined.

(** X3.  [wait_until] hands [wait_for] the low 32 bits of the time left.
    With the deadline a multiple of 2^32 ms ahead it behaves as
    [wait_for(0)]: it makes one pass and, no handler notifying in that pass,
    reports a timeout although the deadline is not reached.  With the time
    left congruent to 2^32 - 1 it behaves as [wait()]: no timeout is
    attached and it returns only when notified. *)
Theorem wait_until_truncates_time_left :
  forall (end_time now : Z) (sched : list (list irq)) (cv : ConditionVariableCS),
    0 <= now < end_time -> end_time < 2 ^ 64 ->
    ((end_time - now) mod 2 ^ 32 = 0 ->
     wait_until end_time now sched cv
     = Returned (negb (existsb is_notify (hd [] sched)),
                 {| _notified := existsb is_notify (hd [] sched) |})) /\
    ((end_time - now) mod 2 ^ 32 = 2 ^ 32 - 1 ->
     wait_until end_time now sched cv
     = if notify_in sched then Returned (false, {| _notified := true |})
       else Blocked).
Proof.
  intros end_time now sched cv Hnow Hend. unfold wait_until.
  assert (E : (now >=? end_time) = false) by (rewrite Z.geb_leb; apply Z.leb_gt; lia).
  rewrite E, (Z.mod_small (end_time - now) (2 ^ 64)) by lia.
  split; intros ->.
  - apply CSCV_ZeroTimeout.bare_metal_poll.
  - unfold wait_for.
    change (2 ^ 32 - 1 =? 0) with false.
    change ((0 <? 2 ^ 32 - 1) && (2 ^ 32 - 1 <? 4294967295)) with false.
    cbv zeta.
    apply wait_loop_unattached; [discriminate | reflexivity].
Qed.

Lemma wait_until_truncates_time_left_witness :
  wait_until (1000 + 2 ^ 32) 1000 [[IrqOther]] {| _notified := false |}
  = Returned (true, {| _notified := false |}) /\
  wait_until (1000 + 2 ^ 32 - 1) 1000 [[IrqTimeout]; [IrqOther]]
    {| _notified := false |}
  = Blocked.
Proof.
  split.
  - apply (proj1 (wait_until_truncates_time_left (1000 + 2 ^ 32) 1000
                    [[IrqOther]] {| _notified := false |}
                    ltac:(lia) ltac:(lia))).
    reflexivity.
  - apply (proj2 (wait_until_truncates_time_left (1000 + 2 ^ 32 - 1) 1000
                    [[IrqTimeout]; [IrqOther]] {| _notified := false |}
                    ltac:(lia) ltac:(lia))).
    reflexivity.
Defined.

End CSCV_BareMetal_Waits_Facts.

(** ** RTOS condition variable: the list operations on well-formed lists *)

Module CSCV_RTOS_List_Facts.
Import CSCV_RTOS CSCV_RTOS_Check.

(** The checker is sound. *)
Lemma ptr_eqb_Some p a : ptr_eqb p (Some a) = true -> p = Some a.
Proof.
  destruct p as [b|]; simpl; [|discriminate].
  intros H. apply Nat.eqb_eq in H. congruence.
Qed.

Lemma chainb_sound m : forall l p n, chainb m p l n = true -> chain m p l n.
Proof.
  induction l as [|a l IH]; intros p n H; [exact I|].
  simpl in H. apply andb_true_iff in H as [H Hc].
  destruct (m !! a) as [w|] eqn:Hw; [|discriminate].
  apply andb_true_iff in H as [H Hn]. apply andb_true_iff in H as [Hi Hp].
  split; [|apply IH; exact Hc].
  exists w. split; [exact Hw|]. split; [exact Hi|].
  split; [apply ptr_eqb_Some, Hp | apply ptr_eqb_Some, Hn].
Qed.

Lemma linkedb_sound s l : linkedb s l = true -> linked s l.
Proof.
  unfold linkedb. intros H.
  apply andb_true_iff in H as [H Hall]. apply andb_true_iff in H as [H Hhead].
  apply andb_true_iff in H as [Hnd Hring].
  apply bool_decide_eq_true in Hnd, Hhead.
  split; [exact Hnd|]. split; [|split; [exact Hhead|]].
  - destruct l as [|a l]; [exact I|]. apply chainb_sound. exact Hring.
  - intros x w Hw Hi. rewrite forallb_forall in Hall.
    assert (Hx : In (x, w) (map_to_list (mem s))).
    { apply list_elem_of_In, elem_of_map_to_list. exact Hw. }
    specialize (Hall _ Hx). simpl in Hall. rewrite Hi in Hall. simpl in Hall.
    apply bool_decide_eq_true in Hall. exact Hall.
Qed.

Lemma three_linked_ok : linked three_linked [10; 20; 30]%nat.
Proof. apply linkedb_sound. vm_compute. reflexivity. Qed.

(** The thread id of a node is never written. *)
Lemma store_next_tid p v m m' x :
  store_next p v m = Returned m' -> tid <$> (m' !! x) = tid <$> (m !! x).
Proof.
  unfold store_next. destruct p as [a|]; simpl; [|discriminate].
  destruct (m !! a) as [w|] eqn:Hw; simpl; [|discriminate].
  intros H. injection H as <-.
  destruct (decide (x = a)) as [->|Hx].
  - rewrite lookup_insert_eq, Hw. reflexivity.
  - rewrite lookup_insert_ne by congruence. reflexivity.
Qed.

Lemma store_prev_tid p v m m' x :
  store_prev p v m = Returned m' -> tid <$> (m' !! x) = tid <$> (m !! x).
Proof.
  unfold store_prev. destruct p as [a|]; simpl; [|discriminate].
  destruct (m !! a) as [w|] eqn:Hw; simpl; [|discriminate].
  intros H. injection H as <-.
  destruct (decide (x = a)) as [->|Hx].
  - rewrite lookup_insert_eq, Hw. reflexivity.
  - rewrite lookup_insert_ne by congruence. reflexivity.
Qed.

Lemma store_in_list_tid p v m m' x :
  store_in_list p v m = Returned m' -> tid <$> (m' !! x) = tid <$> (m !! x).
Proof.
  unfold store_in_list. destruct p as [a|]; simpl; [|discriminate].
  destruct (m !! a) as [w|] eqn:Hw; simpl; [|discriminate].
  intros H. injection H as <-.
  destruct (decide (x = a)) as [->|Hx].
  - rewrite lookup_insert_eq, Hw. reflexivity.
  - rewrite lookup_insert_ne by congruence. reflexivity.
Qed.

Lemma add_wait_list_tid a s s' x :
  _add_wait_list a s = Returned s' ->
  tid <$> (mem s' !! x) = tid <$> (mem s !! x).
Proof.
  unfold _add_wait_list. intros H.
  destruct (_wait_list s) as [first|].
  - CSCV_RTOS_Facts.split_bind H. injection H as <-. simpl.
    erewrite store_in_list_tid by eassumption.
    erewrite store_next_tid by eassumption.
    erewrite store_prev_tid by eassumption.
    erewrite store_prev_tid by eassumption.
    erewrite store_next_tid by eassumption. reflexivity.
  - CSCV_RTOS_Facts.split_bind H. injection H as <-. simpl.
    erewrite store_in_list_tid by eassumption.
    erewrite store_prev_tid by eassumption.
    erewrite store_next_tid by eassumption. reflexivity.
Qed.

Lemma remove_wait_list_result a s s' :
  _remove_wait_list a s = Returned s' ->
  (forall x, tid <$> (mem s' !! x) = tid <$> (mem s !! x)) /\
  exists w, mem s' !! a = Some w /\ cleared w.
Proof.
  unfold _remove_wait_list. intros H.
  CSCV_RTOS_Facts.split_bind H. injection H as <-. simpl. split.
  - intros x.
    erewrite store_in_list_tid by eassumption.
    erewrite store_prev_tid by eassumption.
    erewrite store_next_tid by eassumption.
    erewrite store_prev_tid by eassumption.
    erewrite store_next_tid by eassumption. reflexivity.
  - repeat match goal with
           | E : store_next (Some a) None ?m = Returned ?m' |- _ =>
               unfold store_next in E; simpl in E;
               destruct (m !! a) eqn:?; simpl in E; [|discriminate E];
               injection E as <-
           | E : store_prev (Some a) None ?m = Returned ?m' |- _ =>
               unfold store_prev in E; simpl in E;
               destruct (m !! a) eqn:?; simpl in E; [|discriminate E];
               injection E as <-
           | E : store_in_list (Some a) false ?m = Returned ?m' |- _ =>
               unfold store_in_list in E; simpl in E;
               destruct (m !! a) eqn:?; simpl in E; [|discriminate E];
               injection E as <-
           end.
    eexists. split; [apply lookup_insert_eq|].
    repeat match goal with
           | H : <[a := _]> _ !! a = Some _ |- _ =>
               rewrite lookup_insert_eq in H; injection H as <-
           end.
    repeat split.
Qed.

(** X4.  The first part of [wait_for] on a well-formed wait list:
    with a node of its own, the caller is linked behind every waiter that
    is already there, the order of the others is kept, the node carries the
    caller's thread id, no thread flag changes and no other node is created
    or freed. *)
Theorem wait_for_links_caller_at_tail :
  forall (s : state) (l : list nat) (a t : nat),
    linked s l -> mem s !! a = None ->
    exists s',
      wait_for_enter a t s = Returned s' /\
      linked s' (l ++ [a]) /\
      tid <$> (mem s' !! a) = Some t /\
      thread_flags s' = thread_flags s /\
      (forall x, x <> a ->
                 (is_Some (mem s' !! x) <-> is_Some (mem s !! x)) /\
                 tid <$> (mem s' !! x) = tid <$> (mem s !! x)).
Proof.
  intros s l a t Hl Hfresh.
  destruct (CSCV_RTOS_Facts.enter_linked s l a t Hl Hfresh)
    as (s' & Hs & Hl' & Hfl & Hdom).
  exists s'. split; [exact Hs|]. split; [exact Hl'|].
  unfold wait_for_enter in Hs.
  pose proof (fun x => add_wait_list_tid _ _ _ x Hs) as Htid.
  simpl in Htid. split; [|split; [exact Hfl|]].
  - rewrite Htid, lookup_insert_eq. reflexivity.
  - intros x Hx. split; [apply Hdom, Hx|].
    rewrite Htid, lookup_insert_ne by congruence. reflexivity.
Qed.

Lemma wait_for_links_caller_at_tail_witness :
  exists s',
    wait_for_enter 50 5 three_linked = Returned s' /\
    linked s' [10; 20; 30; 50]%nat /\
    tid <$> (mem s' !! 50%nat) = Some 5%nat.
Proof.
  destruct (wait_for_links_caller_at_tail three_linked [10; 20; 30]%nat
              50%nat 5%nat three_linked_ok eq_refl)
    as (s' & Hs & Hl & Ht & _).
  exists s'. split; [exact Hs|]. split; [exact Hl | exact Ht].
Defined.

(** X5.  [_remove_wait_list] on any node of a well-formed wait
    list returns and leaves a well-formed list: the nodes that followed the
    removed one, then those that preceded it, so each of the others keeps
    its successor and the head becomes the removed node's successor.  The
    removed node stays alive with [in_list] false and both pointers null;
    no thread id and no thread flag changes. *)
Theorem remove_wait_list_keeps_the_others_linked :
  forall (s : state) (pre post : list nat) (a : nat),
    linked s (pre ++ a :: post) ->
    exists s',
      _remove_wait_list a s = Returned s' /\
      linked s' (post ++ pre) /\
      (exists w, mem s' !! a = Some w /\ cleared w) /\
      thread_flags s' = thread_flags s /\
      (forall x, tid <$> (mem s' !! x) = tid <$> (mem s !! x)).
Proof.
  intros s pre post a Hl.
  pose proof Hl as (Hnd & Hring & Hhead & Hin).
  assert (Hnd' : NoDup (a :: post ++ pre)).
  { rewrite (Permutation_app_comm post pre), Permutation_middle. exact Hnd. }
  apply CSCV_RTOS_Facts.ring_rotate_to in Hring.
  destruct (CSCV_RTOS_Facts.remove_first s a (post ++ pre) Hnd' Hring)
    as (m' & Hrm & Hring' & Hia & Hsame & Hdom).
  destruct (remove_wait_list_result _ _ _ Hrm) as (Htid & Hcl).
  eexists. split; [exact Hrm|].
  apply NoDup_cons in Hnd' as [Hna Hnd''].
  split; [|split; [exact Hcl | split; [reflexivity | exact Htid]]].
  split; [exact Hnd''|]. split; [exact Hring'|]. split; [reflexivity|].
  simpl. intros x w Hw Hi.
  destruct (decide (x ∈ post ++ pre)) as [Hx|Hx]; [exact Hx|].
  destruct (decide (x = a)) as [->|Hxa].
  - rewrite Hw in Hia. simpl in Hia. congruence.
  - rewrite (Hsame x Hx Hxa) in Hw. specialize (Hin x w Hw Hi).
    apply elem_of_app in Hin as [Hin|Hin]; [apply elem_of_app; right; exact Hin|].
    apply elem_of_cons in Hin as [->|Hin]; [congruence|].
    apply elem_of_app. left. exact Hin.
Qed.

Lemma remove_wait_list_keeps_the_others_linked_witness :
  exists s',
    _remove_wait_list 20 three_linked = Returned s' /\
    linked s' [30; 10]%nat /\
    _wait_list s' = Some 30%nat.
Proof.
  destruct (remove_wait_list_keeps_the_others_linked three_linked
              [10%nat] [30%nat] 20%nat three_linked_ok)
    as (s' & Hs & Hl & _).
  exists s'. split; [exact Hs|]. split; [exact Hl|].
  destruct Hl as (_ & _ & Hh & _). exact Hh.
Defined.

(** X6.  The last part of [wait_for] (from the return of
    [osThreadFlagsWait] on) on a well-formed wait list, the caller's node
    being alive.  When [ret] passes the assertions, it returns the
    [timeout] value, the node is unlinked if it still was linked and is
    gone with the caller's frame, the other waiters stay linked, and no
    thread flag changes.  When [ret] fails an assertion
    ([osFlagsErrorTimeout] after [osWaitForever], or a value that is
    neither a timeout nor the unblock flag without the error bit), it
    stops there, before the critical section is entered.  [timeout] is
    true for [osFlagsErrorTimeout], and for [osFlagsErrorResource] when
    [millisec] is 0.  Every result of the modelled [osThreadFlagsWait]
    passes the assertions, with [timeout] true exactly when the thread's
    flag was not set. *)
Theorem wait_for_return_leaves_no_node :
  forall (s : state) (l : list nat) (a : nat) (ret millisec : Z),
    linked s l -> is_Some (mem s !! a) ->
    (forall timeout,
        timeout_of ret millisec = Returned timeout ->
        exists s' l',
          wait_for_exit a ret millisec s = Returned (timeout, s') /\
          linked s' l' /\
          mem s' !! a = None /\
          (forall x, x ∈ l' <-> (x ∈ l /\ x <> a)) /\
          thread_flags s' = thread_flags s) /\
    ((forall timeout, timeout_of ret millisec <> Returned timeout) ->
     wait_for_exit a ret millisec s = Fault) /\
    (timeout_of ret millisec = Returned true <->
     (ret = osFlagsErrorTimeout /\ millisec <> osWaitForever) \/
     (ret = osFlagsErrorResource /\ millisec = 0)) /\
    (timeout_of ret millisec = Returned false <->
     ret <> osFlagsErrorTimeout /\
     ~ (ret = osFlagsErrorResource /\ millisec = 0) /\
     Z.land ret osFlagsError = 0 /\
     Z.land ret THREAD_FLAG_UNBLOCK <> 0) /\
    (forall t s0,
        osThreadFlagsWait t millisec s0 = Returned (ret, s) ->
        timeout_of ret millisec
        = Returned (negb (bool_decide (t ∈ thread_flags s0)))).
Proof.
  intros s l a ret millisec Hl [w Hw].
  split; [|split; [|split; [|split]]].
  - intros timeout Ht.
    assert (Hret : exists s',
               wait_for_exit a ret millisec s = Returned (timeout, s') /\
               thread_flags s' = thread_flags s).
    { unfold wait_for_exit. rewrite Ht, Hw. cbn [deref obind].
      destruct (in_list w) eqn:Hi.
      - assert (Ha : a ∈ l)
          by (eapply CSCV_RTOS_Facts.linked_in_list; eassumption).
        destruct (CSCV_RTOS_Facts.remove_linked s l a Hl Ha)
          as (s1 & pre & post & _ & -> & _ & Hfl & _).
        cbn [obind]. eexists. split; [reflexivity | exact Hfl].
      - cbn [obind]. eexists. split; reflexivity. }
    destruct Hret as (s' & Hs & Hfl).
    destruct (CSCV_RTOS_Facts.exit_linked _ _ _ _ _ _ _ Hl Hs)
      as (l' & Hl' & _ & Hgone & Hmem).
    exists s', l'. split; [exact Hs|]. split; [exact Hl'|].
    split; [exact Hgone|]. split; [exact Hmem | exact Hfl].
  - intros Hno. unfold wait_for_exit, timeout_of in *.
    destruct (ret =? osFlagsErrorTimeout).
    + destruct (millisec =? osWaitForever); [reflexivity|].
      exfalso. apply (Hno true). reflexivity.
    + destruct ((ret =? osFlagsErrorResource) && (millisec =? 0));
        [exfalso; apply (Hno true); reflexivity|].
      destruct ((Z.land ret osFlagsError =? 0)
                && negb (Z.land ret THREAD_FLAG_UNBLOCK =? 0));
        [exfalso; apply (Hno false); reflexivity | reflexivity].
  - unfold timeout_of.
    destruct (Z.eqb_spec ret osFlagsErrorTimeout) as [Et|Et].
    + destruct (Z.eqb_spec millisec osWaitForever) as [Ef|Ef].
      * split; [discriminate|]. intros [[_ H]|[H _]]; [contradiction|].
        subst ret. discriminate H.
      * split; [intros _; left; split; assumption | reflexivity].
    + destruct (Z.eqb_spec ret osFlagsErrorResource) as [Er|Er];
        destruct (Z.eqb_spec millisec 0) as [E0|E0]; cbn [andb].
      * split; [intros _; right; split; assumption | reflexivity].
      * destruct (_ && _); (split; [discriminate|]);
          intros [[H _]|[_ H]]; contradiction.
      * destruct (_ && _); (split; [discriminate|]);
          intros [[H _]|[H _]]; contradiction.
      * destruct (_ && _); (split; [discriminate|]);
          intros [[H _]|[H _]]; contradiction.
  - unfold timeout_of.
    destruct (Z.eqb_spec ret osFlagsErrorTimeout) as [Et|Et].
    + destruct (millisec =? osWaitForever);
        (split; [discriminate | intros (H & _); contradiction]).
    + assert (Hlast :
                (if (Z.land ret osFlagsError =? 0)
                    && negb (Z.land ret THREAD_FLAG_UNBLOCK =? 0)
                 then Returned false else Fault) = Returned false <->
                Z.land ret osFlagsError = 0 /\
                Z.land ret THREAD_FLAG_UNBLOCK <> 0).
      { destruct (Z.eqb_spec (Z.land ret osFlagsError) 0) as [Ee|Ee];
          destruct (Z.eqb_spec (Z.land ret THREAD_FLAG_UNBLOCK) 0) as [Eu|Eu];
          cbn [andb negb]; split; try discriminate; try reflexivity;
          try (intros [H1 H2]; contradiction).
        intros _. split; assumption. }
      destruct (Z.eqb_spec ret osFlagsErrorResource) as [Er|Er];
        destruct (Z.eqb_spec millisec 0) as [E0|E0]; cbn [andb].
      * split; [discriminate|]. intros (_ & H & _). exfalso. apply H.
        split; assumption.
      * rewrite Hlast. split.
        -- intros H. split; [exact Et|]. split; [|exact H].
           intros [_ ?]. contradiction.
        -- intros (_ & _ & H). exact H.
      * rewrite Hlast. split.
        -- intros H. split; [exact Et|]. split; [|exact H].
           intros [? _]. contradiction.
        -- intros (_ & _ & H). exact H.
      * rewrite Hlast. split.
        -- intros H. split; [exact Et|]. split; [|exact H].
           intros [? _]. contradiction.
        -- intros (_ & _ & H). exact H.
  - intros t s0 H. unfold osThreadFlagsWait in H.
    destruct (bool_decide (t ∈ thread_flags s0)).
    + injection H as <- _. reflexivity.
    + destruct (Z.eqb_spec millisec 0) as [E0|E0].
      * injection H as <- _. subst millisec. reflexivity.
      * destruct (Z.eqb_spec millisec osWaitForever) as [Ef|Ef];
          [discriminate|].
        injection H as <- _. unfold timeout_of.
        rewrite Z.eqb_refl.
        destruct (Z.eqb_spec millisec osWaitForever); [contradiction|].
        reflexivity.
Qed.

Lemma wait_for_return_leaves_no_node_witness :
  (exists s' l',
      wait_for_exit 20 osFlagsErrorTimeout 50 three_linked
      = Returned (true, s') /\
      linked s' l' /\
      mem s' !! 20%nat = None /\
      ((20%nat ∉ l') /\ (10%nat ∈ l') /\ (30%nat ∈ l'))) /\
  wait_for_exit 20 osFlagsErrorResource 50 three_linked = Fault.
Proof.
  split.
  - destruct (proj1 (wait_for_return_leaves_no_node three_linked
                       [10; 20; 30]%nat 20%nat osFlagsErrorTimeout 50
                       three_linked_ok ltac:(eexists; reflexivity))
                true eq_refl)
      as (s' & l' & Hs & Hl & Hgone & Hmem & _).
    exists s', l'. split; [exact Hs|]. split; [exact Hl|].
    split; [exact Hgone|]. split; [|split].
    + intros H. apply Hmem in H as [_ H]. congruence.
    + apply Hmem. split; [|discriminate]. left.
    + apply Hmem. split; [|discriminate]. right. right. left.
  - apply (proj1 (proj2 (wait_for_return_leaves_no_node three_linked
                           [10; 20; 30]%nat 20%nat osFlagsErrorResource 50
                           three_linked_ok ltac:(eexists; reflexivity)))).
    intros timeout H. vm_compute in H. discriminate H.
Defined.

(** One pass of the loop of [notify_all] on a live node, in full. *)
Lemma notify_all_pass_eq s a w :
  mem s !! a = Some w ->
  notify_all_pass a s
  = Returned (osThreadFlagsSet (tid w)
                (with_mem (<[a := {| tid := tid w; prev := None; next := None;
                                     in_list := false |}]> (mem s)) s),
              next w).
Proof.
  intros Hw. unfold notify_all_pass. rewrite Hw. cbn [deref obind].
  rewrite (CSCV_RTOS_Facts.store_next_ok _ _ _ _ Hw). cbn [obind].
  erewrite CSCV_RTOS_Facts.store_prev_ok by apply lookup_insert_eq.
  cbn [obind].
  erewrite CSCV_RTOS_Facts.store_in_list_ok by apply lookup_insert_eq.
  cbn [obind].
  rewrite lookup_insert_eq. cbn [deref obind].
  rewrite !insert_insert_eq. reflexivity.
Qed.

(** The passes of [notify_all] along a segment of the detached list. *)
Lemma notify_all_loop_releases l : forall a p n s fuel,
  NoDup (a :: l) -> chain (mem s) p (a :: l) n ->
  exists s',
    notify_all_loop (S (length l) + fuel) (Some a) s
    = notify_all_loop fuel (Some n) s' /\
    _wait_list s' = _wait_list s /\
    (forall x, x ∉ a :: l -> mem s' !! x = mem s !! x) /\
    (forall x, x ∈ a :: l -> released s s' x) /\
    flagged s s' (a :: l).
Proof.
  induction l as [|b l IH]; intros a p n s fuel Hnd Hc.
  - destruct Hc as [(w & Hw & Hi & Hp & Hn) _]. simpl in Hn.
    eexists. split.
    + cbn [length Nat.add notify_all_loop].
      rewrite (notify_all_pass_eq _ _ _ Hw). cbn [obind fst snd].
      rewrite Hn. reflexivity.
    + split; [reflexivity|]. split; [|split].
      * intros x Hx. simpl. apply lookup_insert_ne. intros ->. apply Hx. left.
      * intros x Hx. apply list_elem_of_singleton in Hx as ->.
        exists w. eexists. split; [exact Hw|]. simpl.
        rewrite lookup_insert_eq. split; [reflexivity|]. repeat split.
      * intros t. simpl. rewrite elem_of_union, elem_of_singleton. split.
        -- intros [->|Ht]; [right|left; exact Ht].
           exists a, w. split; [left|]. split; [exact Hw | reflexivity].
        -- intros [Ht|(x & w0 & Hx & Hw0 & <-)]; [right; exact Ht|].
           apply list_elem_of_singleton in Hx as ->. left. congruence.
  - destruct Hc as [(w & Hw & Hi & Hp & Hn) Hc]. simpl in Hn.
    apply NoDup_cons in Hnd as [Ha Hnd].
    pose proof (notify_all_pass_eq _ _ _ Hw) as Hpass.
    set (s1 := osThreadFlagsSet (tid w)
                 (with_mem (<[a := {| tid := tid w; prev := None; next := None;
                                      in_list := false |}]> (mem s)) s))
      in *.
    assert (Hsame : forall x, x <> a -> mem s1 !! x = mem s !! x).
    { intros x Hx. simpl. apply lookup_insert_ne. congruence. }
    assert (Hc1 : chain (mem s1) a (b :: l) n).
    { eapply CSCV_RTOS_Facts.chain_frame; [|exact Hc].
      intros x Hx. apply Hsame. intros ->. contradiction. }
    destruct (IH b a n s1 fuel Hnd Hc1) as (s' & Hloop & Hwl & Hout & Hin & Hfl).
    exists s'. split.
    + change (S (length (b :: l)) + fuel)%nat
        with (S (S (length l) + fuel))%nat.
      cbn [notify_all_loop]. rewrite Hpass. cbn [obind fst snd].
      rewrite Hn. exact Hloop.
    + split; [rewrite Hwl; reflexivity|]. split; [|split].
      * intros x Hx. rewrite Hout.
        -- apply Hsame. intros ->. apply Hx. left.
        -- intros Hx'. apply Hx. right. exact Hx'.
      * intros x Hx. apply elem_of_cons in Hx as [->|Hx].
        -- exists w. eexists. split; [exact Hw|].
           rewrite Hout by exact Ha. simpl. rewrite lookup_insert_eq.
           split; [reflexivity|]. repeat split.
        -- destruct (Hin x Hx) as (w1 & w' & Hw1 & Hw' & Hcl & Ht).
           rewrite Hsame in Hw1 by (intros ->; contradiction).
           exists w1, w'. repeat split; try assumption; apply Hcl.
      * intros t. rewrite (Hfl t). simpl.
        rewrite elem_of_union, elem_of_singleton. split.
        -- intros [[->|Ht]|(x & w0 & Hx & Hw0 & <-)].
           ++ right. exists a, w. split; [left|]. split; [exact Hw | reflexivity].
           ++ left. exact Ht.
           ++ right. exists x, w0. split; [right; exact Hx|].
              split; [|reflexivity].
              rewrite <- (Hsame x) by (intros ->; contradiction). exact Hw0.
        -- intros [Ht|(x & w0 & Hx & Hw0 & <-)]; [left; right; exact Ht|].
           apply elem_of_cons in Hx as [->|Hx].
           ++ left. left. congruence.
           ++ right. exists x, w0. split; [exact Hx|]. split; [|reflexivity].
              rewrite Hsame by (intros ->; contradiction). exact Hw0.
Qed.

(** X7.  [notify_all] run without interruption (from a handler,
    or inside a critical section) on a well-formed wait list returns and
    leaves the list empty; every node that was linked is alive with
    [in_list] false and both pointers null; the threads whose flag it sets
    are exactly the owners of the linked nodes; nodes that were not linked
    are untouched. *)
Theorem notify_all_releases_every_waiter :
  forall (s : state) (l : list nat),
    linked s l ->
    exists s',
      notify_all s = Returned s' /\
      linked s' [] /\
      (forall x, x ∈ l -> released s s' x) /\
      (forall x, x ∉ l -> mem s' !! x = mem s !! x) /\
      flagged s s' l.
Proof.
  intros s l (Hnd & Hring & Hhead & Hin).
  unfold notify_all, notify_all_detach. cbn [fst snd]. rewrite Hhead.
  destruct l as [|a l]; cbn [head].
  - exists (with_wait_list None s). split; [reflexivity|]. split.
    { split; [constructor|]. split; [exact I|]. split; [reflexivity|].
      simpl. exact Hin. }
    split; [intros x Hx; inversion Hx|]. split; [reflexivity|].
    intros t. simpl. split; [tauto|].
    intros [Ht|(x & _ & Hx & _)]; [exact Ht | inversion Hx].
  - pose proof (CSCV_RTOS_Facts.ring_length_le_size _ _ Hnd Hring) as Hlen.
    simpl in Hlen.
    assert (Hc : chain (mem (with_wait_list None s)) (List.last (a :: l) a)
                       (a :: l) a) by exact Hring.
    destruct (notify_all_loop_releases l a _ a _
                (size (mem s) - length l)%nat Hnd Hc)
      as (s1 & Hloop & Hwl & Hout & Hrel & Hfl).
    replace (S (size (mem s)))
      with (S (length l) + (size (mem s) - length l))%nat by lia.
    rewrite Hloop.
    destruct (Hrel a ltac:(left)) as (w & w' & Hw & Hw' & (Hi & Hn & Hp) & Ht).
    destruct (size (mem s) - length l)%nat as [|k] eqn:Ek; [lia|].
    cbn [notify_all_loop]. rewrite (notify_all_pass_eq _ _ _ Hw').
    cbn [obind fst snd]. rewrite Hn.
    assert (Hre : <[a := {| tid := tid w'; prev := None; next := None;
                            in_list := false |}]> (mem s1) = mem s1).
    { apply insert_id. rewrite Hw'. f_equal.
      destruct w' as [t0 p0 n0 i0]. simpl in *. subst. reflexivity. }
    eexists. split; [destruct k; reflexivity|]. simpl. rewrite Hre.
    split; [|split; [|split]].
    + split; [constructor|]. split; [exact I|]. split; [exact Hwl|].
      simpl. intros x wx Hx Hix. exfalso.
      destruct (decide (x ∈ a :: l)) as [Hxl|Hxl].
      * destruct (Hrel x Hxl) as (w0 & w0' & _ & Hw0' & (Hi0 & _) & _).
        congruence.
      * rewrite Hout in Hx by exact Hxl. apply Hxl. eapply Hin; eassumption.
    + intros x Hx. destruct (Hrel x Hx) as (w0 & w0' & H1 & H2 & H3 & H4).
      exists w0, w0'. repeat split; try assumption; apply H3.
    + intros x Hx. rewrite Hout by exact Hx. reflexivity.
    + intros t. simpl. rewrite elem_of_union, elem_of_singleton, (Hfl t).
      simpl. split.
      * intros [->|Ht']; [|exact Ht'].
        right. exists a, w. split; [left|]. split; [exact Hw | congruence].
      * intros Ht'. right. exact Ht'.
Qed.

Lemma notify_all_releases_every_waiter_witness :
  exists s',
    notify_all three_linked = Returned s' /\
    _wait_list s' = None /\
    ((1%nat ∈ thread_flags s') /\ (2%nat ∈ thread_flags s')
     /\ (3%nat ∈ thread_flags s') /\ (4%nat ∉ thread_flags s')).
Proof.
  destruct (notify_all_releases_every_waiter three_linked [10; 20; 30]%nat
              three_linked_ok)
    as (s' & Hs & Hl & _ & _ & Hfl).
  exists s'. split; [exact Hs|]. split; [apply Hl|].
  assert (Hflag : forall x w, x ∈ [10; 20; 30]%nat ->
                              mem three_linked !! x = Some w ->
                              tid w ∈ thread_flags s').
  { intros x w Hx Hw. apply Hfl. right. exists x, w. repeat split; assumption. }
  split; [|split; [|split]].
  - apply (Hflag 10%nat _ ltac:(left) eq_refl).
  - apply (Hflag 20%nat _ ltac:(right; left) eq_refl).
  - apply (Hflag 30%nat _ ltac:(right; right; left) eq_refl).
  - intros H. apply Hfl in H as [H|(x & w & Hx & Hw & Ht)]; [inversion H|].
    repeat (apply elem_of_cons in Hx as [->|Hx];
            [vm_compute in Hw; injection Hw as <-; discriminate Ht|]).
    inversion Hx.
Defined.

(** X8.  From a fresh condition variable, every schedule of the
    parts of [wait_for] (each caller with a node of its own) and of
    [notify_one] and [notify_all] run from handlers, of any length and with
    any number of threads, leaves a well-formed wait list: a live node has
    [in_list] set exactly when it is linked, and every linked node is
    alive. *)
Theorem handler_notifications_keep_wait_list_well_formed :
  forall (es : list event) (y : system),
    atomic_run es init -> run es init = Returned y ->
    exists l,
      linked (cv y) l /\
      (forall x w, mem (cv y) !! x = Some w -> (in_list w = true <-> x ∈ l)) /\
      (forall x, x ∈ l -> is_Some (mem (cv y) !! x)).
Proof.
  intros es y Ha Hr.
  destruct (CSCV_RTOS_Facts.run_keeps_linked es init y []
              CSCV_RTOS_Facts.init_linked Ha Hr) as (l & Hl).
  exists l. split; [exact Hl|]. split.
  - intros x w Hw. eapply CSCV_RTOS_Facts.linked_in_list; eassumption.
  - intros x Hx. destruct Hl as (_ & Hring & _).
    destruct (CSCV_RTOS_Facts.ring_lookup _ _ _ Hring Hx) as (w & Hw & _).
    eauto.
Qed.

Lemma handler_notifications_keep_wait_list_well_formed_witness :
  exists y l,
    run (three_waiters ++ [FlagsWaitReturns 2; IsrNotifyAll; WaitForReturns 2])
        init = Returned y /\
    linked (cv y) l.
Proof.
  destruct (run (three_waiters
                   ++ [FlagsWaitReturns 2; IsrNotifyAll; WaitForReturns 2]) init)
    as [y| | |] eqn:E; try (vm_compute in E; discriminate E).
  destruct (handler_notifications_keep_wait_list_well_formed
              (three_waiters
                 ++ [FlagsWaitReturns 2; IsrNotifyAll; WaitForReturns 2]) y)
    as (l & Hl & _).
  - vm_compute. repeat split.
  - exact E.
  - exists y, l. split; [reflexivity | exact Hl].
Defined.

End CSCV_RTOS_List_Facts.

(** ** UARTSerial: [sigio], [sync], and what wakes a caller *)

Module UART_More_Facts.
Import CircularBuffer UART UART_More.

Local Arguments full : simpl never.
Local Arguments empty : simpl never.

Section Endpoint.

Context {PE : PollEvents} {UC : UartConfig}.

(** X9.  [sigio(func)] stores the callback and, when it is not
    empty, invokes it at once exactly when the endpoint has something to
    report: the RX ring holds data, or [hup()] holds, or the TX ring has
    room.  Nothing else of the endpoint changes; removing the callback
    invokes nothing. *)
Theorem sigio_fires_unless_idle :
  forall (func : bool) (u : UARTSerial),
    POLLIN <> 0 -> POLLOUT <> 0 -> POLLHUP <> 0 ->
    _sigio_cb (sigio func u) = func /\
    calls (sigio func u)
    = calls u
      ++ (if func && (negb (empty (_rxbuf u)) || hup u
                      || negb (full TXBUF_SIZE (_txbuf u)))
          then [SigioCb] else []) /\
    serial (sigio func u) = serial u /\
    _rxbuf (sigio func u) = _rxbuf u /\
    _txbuf (sigio func u) = _txbuf u /\
    _blocking (sigio func u) = _blocking u /\
    _tx_irq_enabled (sigio func u) = _tx_irq_enabled u /\
    _rx_irq_enabled (sigio func u) = _rx_irq_enabled u /\
    _dcd_irq (sigio func u) = _dcd_irq u /\
    _poll_wake_events (sigio func u) = _poll_wake_events u.
Proof.
  intros func u Hin Hout Hhup. unfold sigio. cbv zeta.
  destruct func; cbn [_sigio_cb set_sigio_cb andb];
    [|rewrite app_nil_r; repeat split].
  rewrite UART_Facts.poll_value.
  assert (Hh : hup (set_sigio_cb true u) = hup u) by reflexivity.
  rewrite Hh. cbn [_rxbuf _txbuf set_sigio_cb].
  destruct (empty (_rxbuf u)), (hup u), (full TXBUF_SIZE (_txbuf u));
    cbn [negb orb];
    match goal with
    | |- context [Z.lor ?a ?b =? 0] =>
        destruct (Z.lor a b =? 0) eqn:E;
        [apply Z.eqb_eq, Z.lor_eq_0_iff in E; destruct E; try congruence
        |try (simpl in E; discriminate E)]
    end;
    rewrite ?app_nil_r; repeat split.
Qed.

Lemma run_env_event_no_rx e u :
  is_irq_rx e = false -> _rxbuf (run_env_event e u) = _rxbuf u.
Proof.
  destruct e; simpl; try discriminate; intros _; try reflexivity.
  - destruct (_tx_irq_enabled u); [|reflexivity]. apply UART_Facts.tx_irq_frame.
  - destruct (_dcd_irq u) as [d|]; [|reflexivity].
    unfold dcd_irq.
    destruct (irq_edge d);
      match goal with
      | |- context [if ?c then _ else _] => destruct c
      end; rewrite ?UART_Facts.wake_rxbuf; reflexivity.
Qed.

Lemma run_env_no_rx w :
  forall u, forallb (fun e => negb (is_irq_rx e)) w = true ->
            _rxbuf (run_env w u) = _rxbuf u.
Proof.
  induction w as [|e w IH]; intros u H; [reflexivity|].
  simpl in H. apply andb_true_iff in H as [He Hw].
  change (run_env (e :: w) u) with (run_env w (run_env_event e u)).
  rewrite IH by exact Hw. apply run_env_event_no_rx.
  destruct (is_irq_rx e); [discriminate | reflexivity].
Qed.

(** X10.  A blocking [read] of an empty RX ring is released by the
    RX interrupt handler and by nothing else: over a schedule in which no
    RX interrupt is taken it is still suspended at the end, whatever else
    happens meanwhile, the loss of carrier on the DCD input included. *)
Theorem blocking_read_waits_for_rx_interrupt :
  forall (length : nat) (sched : list (list env_event)) (u : UARTSerial),
    (0 < length)%nat -> _rxbuf u = [] -> _blocking u = true ->
    no_rx_irq sched = true ->
    read length sched u = Blocked.
Proof.
  intros length sched u Hlen He Hb Hs.
  destruct length as [|n]; [lia|]. unfold read.
  assert (Hw : read_wait sched u = Blocked).
  { clear Hlen. revert u He Hb Hs.
    induction sched as [|w rest IH]; intros u He Hb Hs; cbn [read_wait];
      rewrite He, Hb; unfold empty; cbn [negb]; [reflexivity|].
    simpl in Hs. apply andb_true_iff in Hs as [Hw Hrest].
    apply IH; [|  |exact Hrest].
    - rewrite run_env_no_rx by exact Hw. exact He.
    - rewrite (proj1 (UART_Facts.run_env_frame w u)). exact Hb. }
  rewrite Hw. reflexivity.
Qed.

Lemma tx_drain_all room :
  forall buf line,
    (List.length buf <= room)%nat ->
    snd (fst (tx_drain room buf line)) = [].
Proof.
  induction room as [|room IH]; intros buf line Hle.
  - destruct buf; [reflexivity | simpl in Hle; lia].
  - destruct buf as [|c buf]; [reflexivity|]. simpl.
    apply IH. simpl in Hle. lia.
Qed.

Lemma sync_returned_app sched more :
  forall u r, sync sched u = Returned r -> sync (sched ++ more) u = Returned r.
Proof.
  induction sched as [|w rest IH]; intros u r Hr; simpl in *.
  - destruct (empty (_txbuf u)) eqn:E; [|discriminate].
    destruct more; simpl; rewrite E; exact Hr.
  - destruct (empty (_txbuf u)); [exact Hr|]. apply IH, Hr.
Qed.

Lemma sync_blocked_app sched more :
  forall u,
    sync sched u = Blocked ->
    sync (sched ++ more) u
    = sync more (after_waits (List.length sched) sched u).
Proof.
  induction sched as [|w rest IH]; intros u Hr; [reflexivity|].
  simpl in Hr. cbn [List.length].
  rewrite UART_Facts.after_waits_cons, <- app_comm_cons. cbn [sync].
  destruct (empty (_txbuf u)); [discriminate|]. apply IH, Hr.
Qed.

Lemma sync_outcome sched :
  forall u,
    (exists k,
        (k <= List.length sched)%nat /\
        sync sched u = Returned (0, after_waits k sched u) /\
        _txbuf (after_waits k sched u) = []) \/
    (sync sched u = Blocked /\
     _txbuf (after_waits (List.length sched) sched u) <> []).
Proof.
  induction sched as [|w rest IH]; intros u; cbn [sync].
  - destruct (empty (_txbuf u)) eqn:E.
    + left. exists O. rewrite UART_Facts.after_waits_nil.
      split; [lia|]. split; [reflexivity|]. apply UART_Facts.empty_nil, E.
    + right. split; [reflexivity|]. rewrite UART_Facts.after_waits_nil.
      intros H. apply UART_Facts.empty_nil in H. congruence.
  - destruct (empty (_txbuf u)) eqn:E.
    + left. exists O. split; [lia|]. split; [reflexivity|].
      apply UART_Facts.empty_nil, E.
    + destruct (IH (run_env w u)) as [(k & Hk & Hr & He)|(Hr & He)].
      * left. exists (S k). cbn [List.length].
        rewrite UART_Facts.after_waits_cons.
        split; [lia|]. split; assumption.
      * right. cbn [List.length]. rewrite UART_Facts.after_waits_cons.
        split; assumption.
Qed.

Lemma after_waits_stream k sched :
  forall u, tx_stream (after_waits k sched u) = tx_stream u.
Proof.
  revert k. induction sched as [|w rest IH]; intros k u.
  - rewrite UART_Facts.after_waits_nil. reflexivity.
  - destruct k as [|k]; [reflexivity|].
    rewrite UART_Facts.after_waits_cons, IH.
    apply UART_Facts.run_env_frame.
Qed.

(** X11.  [sync()] returns 0 at once, changing nothing, when the TX
    ring is empty; otherwise it waits, one millisecond wait after another,
    and when it returns the TX ring is empty and every byte that was queued
    has been given to the peripheral, in order, behind what was sent before.
    It is still waiting at the end of a schedule exactly when the ring is
    not empty then; and with the handler state consistent, the line taking
    the queued bytes always lets it return. *)
Theorem sync_returns_when_tx_ring_drained :
  forall (sched : list (list env_event)) (u : UARTSerial),
    (_txbuf u = [] -> sync sched u = Returned (0, u)) /\
    (forall r u',
        sync sched u = Returned (r, u') ->
        r = 0 /\ _txbuf u' = [] /\
        tx_line (serial u') = tx_line (serial u) ++ _txbuf u /\
        exists k, (k <= List.length sched)%nat /\ u' = after_waits k sched u) /\
    (sync sched u = Blocked <->
     (forall k, (k <= List.length sched)%nat ->
                _txbuf (after_waits k sched u) <> [])) /\
    sync sched u <> Fault /\ sync sched u <> OutOfFuel /\
    (isr_consistent u ->
     exists n r,
       sync (sched ++ [[HwTxRoom n; IrqTx]]) u = Returned r).
Proof.
  intros sched u.
  assert (Hmono : forall s v k,
             _txbuf (after_waits k s v) = [] ->
             exists r, sync s v = Returned r).
  { induction s as [|w rest IH]; intros v k Hk.
    - rewrite UART_Facts.after_waits_nil in Hk. cbn [sync].
      rewrite (proj2 (UART_Facts.empty_nil _) Hk). eauto.
    - cbn [sync]. destruct (empty (_txbuf v)) eqn:E; [eauto|].
      destruct k as [|k].
      + change (after_waits 0 (w :: rest) v) with v in Hk.
        apply UART_Facts.empty_nil in Hk. congruence.
      + rewrite UART_Facts.after_waits_cons in Hk. eapply IH, Hk. }
  split; [|split; [|split; [|split; [|split]]]].
  - intros He. destruct sched; cbn [sync];
      rewrite (proj2 (UART_Facts.empty_nil _) He); reflexivity.
  - intros r u' Hr.
    destruct (sync_outcome sched u) as [(k & Hk & Hr' & He)|(Hr' & _)];
      [|congruence].
    rewrite Hr' in Hr. injection Hr as <- <-.
    split; [reflexivity|]. split; [exact He|]. split; [|eauto].
    pose proof (after_waits_stream k sched u) as Hs.
    unfold tx_stream in Hs. rewrite He, app_nil_r in Hs. exact Hs.
  - split.
    + intros Hb k Hk He. destruct (Hmono _ _ _ He) as (r & Hr). congruence.
    + intros Hall.
      destruct (sync_outcome sched u) as [(k & Hk & _ & He)|(Hr' & _)];
        [|exact Hr'].
      exfalso. exact (Hall k Hk He).
  - destruct (sync_outcome sched u) as [(k & _ & -> & _)|(-> & _)];
      discriminate.
  - destruct (sync_outcome sched u) as [(k & _ & -> & _)|(-> & _)];
      discriminate.
  - intros Hc.
    destruct (sync_outcome sched u) as [(k & _ & Hr & _)|(Hr & Hne)].
    + exists O. eexists. apply sync_returned_app. exact Hr.
    + remember (after_waits (List.length sched) sched u) as uE eqn:HuE.
      assert (HcE : isr_consistent uE)
        by (subst uE; apply UART_Facts.after_waits_all_consistent, Hc).
      exists (List.length (_txbuf uE)).
      rewrite (sync_blocked_app _ _ _ Hr), <- HuE. cbn [sync].
      destruct (empty (_txbuf uE)) eqn:E; [eauto|].
      assert (Hdone : _txbuf (run_env [HwTxRoom (List.length (_txbuf uE)); IrqTx]
                                uE) = []).
      { simpl. destruct HcE as (_ & Htx0 & _).
        destruct (_tx_irq_enabled uE) eqn:Ei;
          [|exfalso; apply Hne, Htx0; reflexivity].
        match goal with
        | |- context [tx_irq ?v] =>
            destruct (UART_Facts.tx_irq_frame v) as (_ & _ & _ & _ & _ & -> & _)
        end.
        simpl. apply tx_drain_all. lia. }
      rewrite (proj2 (UART_Facts.empty_nil _) Hdone). eauto.
Qed.

Lemma rx_fill_nonempty fifo buf :
  empty (snd (rx_fill fifo buf))
  = empty buf && (empty fifo || full RXBUF_SIZE buf).
Proof.
  destruct fifo as [|c fifo]; cbn [rx_fill snd].
  - unfold empty at 3. rewrite andb_true_r. reflexivity.
  - unfold empty at 3. cbn [orb].
    destruct (full RXBUF_SIZE buf) eqn:Ef; cbn [snd];
      [rewrite andb_true_r; reflexivity|].
    rewrite andb_false_r.
    destruct (UART_Facts.rx_fill_app fifo (push c buf)) as (extra & -> & _).
    unfold push. destruct buf; reflexivity.
Qed.

Lemma tx_drain_full room buf line :
  full TXBUF_SIZE buf = true ->
  full TXBUF_SIZE (snd (fst (tx_drain room buf line)))
  = empty buf || Nat.eqb room 0.
Proof.
  intros Hf. apply UART_Facts.full_length in Hf.
  destruct buf as [|c buf].
  - rewrite UART_Facts.tx_drain_empty. cbn [fst snd]. unfold empty. cbn [orb].
    apply UART_Facts.full_length. exact Hf.
  - destruct room as [|room]; cbn [tx_drain fst snd].
    + unfold empty. simpl. apply UART_Facts.full_length. exact Hf.
    + unfold empty. simpl.
      destruct (UART_Facts.tx_drain_suffix room buf (line ++ [c]))
        as (sent & Hs).
      apply Nat.eqb_neq.
      assert (Hl : List.length buf
                   = (List.length sent
                      + List.length (snd (fst (tx_drain room buf (line ++ [c])))))%nat)
        by (rewrite Hs at 1; apply length_app).
      simpl in Hf. lia.
Qed.

(** X12.  The interrupt handlers wake on transitions only.  [rx_irq]
    calls [wake(&_cv_rx, POLLIN)] exactly when it finds the RX ring empty
    and leaves it non-empty (the peripheral had a byte and the ring has
    room); [tx_irq] calls [wake(&_cv_tx, POLLOUT)] exactly when it finds
    the TX ring full and leaves it with room (the ring held a byte and the
    peripheral took one) while [hup()] is false.  In every other case the
    handlers make no call at all, and a [wake] consists of [notify_all] on
    the condition variable, then [wake_poll] if polling is armed for the
    event, then the SIGIO callback if one is installed. *)
Theorem irq_handlers_wake_on_transitions :
  forall (u : UARTSerial),
    calls (rx_irq u)
    = calls u
      ++ (if empty (_rxbuf u) && negb (empty (rx_fifo (serial u)))
             && negb (full RXBUF_SIZE (_rxbuf u))
          then wake_log _cv_rx POLLIN u else []) /\
    calls (tx_irq u)
    = calls u
      ++ (if full TXBUF_SIZE (_txbuf u) && negb (empty (_txbuf u))
             && negb (Nat.eqb (tx_room (serial u)) 0) && negb (hup u)
          then wake_log _cv_tx POLLOUT u else []).
Proof.
  intros u. split.
  - unfold rx_irq. cbv zeta.
    set (r := rx_fill (rx_fifo (serial u)) (_rxbuf u)).
    assert (He : empty (snd r)
                 = empty (_rxbuf u)
                   && (empty (rx_fifo (serial u))
                       || full RXBUF_SIZE (_rxbuf u)))
      by apply rx_fill_nonempty.
    match goal with
    | |- calls (if ?c then wake _ _ ?v else _) = _ =>
        assert (Hc : c = empty (_rxbuf u) && negb (empty (snd r)));
        [|rewrite Hc; clear Hc;
          assert (Hm : _poll_wake_events v = _poll_wake_events u
                       /\ _sigio_cb v = _sigio_cb u /\ calls v = calls u)]
    end.
    { destruct (_rx_irq_enabled _ && _); reflexivity. }
    { destruct (_rx_irq_enabled _ && _); repeat split. }
    destruct Hm as (Hm1 & Hm2 & Hm3). rewrite He.
    destruct (empty (_rxbuf u)), (empty (rx_fifo (serial u))),
      (full RXBUF_SIZE (_rxbuf u)); cbn [andb orb negb];
      rewrite ?app_nil_r; try exact Hm3.
    rewrite UART_Facts.wake_calls, Hm1, Hm2, Hm3. reflexivity.
  - unfold tx_irq. cbv zeta.
    set (r := tx_drain (tx_room (serial u)) (_txbuf u) (tx_line (serial u))).
    match goal with
    | |- calls (if ?c then wake _ _ ?v else _) = _ =>
        assert (Hc : c = full TXBUF_SIZE (_txbuf u)
                         && negb (full TXBUF_SIZE (snd (fst r)))
                         && negb (hup u));
        [|rewrite Hc; clear Hc;
          assert (Hm : _poll_wake_events v = _poll_wake_events u
                       /\ _sigio_cb v = _sigio_cb u /\ calls v = calls u)]
    end.
    { destruct (_tx_irq_enabled _ && _); reflexivity. }
    { destruct (_tx_irq_enabled _ && _); repeat split. }
    destruct Hm as (Hm1 & Hm2 & Hm3).
    destruct (full TXBUF_SIZE (_txbuf u)) eqn:Ef; cbn [andb];
      [|rewrite app_nil_r; exact Hm3].
    subst r. rewrite (tx_drain_full _ _ _ Ef).
    destruct (empty (_txbuf u)), (Nat.eqb (tx_room (serial u)) 0), (hup u);
      cbn [andb orb negb]; rewrite ?app_nil_r; try exact Hm3.
    rewrite UART_Facts.wake_calls, Hm1, Hm2, Hm3. reflexivity.
Qed.

End Endpoint.

#[local] Existing Instance mbed_poll_h.
#[local] Existing Instance small_uart_config.

Import Scenarios.

Lemma sigio_fires_unless_idle_witness :
  calls (sigio true fresh) = [SigioCb] /\
  calls (sigio true tx_full) = [] /\
  calls (sigio false fresh) = [].
Proof.
  split; [|split].
  - apply (proj1 (proj2 (sigio_fires_unless_idle (PE := mbed_poll_h)
                           (UC := small_uart_config) true fresh
                           ltac:(vm_compute; discriminate) ltac:(vm_compute; discriminate)
                           ltac:(vm_compute; discriminate)))).
  - apply (proj1 (proj2 (sigio_fires_unless_idle (PE := mbed_poll_h)
                           (UC := small_uart_config) true tx_full
                           ltac:(vm_compute; discriminate) ltac:(vm_compute; discriminate)
                           ltac:(vm_compute; discriminate)))).
  - apply (proj1 (proj2 (sigio_fires_unless_idle (PE := mbed_poll_h)
                           (UC := small_uart_config) false fresh
                           ltac:(vm_compute; discriminate) ltac:(vm_compute; discriminate)
                           ltac:(vm_compute; discriminate)))).
Defined.

Lemma blocking_read_waits_for_rx_interrupt_witness :
  read 8 [[HwReceive [Byte.x41]; DcdPin true]; [HwTxRoom 4; IrqTx]]
    (set_data_carrier_detect (Some false) false fresh)
  = Blocked.
Proof.
  apply blocking_read_waits_for_rx_interrupt;
    [lia | reflexivity | reflexivity | reflexivity].
Defined.

End UART_More_Facts.

(** ** FileHandle.cpp *)

Module FileHandle_Facts.
Import UART FileHandle_cpp.

(** X13.  [FileHandle::size()] over any [seek].  When the first
    [seek(0, SEEK_CUR)] fails (a negative value) it returns that value and
    seeks no further; so a [UARTSerial], whose [seek] is [-ESPIPE], has
    size [-ESPIPE] and is left as it was.  On a file whose [seek] reports
    the position for [SEEK_CUR], the length for [SEEK_END] and moves to a
    given offset for [SEEK_SET], each without changing the length, it
    returns the length and leaves the position and the length as they
    were. *)
Theorem size_reports_length_and_restores_position :
  forall (file : Type) (seek : Z -> whence -> file -> Z * file),
    (forall f, fst (seek 0 SEEK_CUR f) < 0 ->
               size file seek f = seek 0 SEEK_CUR f) /\
    (forall (position length : file -> Z) (f : file),
        (forall g, seek 0 SEEK_CUR g = (position g, g)) ->
        (forall g, fst (seek 0 SEEK_END g) = length g /\
                   length (snd (seek 0 SEEK_END g)) = length g) ->
        (forall o g, 0 <= o ->
                     position (snd (seek o SEEK_SET g)) = o /\
                     length (snd (seek o SEEK_SET g)) = length g) ->
        0 <= position f ->
        fst (size file seek f) = length f /\
        position (snd (size file seek f)) = position f /\
        length (snd (size file seek f)) = length f) /\
    (forall (ESPIPE : Z) (u : UARTSerial),
        0 < ESPIPE ->
        size UARTSerial (uart_seek ESPIPE) u = (- ESPIPE, u)).
Proof.
  intros file seek. split; [|split].
  - intros f Hneg. unfold size. cbv zeta.
    apply Z.ltb_lt in Hneg. rewrite Hneg. reflexivity.
  - intros position length f Hcur Hend Hset Hpos. unfold size. cbv zeta.
    rewrite Hcur. cbn [fst snd].
    assert (E : (position f <? 0) = false) by (apply Z.ltb_ge; exact Hpos).
    rewrite E. cbn [fst snd].
    destruct (Hend f) as (He1 & He2).
    destruct (Hset (position f) (snd (seek 0 SEEK_END f)) Hpos) as (Hs1 & Hs2).
    split; [exact He1|]. split; [exact Hs1 | congruence].
  - intros ESPIPE u Hpos. unfold size, uart_seek. cbn [fst snd].
    assert (E : (- ESPIPE <? 0) = true) by (apply Z.ltb_lt; lia).
    rewrite E. reflexivity.
Qed.

Lemma plain_seek_cur g :
  plain_seek 0 SEEK_CUR g = (Z.of_nat (pos g), g).
Proof.
  unfold plain_seek. rewrite Z.add_0_r.
  assert (E : (Z.of_nat (pos g) <? 0) = false) by (apply Z.ltb_ge; lia).
  rewrite E, Nat2Z.id. destruct g; reflexivity.
Qed.

Lemma plain_seek_end g :
  fst (plain_seek 0 SEEK_END g) = Z.of_nat (len g) /\
  Z.of_nat (len (snd (plain_seek 0 SEEK_END g))) = Z.of_nat (len g).
Proof.
  unfold plain_seek. rewrite Z.add_0_r.
  assert (E : (Z.of_nat (len g) <? 0) = false) by (apply Z.ltb_ge; lia).
  rewrite E. split; reflexivity.
Qed.

Lemma plain_seek_set o g :
  0 <= o ->
  Z.of_nat (pos (snd (plain_seek o SEEK_SET g))) = o /\
  Z.of_nat (len (snd (plain_seek o SEEK_SET g))) = Z.of_nat (len g).
Proof.
  intros Ho. unfold plain_seek.
  assert (E : (o <? 0) = false) by (apply Z.ltb_ge; lia).
  rewrite E. simpl. split; [apply Z2Nat.id; exact Ho | reflexivity].
Qed.

Lemma size_reports_length_and_restores_position_witness :
  (fst (size plain_file plain_seek {| pos := 7; len := 100 |}) = 100 /\
   Z.of_nat (pos (snd (size plain_file plain_seek {| pos := 7; len := 100 |})))
   = 7) /\
  size UARTSerial (uart_seek 29) Scenarios.fresh = (-29, Scenarios.fresh).
Proof.
  split.
  - destruct (proj1 (proj2 (size_reports_length_and_restores_position
                              plain_file plain_seek))
                (fun g => Z.of_nat (pos g)) (fun g => Z.of_nat (len g))
                {| pos := 7; len := 100 |}
                plain_seek_cur plain_seek_end plain_seek_set ltac:(simpl; lia))
      as (H1 & H2 & _).
    split; [exact H1 | exact H2].
  - apply (proj2 (proj2 (size_reports_length_and_restores_position
                           UARTSerial (uart_seek 29)))).
    lia.
Defined.

Section WakeHelper.

Context {PE : PollEvents}.
Variable EAGAIN : Z.
Variable dev : Type.
Variable ops : DeviceOps dev.

Lemma write_loop_result nesting fuel :
  forall sched ptr size amount_written d r d',
    0 <= amount_written ->
    write_loop EAGAIN dev ops nesting fuel sched ptr size amount_written d
    = Returned (r, d') ->
    (r < 0 /\ (r = - EAGAIN -> is_blocking dev ops d' = false)) \/
    (amount_written <= r <= size /\
     (is_stream dev ops d' = true -> r = size)).
Proof.
  induction fuel as [|fuel IH];
    intros sched ptr size amount_written d r d' Ha Hr; [discriminate|].
  cbn [write_loop] in Hr. cbv zeta in Hr.
  destruct (write_nonblocking dev ops ptr d) as [n d1]. cbn [fst snd] in Hr.
  destruct (0 <=? n) eqn:En.
  - apply Z.leb_le in En.
    destruct (size - amount_written <? n) eqn:Ea; [discriminate|].
    apply Z.ltb_ge in Ea.
    destruct ((size <=? amount_written + n) || negb (is_stream dev ops d1))
      eqn:Estop.
    + injection Hr as <- <-. right. split; [lia|].
      intros Hs. rewrite Hs in Estop. cbn [negb] in Estop.
      rewrite orb_false_r in Estop. apply Z.leb_le in Estop. lia.
    + apply IH in Hr; [|lia].
      destruct Hr as [Hr|(Hr & Hs)]; [left; exact Hr|].
      right. split; [lia | exact Hs].
  - apply Z.leb_gt in En.
    destruct ((n =? - EAGAIN) && is_blocking dev ops d1) eqn:Eb.
    + destruct (wait_allowed nesting); [|discriminate].
      destruct sched as [|w rest]; [discriminate|].
      apply IH in Hr; [exact Hr | exact Ha].
    + injection Hr as <- <-. left. split; [exact En|].
      intros ->. rewrite Z.eqb_refl in Eb. exact Eb.
Qed.

(** X14.  Whenever [FileHandleDeviceWakeHelper::write] returns, the
    value is either negative, and then it is [-EAGAIN] only for a device
    that is not blocking, or a count between 0 and [size]; and a count
    short of [size] is returned only by a device that is not a stream.  So
    a stream device gets all of the buffer or an error, never a short
    count. *)
Theorem helper_write_is_all_or_error_on_streams :
  forall (nesting fuel : nat) (sched : list (dev -> dev))
         (buffer : list Byte.byte) (d : dev) (r : Z) (d' : dev),
    write EAGAIN dev ops nesting fuel sched buffer d = Returned (r, d') ->
    (r < 0 /\ (r = - EAGAIN -> is_blocking dev ops d' = false)) \/
    (0 <= r <= Z.of_nat (length buffer) /\
     (is_stream dev ops d' = true -> r = Z.of_nat (length buffer))).
Proof.
  intros nesting fuel sched buffer d r d' Hr. unfold write in Hr.
  apply write_loop_result in Hr; [exact Hr | lia].
Qed.

(** X15.  A stream device that is not blocking: when
    [write_nonblocking] takes a part of the buffer and then returns
    [-EAGAIN] for the rest, [write] returns [-EAGAIN]; the bytes the device
    took are not reported to the caller. *)
Theorem helper_write_forgets_partial_progress :
  forall (nesting fuel : nat) (sched : list (dev -> dev))
         (buffer : list Byte.byte) (d d1 d2 : dev) (n1 : Z),
    0 < EAGAIN ->
    write_nonblocking dev ops buffer d = (n1, d1) ->
    0 <= n1 < Z.of_nat (length buffer) ->
    is_stream dev ops d1 = true ->
    write_nonblocking dev ops (skipn (Z.to_nat n1) buffer) d1 = (- EAGAIN, d2) ->
    is_blocking dev ops d2 = false ->
    write EAGAIN dev ops nesting (S (S fuel)) sched buffer d
    = Returned (- EAGAIN, d2).
Proof.
  intros nesting fuel sched buffer d d1 d2 n1 HE H1 Hn1 Hs H2 Hb.
  unfold write. cbn [write_loop]. cbv zeta. rewrite H1. cbn [fst snd].
  assert (E1 : (0 <=? n1) = true) by (apply Z.leb_le; lia).
  assert (E2 : (Z.of_nat (length buffer) - 0 <? n1) = false)
    by (apply Z.ltb_ge; lia).
  assert (E3 : (Z.of_nat (length buffer) <=? 0 + n1) = false)
    by (apply Z.leb_gt; lia).
  rewrite E1, E2, E3, Hs. cbn [negb orb]. rewrite H2. cbn [fst snd].
  assert (E4 : (0 <=? - EAGAIN) = false) by (apply Z.leb_gt; lia).
  rewrite E4, Z.eqb_refl, Hb. reflexivity.
Qed.

(** X16.  [FileHandleDeviceWakeHelper::read] returns what the last
    [read_nonblocking] returned.  It never returns [-EAGAIN] from a device
    that is blocking; on a device that is not blocking, or when the first
    [read_nonblocking] has something other than [-EAGAIN], it returns after
    that one call without waiting.  When the first [read_nonblocking] has
    [-EAGAIN] on a blocking device, [read] calls [_cv_rx.wait()] at the
    caller's nesting level, having entered no critical section itself:
    unless the caller holds exactly one critical section, the assertions
    of [wait_for] fail and the call stops there. *)
Theorem helper_read_returns_eagain_only_when_nonblocking :
  forall (nesting : nat) (sched : list (dev -> dev))
         (buffer : list Byte.byte) (d : dev),
    (forall r b d',
        read EAGAIN dev ops nesting sched buffer d = Returned (r, b, d') ->
        (r = - EAGAIN -> is_blocking dev ops d' = false) /\
        exists buffer0 d0, read_nonblocking dev ops buffer0 d0 = (r, b, d')) /\
    (is_blocking dev ops (snd (read_nonblocking dev ops buffer d)) = false \/
     fst (fst (read_nonblocking dev ops buffer d)) <> - EAGAIN ->
     read EAGAIN dev ops nesting sched buffer d
     = Returned (read_nonblocking dev ops buffer d)) /\
    (is_blocking dev ops (snd (read_nonblocking dev ops buffer d)) = true ->
     fst (fst (read_nonblocking dev ops buffer d)) = - EAGAIN ->
     nesting <> 1%nat ->
     read EAGAIN dev ops nesting sched buffer d = Fault).
Proof.
  intros nesting sched.
  assert (Hna : nesting <> 1%nat -> wait_allowed nesting = false).
  { intros H. unfold wait_allowed, core_util_are_interrupts_enabled.
    destruct nesting as [|[|n]]; [reflexivity | congruence | reflexivity]. }
  induction sched as [|w rest IH]; intros buffer d.
  - cbn [read]. cbv zeta.
    destruct (read_nonblocking dev ops buffer d) as [[n b0] d0] eqn:Er.
    cbn [fst snd].
    destruct ((n =? - EAGAIN) && is_blocking dev ops d0) eqn:Eb.
    + split; [intros ? ? ? H; destruct (wait_allowed nesting);
              discriminate H|].
      apply andb_true_iff in Eb as [En Eb]. apply Z.eqb_eq in En.
      split; [intros [H|H]; congruence|].
      intros _ _ Hn. rewrite (Hna Hn). reflexivity.
    + split; [|split; [reflexivity|]].
      * intros r b d' H. injection H as <- <- <-. split; [|eauto].
        intros ->. rewrite Z.eqb_refl in Eb. exact Eb.
      * intros Hb ->. rewrite Z.eqb_refl, Hb in Eb. discriminate Eb.
  - cbn [read]. cbv zeta.
    destruct (read_nonblocking dev ops buffer d) as [[n b0] d0] eqn:Er.
    cbn [fst snd].
    destruct ((n =? - EAGAIN) && is_blocking dev ops d0) eqn:Eb.
    + destruct (IH b0 (w d0)) as (H1 & _).
      apply andb_true_iff in Eb as [En Eb]. apply Z.eqb_eq in En.
      split; [|split].
      * destruct (wait_allowed nesting); [exact H1|].
        intros ? ? ? H; discriminate H.
      * intros [H|H]; congruence.
      * intros _ _ Hn. rewrite (Hna Hn). reflexivity.
    + split; [|split; [reflexivity|]].
      * intros r b d' H. injection H as <- <- <-. split; [|eauto].
        intros ->. rewrite Z.eqb_refl in Eb. exact Eb.
      * intros Hb ->. rewrite Z.eqb_refl, Hb in Eb. discriminate Eb.
Qed.

Lemma h_wake_mask events h :
  h_poll_wake_events dev (h_wake dev events h)
  = Z.land (h_poll_wake_events dev h) (Z.lnot events).
Proof.
  unfold h_wake. cbv zeta.
  set (h1 := if Z.land events (Z.lor POLLIN POLLERR) =? 0 then h else _).
  set (h2 := if Z.land events (Z.lor (Z.lor POLLOUT POLLHUP) POLLERR) =? 0
             then h1 else _).
  assert (H2 : h_poll_wake_events dev h2 = h_poll_wake_events dev h).
  { subst h2 h1.
    destruct (Z.land events (Z.lor POLLIN POLLERR) =? 0),
      (Z.land events (Z.lor (Z.lor POLLOUT POLLHUP) POLLERR) =? 0);
      reflexivity. }
  destruct (Z.land (h_poll_wake_events dev h2) events =? 0) eqn:E.
  - apply Z.eqb_eq in E. rewrite H2 in E.
    rewrite (UART_Facts.land_lnot_disjoint _ _ E).
    destruct (h_sigio_cb dev h2); simpl; exact H2.
  - rewrite <- H2. destruct (h_sigio_cb dev _); reflexivity.
Qed.

Lemma h_wake_polls events h :
  wake_polls (h_calls dev (h_wake dev events h))
  = wake_polls (h_calls dev h)
    ++ (if Z.land (h_poll_wake_events dev h) events =? 0 then []
        else [events]).
Proof.
  unfold h_wake, wake_polls. cbv zeta.
  destruct (Z.land events (Z.lor POLLIN POLLERR) =? 0),
    (Z.land events (Z.lor (Z.lor POLLOUT POLLHUP) POLLERR) =? 0);
    cbn [h_poll_wake_events h_add_call];
    destruct (Z.land (h_poll_wake_events dev h) events =? 0);
    cbn [h_sigio_cb h_add_call h_set_poll_wake_events];
    destruct (h_sigio_cb dev h);
    cbn [h_calls h_add_call h_set_poll_wake_events];
    rewrite ?flat_map_app; simpl; rewrite ?app_nil_r, <- ?app_assoc;
    reflexivity.
Qed.

Lemma land_lor_nonzero m a e : Z.land e a <> 0 -> Z.land (Z.lor m a) e <> 0.
Proof.
  intros H. apply UART_Facts.land_nonzero_bit.
  apply UART_Facts.land_nonzero_bit in H as (n & Hn).
  exists n. rewrite Z.lor_spec.
  apply andb_true_iff in Hn as [H1 H2]. rewrite H1, H2, orb_true_r.
  reflexivity.
Qed.

Lemma land_lnot_self m e : Z.land (Z.land m (Z.lnot e)) e = 0.
Proof.
  apply Z.bits_inj'. intros n Hn.
  rewrite !Z.land_spec, Z.lnot_spec, Z.bits_0 by assumption.
  destruct (Z.testbit m n), (Z.testbit e n); reflexivity.
Qed.

(** X17.  Arming and firing in [FileHandleDeviceWakeHelper].  When
    [poll_with_wake(events, true)] finds none of the requested events
    ready, the next [wake(e)] with an event among those requested calls
    [wake_poll(e)] once, and a further [wake(e)] does not call it again;
    [poll_with_wake] with a requested event ready, or with [wake] false,
    arms nothing.  Neither function touches the device. *)
Theorem helper_arm_then_wake_fires_once :
  forall (events e : Z) (h : helper dev),
    (Z.land (dev_poll dev ops events (device dev h)) events = 0 ->
     Z.land e events <> 0 ->
     let h1 := snd (h_poll_with_wake dev ops events true h) in
     let h2 := h_wake dev e h1 in
     let h3 := h_wake dev e h2 in
     wake_polls (h_calls dev h2) = wake_polls (h_calls dev h) ++ [e] /\
     wake_polls (h_calls dev h3) = wake_polls (h_calls dev h2) /\
     device dev h3 = device dev h) /\
    (Z.land (dev_poll dev ops events (device dev h)) events <> 0 ->
     snd (h_poll_with_wake dev ops events true h) = h) /\
    snd (h_poll_with_wake dev ops events false h) = h /\
    fst (h_poll_with_wake dev ops events true h)
    = dev_poll dev ops events (device dev h).
Proof.
  intros events e h.
  assert (Hdev : forall ev x,
             device dev (h_wake dev ev x) = device dev x).
  { intros ev x. unfold h_wake. cbv zeta.
    destruct (Z.land ev (Z.lor POLLIN POLLERR) =? 0),
      (Z.land ev (Z.lor (Z.lor POLLOUT POLLHUP) POLLERR) =? 0);
      cbn [h_poll_wake_events h_add_call];
      destruct (Z.land (h_poll_wake_events dev x) ev =? 0);
      cbn [h_sigio_cb h_add_call h_set_poll_wake_events];
      destruct (h_sigio_cb dev x); reflexivity. }
  split; [|split; [|split]].
  - intros Hnone He. cbv zeta. unfold h_poll_with_wake. cbv zeta.
    apply Z.eqb_eq in Hnone. rewrite Hnone. cbn [andb snd].
    set (h1 := h_set_poll_wake_events dev _ h).
    assert (Harmed : Z.land (h_poll_wake_events dev h1) e <> 0).
    { subst h1. simpl. apply land_lor_nonzero. exact He. }
    split; [|split].
    + rewrite h_wake_polls. apply Z.eqb_neq in Harmed. rewrite Harmed.
      reflexivity.
    + rewrite h_wake_polls, h_wake_mask, land_lnot_self. simpl.
      apply app_nil_r.
    + rewrite !Hdev. reflexivity.
  - intros Hready. unfold h_poll_with_wake. cbv zeta.
    apply Z.eqb_neq in Hready. rewrite Hready. reflexivity.
  - reflexivity.
  - unfold h_poll_with_wake. cbv zeta.
    destruct (true && _); reflexivity.
Qed.

End WakeHelper.

Lemma helper_write_is_all_or_error_on_streams_witness :
  write 11 (list Byte.byte) queue4 0 5 [] [Byte.x61; Byte.x62; Byte.x63]
    [Byte.x30]
  = Returned (3, [Byte.x30; Byte.x61; Byte.x62; Byte.x63]) /\
  ((3 < 0 /\
    (3 = - 11 ->
     is_blocking _ queue4 [Byte.x30; Byte.x61; Byte.x62; Byte.x63] = false)) \/
   (0 <= 3 <= 3 /\
    (is_stream _ queue4 [Byte.x30; Byte.x61; Byte.x62; Byte.x63] = true ->
     3 = 3))).
Proof.
  split; [reflexivity|].
  exact (helper_write_is_all_or_error_on_streams 11 (list Byte.byte) queue4
           0 5 [] [Byte.x61; Byte.x62; Byte.x63] [Byte.x30]
           3 [Byte.x30; Byte.x61; Byte.x62; Byte.x63] eq_refl).
Defined.

Lemma helper_write_forgets_partial_progress_witness :
  write 11 (list Byte.byte) queue4 0 2 []
    [Byte.x61; Byte.x62; Byte.x63; Byte.x64; Byte.x65; Byte.x66] []
  = Returned (-11, [Byte.x61; Byte.x62; Byte.x63; Byte.x64]).
Proof.
  apply (helper_write_forgets_partial_progress 11 (list Byte.byte) queue4
           0 0 [] [Byte.x61; Byte.x62; Byte.x63; Byte.x64; Byte.x65; Byte.x66]
           [] [Byte.x61; Byte.x62; Byte.x63; Byte.x64]
           [Byte.x61; Byte.x62; Byte.x63; Byte.x64] 4);
    [lia | reflexivity | simpl; lia | reflexivity | reflexivity | reflexivity].
Defined.

(** A read of the empty queue by a caller outside any critical section:
    on the blocking device it stops in the assertion of [wait_for], on the
    non-blocking one it returns [-EAGAIN]. *)
Lemma helper_read_returns_eagain_only_when_nonblocking_witness :
  read 11 (list Byte.byte) queue4_blocking 0 [] [Byte.x00] [] = Fault /\
  read 11 (list Byte.byte) queue4 0 [] [Byte.x00] []
  = Returned (-11, [Byte.x00], []).
Proof.
  split.
  - apply (proj2 (proj2 (helper_read_returns_eagain_only_when_nonblocking
                           11 (list Byte.byte) queue4_blocking
                           0 [] [Byte.x00] [])));
      [reflexivity | reflexivity | discriminate].
  - apply (proj1 (proj2 (helper_read_returns_eagain_only_when_nonblocking
                           11 (list Byte.byte) queue4
                           0 [] [Byte.x00] []))).
    left. reflexivity.
Defined.

End FileHandle_Facts.

(** ** The poll multiplexer: null handles, handles without wake support,
    and the zero timeout *)

Module MbedPoll_More_Facts.
Import MbedPoll MbedPoll_More.

Section Poll.

Context {PE : PollEvents}.
Variable world : Type.

Lemma ready_null (out : list (pollfh world)) :
  POLLNVAL <> 0 ->
  Forall (fun p => fh world p = None -> revents world p = POLLNVAL) out ->
  Exists (fun p => fh world p = None) out ->
  1 <= ready world out.
Proof.
  intros Hnz Hall Hex. induction out as [|p out IH]; [inversion Hex|].
  cbn [ready]. pose proof (MbedPoll_Facts.ready_nonneg world out) as Hn.
  inversion Hall as [|? ? Hp Hrest]; subst.
  inversion Hex as [? ? Hnull|? ? Hlater]; subst.
  - rewrite (Hp Hnull). apply Z.eqb_neq in Hnz. rewrite Hnz. lia.
  - specialize (IH Hrest Hlater). destruct (revents world p =? 0); lia.
Qed.

Lemma exists_null_map (a b : list (pollfh world)) :
  map (fh world) a = map (fh world) b ->
  Exists (fun p => fh world p = None) b ->
  Exists (fun p => fh world p = None) a.
Proof.
  revert b. induction a as [|x a IH]; intros [|y b] Hm Hex;
    try discriminate; [inversion Hex|].
  injection Hm as Hxy Hm.
  inversion Hex as [? ? Hnull|? ? Hlater]; subst.
  - left. congruence.
  - right. eapply IH; eassumption.
Qed.

(** X18.  An array with a null handle never makes [poll] wait: the
    entry gets POLLNVAL, which counts as ready, so for every timeout
    [poll] returns after its first scan, without suspending, a value of at
    least 1. *)
Theorem poll_with_null_handle_returns_at_once :
  forall (platform : Platform world) (fuel : nat) (fhs : list (pollfh world))
         (timeout : Z) (w : world),
    POLLNVAL <> 0 ->
    Exists (fun p => fh world p = None) fhs ->
    exists r,
      poll world platform (S fuel) fhs timeout w = Returned r /\
      scans world r = 1%nat /\ suspensions world r = 0%nat /\
      1 <= ret world r /\
      Forall (fun p => fh world p = None -> revents world p = POLLNVAL)
             (out world r).
Proof.
  intros platform fuel fhs timeout w Hnz Hex.
  unfold poll. cbn [poll_loop]. cbv zeta.
  destruct (MbedPoll_Facts.scan_spec world fhs timeout 0 true w)
    as ((Hfh & Hev & Hnull & Hsub) & Hc).
  set (s := scan world fhs timeout 0 true w) in *.
  rewrite Z.add_0_l in Hc.
  pose proof (ready_null _ Hnz Hnull (exists_null_map _ _ Hfh Hex)) as Hr.
  assert (E : (0 <? snd (fst (fst s))) = true) by (apply Z.ltb_lt; lia).
  rewrite E. cbn [orb]. eexists. split; [reflexivity|]. cbn.
  repeat split; [lia | exact Hnull].
Qed.

Lemma mask_has_nval (p : pollfh world) x :
  Z.land (Z.land x (mask_of world p)) POLLNVAL = Z.land x POLLNVAL.
Proof.
  unfold mask_of. apply Z.bits_inj'. intros n Hn.
  rewrite !Z.land_spec, !Z.lor_spec.
  destruct (Z.testbit x n), (Z.testbit POLLNVAL n),
    (Z.testbit (events world p) n), (Z.testbit POLLERR n),
    (Z.testbit POLLHUP n); reflexivity.
Qed.

Lemma scan_one_flag_false p timeout count w :
  snd (fst (scan_one world p timeout count false w)) = false.
Proof. unfold scan_one. destruct (fh world p); reflexivity. Qed.

Lemma scan_one_legacy p h timeout count all w :
  POLLNVAL <> 0 -> fh world p = Some h -> legacy world h ->
  snd (fst (scan_one world p timeout count all w)) = false.
Proof.
  intros Hnz Hp Hl. unfold scan_one. rewrite Hp.
  destruct all; [|reflexivity]. cbn [fst snd].
  rewrite mask_has_nval, Hl.
  apply Z.eqb_neq in Hnz. rewrite Hnz. reflexivity.
Qed.

Lemma scan_flag_false fhs :
  forall timeout count w,
    snd (fst (scan world fhs timeout count false w)) = false.
Proof.
  induction fhs as [|p fhs IH]; intros timeout count w; [reflexivity|].
  cbn [scan]. cbv zeta. cbn [fst snd].
  rewrite scan_one_flag_false. apply IH.
Qed.

Lemma scan_legacy fhs :
  POLLNVAL <> 0 ->
  Exists (fun p => exists h, fh world p = Some h /\ legacy world h) fhs ->
  forall timeout count all w,
    snd (fst (scan world fhs timeout count all w)) = false.
Proof.
  intros Hnz Hex.
  induction Hex as [p fhs (h & Hp & Hl)|p fhs Hex IH];
    intros timeout count all w; cbn [scan]; cbv zeta; cbn [fst snd].
  - rewrite (scan_one_legacy p h _ _ _ _ Hnz Hp Hl). apply scan_flag_false.
  - apply IH.
Qed.

Lemma poll_loop_without_cv (p1 p2 : Platform world) :
  (forall x, current_time world p1 x = current_time world p2 x) ->
  (forall x, sleep_1ms world p1 x = sleep_1ms world p2 x) ->
  forall fuel fhs timeout finish_time count w ns nsu,
    poll_loop world p1 fuel fhs timeout finish_time count false w ns nsu
    = poll_loop world p2 fuel fhs timeout finish_time count false w ns nsu.
Proof.
  intros Ht Hs. induction fuel as [|fuel IH];
    intros fhs timeout finish_time count w ns nsu; [reflexivity|].
  cbn [poll_loop]. cbv zeta.
  rewrite scan_flag_false, Ht, Hs.
  destruct (_ || _); [reflexivity|].
  destruct (_ && _); [reflexivity|]. apply IH.
Qed.

(** X19.  With a handle in the array that does not support
    [poll_with_wake], [poll] never waits on the condition variable: its
    outcome is the same on any two platforms that agree on the clock and on
    the 1 ms sleep, whatever their [wait] and [wait_until] do. *)
Theorem poll_with_legacy_handle_never_waits_on_cv :
  forall (p1 p2 : Platform world) (fuel : nat) (fhs : list (pollfh world))
         (timeout : Z) (w : world),
    POLLNVAL <> 0 ->
    (forall x, current_time world p1 x = current_time world p2 x) ->
    (forall x, sleep_1ms world p1 x = sleep_1ms world p2 x) ->
    Exists (fun p => exists h, fh world p = Some h /\ legacy world h) fhs ->
    poll world p1 fuel fhs timeout w = poll world p2 fuel fhs timeout w.
Proof.
  intros p1 p2 fuel fhs timeout w Hnz Ht Hs Hex. unfold poll.
  rewrite Ht. destruct fuel as [|fuel]; [reflexivity|].
  cbn [poll_loop]. cbv zeta.
  rewrite (scan_legacy fhs Hnz Hex), Ht, Hs.
  destruct (_ || _); [reflexivity|].
  destruct (_ && _); [reflexivity|].
  apply poll_loop_without_cv; assumption.
Qed.

Lemma scan_one_quiet p count all w :
  (forall h, fh world p = Some h -> quiet world h) ->
  snd (scan_one world p 0 count all w) = w.
Proof.
  intros Hq. unfold scan_one. destruct (fh world p) as [h|]; [|reflexivity].
  destruct (Hq h eq_refl) as (Hw & Hp).
  rewrite Z.eqb_refl. cbn [negb]. rewrite andb_false_r.
  destruct all; cbn [fst snd].
  - destruct (Z.land _ POLLNVAL =? 0); cbn [fst snd negb].
    + apply Hw.
    + rewrite Hp. apply Hw.
  - apply Hp.
Qed.

Lemma scan_quiet fhs :
  Forall (fun p => forall h, fh world p = Some h -> quiet world h) fhs ->
  forall count all w, snd (scan world fhs 0 count all w) = w.
Proof.
  induction 1 as [|p fhs Hp Hrest IH]; intros count all w; [reflexivity|].
  cbn [scan]. cbv zeta. cbn [fst snd].
  rewrite IH. apply scan_one_quiet, Hp.
Qed.

(** X20.  A zero-timeout [poll] arms no wake-up: every handle is
    queried with [wake] false, so when the queries of the handles have no
    side effect of their own, [poll] leaves the devices exactly as they
    were. *)
Theorem poll_zero_timeout_leaves_devices_unchanged :
  forall (platform : Platform world) (fuel : nat) (fhs : list (pollfh world))
         (w : world),
    Forall (fun p => forall h, fh world p = Some h -> quiet world h) fhs ->
    exists r,
      poll world platform (S fuel) fhs 0 w = Returned r /\
      final world r = w /\ suspensions world r = 0%nat.
Proof.
  intros platform fuel fhs w Hq. unfold poll. cbn [poll_loop]. cbv zeta.
  rewrite Z.eqb_refl, orb_true_r.
  eexists. split; [reflexivity|]. cbn. split; [|reflexivity].
  apply scan_quiet, Hq.
Qed.

End Poll.

Import Scenarios.

#[local] Existing Instance mbed_poll_h.
#[local] Existing Instance small_uart_config.

Lemma poll_with_null_handle_returns_at_once_witness :
  exists r,
    poll (UART.UARTSerial * UART.UARTSerial) b_receives 1
      [ {| fh := Some dev_A; events := 0x0001; revents := 0 |};
        {| fh := None; events := 0x0001; revents := 0 |} ]
      (-1) (fresh, fresh) = Returned r /\
    map (revents _) (out _ r) = [0; 0x4000] /\ ret _ r = 1.
Proof.
  destruct (poll_with_null_handle_returns_at_once (PE := mbed_poll_h)
              (UART.UARTSerial * UART.UARTSerial)
              b_receives 0
              [ {| fh := Some dev_A; events := 0x0001; revents := 0 |};
                {| fh := None; events := 0x0001; revents := 0 |} ]
              (-1) (fresh, fresh)
              ltac:(vm_compute; discriminate)
              ltac:(right; left; reflexivity))
    as (r & Hr & _).
  exists r. split; [exact Hr|].
  vm_compute in Hr. injection Hr as <-. split; reflexivity.
Defined.

(** A handle of the original kind: [poll_with_wake] is not overridden. *)
Lemma old_style_is_legacy :
  legacy (UART.UARTSerial * UART.UARTSerial)
    {| fh_poll := fh_poll _ dev_A;
       fh_poll_with_wake := fun _ _ w => (0x4000, w) |}.
Proof. intros mask arm w. reflexivity. Qed.

Lemma poll_with_legacy_handle_never_waits_on_cv_witness :
  poll (UART.UARTSerial * UART.UARTSerial) b_receives 3
    [ {| fh := Some {| fh_poll := fh_poll _ dev_A;
                       fh_poll_with_wake := fun _ _ w => (0x4000, w) |};
         events := 0x0001; revents := 0 |} ]
    (-1) (fresh, fresh)
  = poll (UART.UARTSerial * UART.UARTSerial)
      {| current_time := fun _ => 0;
         wait_until := fun _ _ => Fault;
         wait := fun _ => Fault;
         sleep_1ms := fun w => w |} 3
      [ {| fh := Some {| fh_poll := fh_poll _ dev_A;
                         fh_poll_with_wake := fun _ _ w => (0x4000, w) |};
           events := 0x0001; revents := 0 |} ]
      (-1) (fresh, fresh).
Proof.
  apply (poll_with_legacy_handle_never_waits_on_cv (PE := mbed_poll_h)
           (UART.UARTSerial * UART.UARTSerial));
    [vm_compute; discriminate | reflexivity | reflexivity|].
  left. eexists. split; [reflexivity | exact old_style_is_legacy].
Defined.

Lemma dev_A_quiet : quiet (UART.UARTSerial * UART.UARTSerial) dev_A.
Proof. split; intros mask [a b]; reflexivity. Qed.

Lemma dev_B_quiet : quiet (UART.UARTSerial * UART.UARTSerial) dev_B.
Proof. split; intros mask [a b]; reflexivity. Qed.

Lemma poll_zero_timeout_leaves_devices_unchanged_witness :
  exists r,
    poll (UART.UARTSerial * UART.UARTSerial) b_receives 1 both_for_input 0 (fresh, fresh)
    = Returned r /\
    final _ r = (fresh, fresh).
Proof.
  destruct (poll_zero_timeout_leaves_devices_unchanged (PE := mbed_poll_h)
              (UART.UARTSerial * UART.UARTSerial) b_receives 0 both_for_input
              (fresh, fresh)) as (r & Hr & Hf & _).
  - constructor; [intros h Hh; injection Hh as <-; exact dev_A_quiet|].
    constructor; [intros h Hh; injection Hh as <-; exact dev_B_quiet|].
    constructor.
  - exists r. split; [exact Hr | exact Hf].
Defined.

End MbedPoll_More_Facts.

(** ** ns_slist.h *)

Module NsSlist_Facts.
Import NsSlist.

(** *** The representation *)

Lemma ptr_eqb_eq p q : ptr_eqb p q = true <-> p = q.
Proof.
  destruct p as [a|], q as [b|]; simpl; try (split; congruence).
  rewrite Z.eqb_eq. split; congruence.
Qed.

Lemma loc_eqb_eq p q : loc_eqb p q = true -> p = q.
Proof.
  destruct p, q; simpl; try discriminate; intros H;
    apply Z.eqb_eq in H; congruence.
Qed.

Lemma lsegb_sound lk : forall l t, lsegb lk l t = true -> lseg lk l t.
Proof.
  induction l as [|a l IH]; intros t H; [exact I|].
  simpl in H. apply andb_true_iff in H as [H1 H2].
  destruct (lk !! a) as [n|] eqn:E; [|discriminate].
  apply ptr_eqb_eq in H1. subst n. split; [exact E | apply IH, H2].
Qed.

Lemma slistb_sound m h l : slistb m h l = true -> slist m h l.
Proof.
  unfold slistb. intros H.
  apply andb_true_iff in H as [H H3]. apply andb_true_iff in H as [H1 H2].
  apply bool_decide_eq_true in H1.
  split; [exact H1|]. split; [|apply lsegb_sound, H3].
  destruct (heads m !! h) as [[f p]|]; [|discriminate].
  apply andb_true_iff in H2 as [Hf Hp]. simpl in Hf, Hp.
  apply ptr_eqb_eq in Hf. destruct p as [p|]; [|discriminate].
  apply loc_eqb_eq in Hp. congruence.
Qed.

Lemma lseg_frame lk lk' l t :
  (forall x, x ∈ l -> lk' !! x = lk !! x) -> lseg lk l t -> lseg lk' l t.
Proof.
  induction l as [|a l IH]; intros Hf H; [exact I|].
  destruct H as [Ha Hl]. split.
  - rewrite Hf by left. exact Ha.
  - apply IH; [|exact Hl]. intros x Hx. apply Hf. right. exact Hx.
Qed.

Lemma hd_or_app l1 l2 t : hd_or (l1 ++ l2) t = hd_or l1 (hd_or l2 t).
Proof. destruct l1; reflexivity. Qed.

Lemma lseg_app lk l1 l2 t :
  lseg lk (l1 ++ l2) t <-> lseg lk l1 (hd_or l2 t) /\ lseg lk l2 t.
Proof.
  induction l1 as [|a l1 IH]; simpl; [tauto|].
  rewrite IH, hd_or_app. tauto.
Qed.

Lemma lseg_alive lk l t x : lseg lk l t -> x ∈ l -> is_Some (lk !! x).
Proof.
  induction l as [|a l IH]; intros H Hx; [inversion Hx|].
  destruct H as [Ha Hl].
  apply elem_of_cons in Hx as [->|Hx]; [eauto | apply IH; assumption].
Qed.

(** All the entries of a list are alive, so there are no more of them than
    links. *)
Lemma lseg_length lk l t : NoDup l -> lseg lk l t -> (length l <= size lk)%nat.
Proof.
  intros Hnd Hl.
  rewrite <- (size_list_to_set (C := gset Z) l Hnd), <- size_dom.
  apply subseteq_size. intros x Hx. apply elem_of_list_to_set in Hx.
  apply elem_of_dom. eapply lseg_alive; eassumption.
Qed.

Lemma last_slot_snoc h l e : last_slot h (l ++ [e]) = NextOf e.
Proof. unfold last_slot. rewrite last_snoc. reflexivity. Qed.

Lemma last_slot_cons h a b l : last_slot h (a :: b :: l) = last_slot h (b :: l).
Proof. reflexivity. Qed.

Lemma head_snoc (l : list Z) e : head (l ++ [e]) = Some (hd e l).
Proof. destruct l; reflexivity. Qed.

(** The memory operations on what is alive. *)
Lemma set_next_ok e v m v0 :
  links m !! e = Some v0 ->
  set_next e v m = Returned (with_links (<[e := v]> (links m)) m).
Proof. intros H. unfold set_next. rewrite H. reflexivity. Qed.

Lemma set_first_entry_ok h v m f p :
  heads m !! h = Some {| first_entry := f; last_nextptr := p |} ->
  set_first_entry h v m
  = Returned (with_heads (<[h := {| first_entry := v; last_nextptr := p |}]>
                            (heads m)) m).
Proof. intros H. unfold set_first_entry. rewrite H. reflexivity. Qed.

Lemma set_last_nextptr_ok h v m f p :
  heads m !! h = Some {| first_entry := f; last_nextptr := p |} ->
  set_last_nextptr h v m
  = Returned (with_heads (<[h := {| first_entry := f; last_nextptr := v |}]>
                            (heads m)) m).
Proof. intros H. unfold set_last_nextptr. rewrite H. reflexivity. Qed.

Lemma demo_1000 : slist demo 1000 [10; 20; 30].
Proof. apply slistb_sound. vm_compute. reflexivity. Qed.

Lemma demo_2000 : slist demo 2000 [50; 60].
Proof. apply slistb_sound. vm_compute. reflexivity. Qed.

(** X21.  [ns_slist_add_to_end] on a well-formed list, with an entry
    that is alive and not on it: the entry becomes the last one behind the
    others, in their order.  Only this head, the link of the new entry and
    the link of the former last entry are written. *)
Theorem add_to_end_appends :
  forall (m : memory) (h : Z) (l : list Z) (e : Z),
    slist m h l -> e ∉ l -> is_Some (links m !! e) ->
    exists m',
      ns_slist_add_to_end_ h e m = Returned m' /\
      slist m' h (l ++ [e]) /\
      frame m m' h (e :: match last l with Some z => [z] | None => [] end).
Proof.
  intros m h l e (Hnd & Hh & Hl) He [v0 Hv0].
  unfold ns_slist_add_to_end_.
  rewrite (set_next_ok _ _ _ _ Hv0). cbn [obind].
  unfold get_head. cbn [with_links heads]. rewrite Hh. cbn [deref obind].
  cbn [last_nextptr].
  assert (Hnd' : NoDup (l ++ [e])).
  { apply NoDup_app. split; [exact Hnd|]. split; [|apply NoDup_singleton].
    intros x Hx Hxe. apply list_elem_of_singleton in Hxe as ->. contradiction. }
  destruct (last l) as [z|] eqn:Hlast.
  - (* the list is not empty: the former last entry's link is written *)
    apply last_Some in Hlast as (l0 & ->).
    unfold last_slot at 1. rewrite last_snoc. cbn [store].
    assert (Hze : z <> e).
    { intros ->. apply He, elem_of_app. right. left. }
    apply lseg_app in Hl as [Hl0 Hz]. destruct Hz as [Hz _]. simpl in Hz.
    erewrite set_next_ok
      by (cbn [with_links links]; rewrite lookup_insert_ne by congruence;
          exact Hz).
    cbn [obind].
    erewrite set_last_nextptr_ok by (cbn [with_links heads]; exact Hh).
    eexists. split; [reflexivity|]. split; [|split; [|split]].
    + split; [exact Hnd'|]. split.
      * cbn [with_heads with_links heads]. rewrite lookup_insert_eq.
        rewrite last_slot_snoc, head_snoc.
        destruct l0; reflexivity.
      * cbn [with_heads with_links links].
        apply lseg_app. split; [apply lseg_app; split|].
        -- eapply lseg_frame; [|exact Hl0]. intros x Hx.
           assert (x <> z).
           { intros ->. apply NoDup_app in Hnd as (_ & Hd & _).
             apply (Hd z Hx). left. }
           assert (x <> e).
           { intros ->. apply He, elem_of_app. left. exact Hx. }
           rewrite !lookup_insert_ne by congruence. reflexivity.
        -- split; [|exact I]. simpl. apply lookup_insert_eq.
        -- split; [|exact I]. simpl.
           rewrite lookup_insert_ne by congruence. apply lookup_insert_eq.
    + intros h' Hh'. cbn [with_heads with_links heads].
      apply lookup_insert_ne. congruence.
    + intros x Hx. cbn [with_heads with_links links].
      rewrite !lookup_insert_ne; [reflexivity| |];
        intros ->; apply Hx; [left | right; left].
    + intros x. cbn [with_heads with_links links].
      destruct (decide (x = z)) as [->|Hxz];
        [rewrite lookup_insert_eq, Hz; split; eauto|].
      rewrite lookup_insert_ne by congruence.
      destruct (decide (x = e)) as [->|Hxe];
        [rewrite lookup_insert_eq, Hv0; split; eauto|].
      rewrite lookup_insert_ne by congruence. reflexivity.
  - (* the list is empty: the head's [first_entry] is written *)
    apply last_None in Hlast. subst l.
    unfold last_slot at 1. cbn [last store].
    erewrite set_first_entry_ok by (cbn [with_links heads]; exact Hh).
    cbn [obind].
    erewrite set_last_nextptr_ok
      by (cbn [with_heads with_links heads]; apply lookup_insert_eq).
    eexists. split; [reflexivity|]. split; [|split; [|split]].
    + split; [exact Hnd'|]. split.
      * cbn [with_heads with_links heads]. rewrite lookup_insert_eq.
        reflexivity.
      * cbn [with_heads with_links links]. split; [|exact I].
        apply lookup_insert_eq.
    + intros h' Hh'. cbn [with_heads with_links heads].
      rewrite !lookup_insert_ne by congruence. reflexivity.
    + intros x Hx. cbn [with_heads with_links links].
      apply lookup_insert_ne. intros ->. apply Hx. left.
    + intros x. cbn [with_heads with_links links].
      destruct (decide (x = e)) as [->|Hxe];
        [rewrite lookup_insert_eq, Hv0; split; eauto|].
      rewrite lookup_insert_ne by congruence. reflexivity.
Qed.

Lemma add_to_end_appends_witness :
  exists m',
    ns_slist_add_to_end_ 1000 40 demo = Returned m' /\
    slist m' 1000 [10; 20; 30; 40] /\
    slist m' 2000 [50; 60].
Proof.
  destruct (add_to_end_appends demo 1000 [10; 20; 30] 40 demo_1000)
    as (m' & Hr & Hl & Hf).
  - intros H. repeat (apply elem_of_cons in H as [H|H]; [discriminate H|]).
    inversion H.
  - eexists. reflexivity.
  - exists m'. split; [exact Hr|]. split; [exact Hl|].
    vm_compute in Hr. injection Hr as <-.
    apply slistb_sound. vm_compute. reflexivity.
Defined.

Lemma hd_or_None l : hd_or l None = head l.
Proof. destruct l; reflexivity. Qed.

Lemma not_elem_of_cons_ne (x a : Z) l : x ∉ a :: l -> x <> a /\ x ∉ l.
Proof. intros H. split; [intros ->; apply H; left | intros Hx; apply H; right; exact Hx]. Qed.

(** X22.  Insertion at a position.  [ns_slist_add_to_start] puts
    a live entry that is not on the list before all others;
    [ns_slist_add_after] puts it directly behind a given entry of the list.
    The order of the entries already there is kept, and the tail pointer
    follows when the new entry becomes the last. *)
Theorem add_to_start_and_add_after_insert :
  forall (m : memory) (h e : Z),
    is_Some (links m !! e) ->
    (forall l,
        slist m h l -> e ∉ l ->
        exists m',
          ns_slist_add_to_start_ h e m = Returned m' /\
          slist m' h (e :: l) /\ frame m m' h [e]) /\
    (forall pre current post,
        slist m h (pre ++ current :: post) -> e ∉ pre ++ current :: post ->
        exists m',
          ns_slist_add_after_ h current e m = Returned m' /\
          slist m' h (pre ++ current :: e :: post) /\
          frame m m' h [e; current]).
Proof.
  intros m h e [v0 Hv0]. split.
  - intros l (Hnd & Hh & Hl) He.
    unfold ns_slist_add_to_start_, get_head. rewrite Hh. cbn [deref obind].
    cbn [first_entry].
    rewrite (set_next_ok _ _ _ _ Hv0). cbn [obind].
    assert (Hl' : lseg (<[e := head l]> (links m)) (e :: l) None).
    { split; [rewrite hd_or_None; apply lookup_insert_eq|].
      eapply lseg_frame; [|exact Hl]. intros x Hx.
      apply lookup_insert_ne. intros ->. contradiction. }
    assert (Hnd' : NoDup (e :: l)) by (apply NoDup_cons; split; assumption).
    destruct l as [|a l]; cbn [head].
    + erewrite set_last_nextptr_ok by (cbn [with_links heads]; exact Hh).
      cbn [obind].
      erewrite set_first_entry_ok
        by (cbn [with_heads with_links heads]; apply lookup_insert_eq).
      eexists. split; [reflexivity|]. split; [|split; [|split]].
      * split; [exact Hnd'|]. split; [|exact Hl'].
        cbn [with_heads with_links heads]. rewrite lookup_insert_eq.
        reflexivity.
      * intros h' Hh'. cbn [with_heads with_links heads].
        rewrite !lookup_insert_ne by congruence. reflexivity.
      * intros x Hx. cbn [with_heads with_links links].
        apply lookup_insert_ne. intros ->. apply Hx. left.
      * intros x. cbn [with_heads with_links links].
        destruct (decide (x = e)) as [->|Hxe];
          [rewrite lookup_insert_eq, Hv0; split; eauto|].
        rewrite lookup_insert_ne by congruence. reflexivity.
    + cbn [obind].
      erewrite set_first_entry_ok by (cbn [with_links heads]; exact Hh).
      eexists. split; [reflexivity|]. split; [|split; [|split]].
      * split; [exact Hnd'|]. split; [|exact Hl'].
        cbn [with_heads with_links heads]. rewrite lookup_insert_eq.
        reflexivity.
      * intros h' Hh'. cbn [with_heads with_links heads].
        rewrite !lookup_insert_ne by congruence. reflexivity.
      * intros x Hx. cbn [with_heads with_links links].
        apply lookup_insert_ne. intros ->. apply Hx. left.
      * intros x. cbn [with_heads with_links links].
        destruct (decide (x = e)) as [->|Hxe];
          [rewrite lookup_insert_eq, Hv0; split; eauto|].
        rewrite lookup_insert_ne by congruence. reflexivity.
  - intros pre c post (Hnd & Hh & Hl) He.
    assert (Hce : c <> e).
    { intros ->. apply He, elem_of_app. right. left. }
    apply lseg_app in Hl as [Hpre Hc]. destruct Hc as [Hc Hpost].
    unfold ns_slist_add_after_, get_next. rewrite Hc. cbn [deref obind].
    rewrite (set_next_ok _ _ _ _ Hv0). cbn [obind].
    assert (Hnd' : NoDup (pre ++ c :: e :: post)).
    { assert (Hperm : pre ++ c :: e :: post ≡ₚ e :: (pre ++ c :: post)).
      { change (pre ++ c :: e :: post) with (pre ++ [c] ++ e :: post).
        rewrite app_assoc, <- Permutation_middle, <- app_assoc. reflexivity. }
      rewrite Hperm. apply NoDup_cons. split; assumption. }
    assert (Hlk : lseg (<[c := Some e]> (<[e := hd_or post None]> (links m)))
                       (pre ++ c :: e :: post) None).
    { apply lseg_app. split; [|split; [|split]].
      - eapply lseg_frame; [|exact Hpre]. intros x Hx.
        assert (x <> c).
        { intros ->. apply NoDup_app in Hnd as (_ & Hd & _).
          apply (Hd c Hx). left. }
        assert (x <> e).
        { intros ->. apply He, elem_of_app. left. exact Hx. }
        rewrite !lookup_insert_ne by congruence. reflexivity.
      - apply lookup_insert_eq.
      - simpl. rewrite lookup_insert_ne by congruence. apply lookup_insert_eq.
      - eapply lseg_frame; [|exact Hpost]. intros x Hx.
        assert (x <> c).
        { intros ->. apply NoDup_app in Hnd as (_ & _ & Hd).
          apply NoDup_cons in Hd as [Hd _]. contradiction. }
        assert (x <> e).
        { intros ->. apply He, elem_of_app. right. right. exact Hx. }
        rewrite !lookup_insert_ne by congruence. reflexivity. }
    assert (Hframe : forall hs,
               (forall h', h' <> h -> hs !! h' = heads m !! h') ->
               frame m {| heads := hs;
                          links := <[c := Some e]>
                                     (<[e := hd_or post None]> (links m)) |}
                     h [e; c]).
    { intros hs Hhs. split; [exact Hhs|]. split.
      - intros x Hx. cbn [links].
        apply not_elem_of_cons_ne in Hx as [Hxe Hx].
        apply not_elem_of_cons_ne in Hx as [Hxc _].
        rewrite !lookup_insert_ne by congruence. reflexivity.
      - intros x. cbn [links].
        destruct (decide (x = c)) as [->|Hxc];
          [rewrite lookup_insert_eq, Hc; split; eauto|].
        rewrite lookup_insert_ne by congruence.
        destruct (decide (x = e)) as [->|Hxe];
          [rewrite lookup_insert_eq, Hv0; split; eauto|].
        rewrite lookup_insert_ne by congruence. reflexivity. }
    destruct post as [|b post]; cbn [hd_or] in *.
    + erewrite set_last_nextptr_ok by (cbn [with_links heads]; exact Hh).
      cbn [obind].
      erewrite set_next_ok
        by (cbn [with_heads with_links links];
            rewrite lookup_insert_ne by congruence; exact Hc).
      eexists. split; [reflexivity|]. split.
      * split; [exact Hnd'|]. split; [|exact Hlk].
        cbn [with_heads with_links heads]. rewrite lookup_insert_eq.
        f_equal. f_equal.
        -- destruct pre; reflexivity.
        -- f_equal. change (pre ++ [c; e]) with (pre ++ [c] ++ [e]).
           rewrite app_assoc. symmetry. apply last_slot_snoc.
      * apply Hframe. intros h' Hh'. cbn [with_heads with_links heads].
        apply lookup_insert_ne. congruence.
    + cbn [obind].
      erewrite set_next_ok
        by (cbn [with_links links];
            rewrite lookup_insert_ne by congruence; exact Hc).
      eexists. split; [reflexivity|]. split.
      * split; [exact Hnd'|]. split; [|exact Hlk].
        cbn [with_heads with_links heads]. rewrite Hh.
        f_equal. f_equal.
        -- destruct pre; reflexivity.
        -- f_equal. unfold last_slot.
           rewrite !last_app. reflexivity.
      * apply Hframe. reflexivity.
Qed.

Lemma add_to_start_and_add_after_insert_witness :
  (exists m', ns_slist_add_to_start_ 1000 40 demo = Returned m' /\
              slist m' 1000 [40; 10; 20; 30]) /\
  (exists m', ns_slist_add_after_ 1000 20 40 demo = Returned m' /\
              slist m' 1000 [10; 20; 40; 30]).
Proof.
  assert (Hlive : is_Some (links demo !! 40)) by (eexists; reflexivity).
  assert (Hnew : forall l, l = [10; 20; 30] -> 40 ∉ l).
  { intros l -> H.
    repeat (apply elem_of_cons in H as [H|H]; [discriminate H|]).
    inversion H. }
  destruct (add_to_start_and_add_after_insert demo 1000 40 Hlive) as [H1 H2].
  split.
  - destruct (H1 [10; 20; 30] demo_1000 (Hnew _ eq_refl)) as (m' & Hr & Hl & _).
    exists m'. split; assumption.
  - destruct (H2 [10] 20 [30] demo_1000 (Hnew _ eq_refl)) as (m' & Hr & Hl & _).
    exists m'. split; assumption.
Defined.

Lemma frame_links_only m lk' h touched :
  (forall x, x ∉ touched -> lk' !! x = links m !! x) ->
  (forall x, is_Some (lk' !! x) <-> is_Some (links m !! x)) ->
  forall hs,
    (forall h', h' <> h -> hs !! h' = heads m !! h') ->
    frame m {| heads := hs; links := lk' |} h touched.
Proof. intros H1 H2 hs H3. split; [exact H3|]. split; assumption. Qed.

(** X23.  Removal at a position.  [ns_slist_remove_first] returns
    the first entry and leaves the rest of the list, in its order;
    [ns_slist_remove_next] returns the entry that follows a given entry of
    the list and closes the gap.  On an empty list, and behind the last
    entry, they return NULL and change nothing.  The link of the removed
    entry is filled with [NS_SLIST_POISON]; the tail pointer follows when
    the last entry is the one removed. *)
Theorem remove_first_and_remove_next_unlink :
  forall (m : memory) (h : Z),
    (forall l,
        slist m h l ->
        exists m',
          ns_slist_remove_first_ h m = Returned (head l, m') /\
          slist m' h (tail l) /\
          (l = [] -> m' = m) /\
          (forall a, head l = Some a -> links m' !! a = Some NS_SLIST_POISON) /\
          frame m m' h (match head l with Some a => [a] | None => [] end)) /\
    (forall pre before post,
        slist m h (pre ++ before :: post) ->
        exists m',
          ns_slist_remove_next_ h before m = Returned (head post, m') /\
          slist m' h (pre ++ before :: tail post) /\
          (post = [] -> m' = m) /\
          (forall a, head post = Some a ->
                     links m' !! a = Some NS_SLIST_POISON) /\
          frame m m' h
                (before :: match head post with Some a => [a] | None => [] end)).
Proof.
  intros m h. split.
  - intros l (Hnd & Hh & Hl).
    unfold ns_slist_remove_first_, get_head. rewrite Hh. cbn [deref obind].
    cbn [first_entry].
    destruct l as [|a l]; cbn [head tail].
    { exists m. split; [reflexivity|]. split; [repeat split; assumption|].
      split; [reflexivity|]. split; [discriminate|].
      split; [reflexivity|]. split; reflexivity. }
    destruct Hl as [Ha Hl]. apply NoDup_cons in Hnd as [Hal Hnd].
    unfold get_next. rewrite Ha. cbn [deref obind].
    assert (Hlk : lseg (<[a := NS_SLIST_POISON]> (links m)) l None).
    { eapply lseg_frame; [|exact Hl]. intros x Hx.
      apply lookup_insert_ne. intros ->. contradiction. }
    assert (Hfr : forall hs,
               (forall h', h' <> h -> hs !! h' = heads m !! h') ->
               frame m {| heads := hs;
                          links := <[a := NS_SLIST_POISON]> (links m) |} h [a]).
    { apply frame_links_only.
      - intros x Hx. apply lookup_insert_ne. intros ->. apply Hx. left.
      - intros x. destruct (decide (x = a)) as [->|Hxa];
          [rewrite lookup_insert_eq, Ha; split; eauto|].
        rewrite lookup_insert_ne by congruence. reflexivity. }
    destruct l as [|b l]; cbn [hd_or].
    + erewrite set_last_nextptr_ok by exact Hh. cbn [obind].
      erewrite set_first_entry_ok
        by (cbn [with_heads heads]; apply lookup_insert_eq).
      cbn [obind]. unfold ns_slist_link_init_.
      erewrite set_next_ok by (cbn [with_heads links]; exact Ha).
      cbn [obind]. eexists. split; [reflexivity|].
      split; [|split; [discriminate|split]].
      * split; [exact Hnd|]. split; [|exact I].
        cbn [with_heads with_links heads]. rewrite lookup_insert_eq.
        reflexivity.
      * intros a' Ha'. injection Ha' as <-.
        cbn [with_heads with_links links]. apply lookup_insert_eq.
      * apply Hfr. intros h' Hh'. cbn [with_heads with_links heads].
        rewrite !lookup_insert_ne by congruence. reflexivity.
    + cbn [obind].
      erewrite set_first_entry_ok by exact Hh.
      cbn [obind]. unfold ns_slist_link_init_.
      erewrite set_next_ok by (cbn [with_heads links]; exact Ha).
      cbn [obind]. eexists. split; [reflexivity|].
      split; [|split; [discriminate|split]].
      * split; [exact Hnd|]. split; [|exact Hlk].
        cbn [with_heads with_links heads]. rewrite lookup_insert_eq.
        reflexivity.
      * intros a' Ha'. injection Ha' as <-.
        cbn [with_heads with_links links]. apply lookup_insert_eq.
      * apply Hfr. intros h' Hh'. cbn [with_heads with_links heads].
        rewrite !lookup_insert_ne by congruence. reflexivity.
  - intros pre b post (Hnd & Hh & Hl).
    apply lseg_app in Hl as [Hpre Hb]. destruct Hb as [Hb Hpost].
    unfold ns_slist_remove_next_. cbn [load]. unfold get_next at 1.
    rewrite Hb. cbn [deref obind].
    destruct post as [|r post]; cbn [hd_or head tail].
    { exists m. split; [reflexivity|].
      split; [split; [exact Hnd|]; split; [exact Hh|];
              apply lseg_app; split; [exact Hpre | split; [exact Hb | exact I]]|].
      split; [reflexivity|]. split; [discriminate|].
      split; [reflexivity|]. split; reflexivity. }
    destruct Hpost as [Hr Hpost].
    assert (Hbr : b <> r).
    { intros ->. apply NoDup_app in Hnd as (_ & _ & Hd).
      apply NoDup_cons in Hd as [Hd _]. apply Hd. left. }
    assert (Hnd' : NoDup (pre ++ b :: post)).
    { assert (Hperm : pre ++ b :: r :: post ≡ₚ r :: (pre ++ b :: post)).
      { change (pre ++ b :: r :: post) with (pre ++ [b] ++ r :: post).
        rewrite app_assoc, <- Permutation_middle, <- app_assoc. reflexivity. }
      rewrite Hperm in Hnd. apply NoDup_cons in Hnd as [_ Hnd]. exact Hnd. }
    assert (Hrout : r ∉ pre ++ b :: post).
    { assert (Hperm : pre ++ b :: r :: post ≡ₚ r :: (pre ++ b :: post)).
      { change (pre ++ b :: r :: post) with (pre ++ [b] ++ r :: post).
        rewrite app_assoc, <- Permutation_middle, <- app_assoc. reflexivity. }
      rewrite Hperm in Hnd. apply NoDup_cons in Hnd as [Hnd _]. exact Hnd. }
    unfold get_next. rewrite Hr. cbn [deref obind].
    assert (Hlk : lseg (<[r := NS_SLIST_POISON]>
                          (<[b := hd_or post None]> (links m)))
                       (pre ++ b :: post) None).
    { apply lseg_app. split; [|split].
      - eapply lseg_frame; [|exact Hpre]. intros x Hx.
        assert (x <> r).
        { intros ->. apply Hrout, elem_of_app. left. exact Hx. }
        assert (x <> b).
        { intros ->. apply NoDup_app in Hnd' as (_ & Hd & _).
          apply (Hd b Hx). left. }
        rewrite !lookup_insert_ne by congruence. reflexivity.
      - rewrite lookup_insert_ne by congruence. apply lookup_insert_eq.
      - eapply lseg_frame; [|exact Hpost]. intros x Hx.
        assert (x <> r).
        { intros ->. apply Hrout, elem_of_app. right. right. exact Hx. }
        assert (x <> b).
        { intros ->. apply NoDup_app in Hnd' as (_ & _ & Hd).
          apply NoDup_cons in Hd as [Hd _]. contradiction. }
        rewrite !lookup_insert_ne by congruence. reflexivity. }
    assert (Hfr : forall hs,
               (forall h', h' <> h -> hs !! h' = heads m !! h') ->
               frame m {| heads := hs;
                          links := <[r := NS_SLIST_POISON]>
                                     (<[b := hd_or post None]> (links m)) |}
                     h [b; r]).
    { apply frame_links_only.
      - intros x Hx.
        apply not_elem_of_cons_ne in Hx as [Hxb Hx].
        apply not_elem_of_cons_ne in Hx as [Hxr _].
        rewrite !lookup_insert_ne by congruence. reflexivity.
      - intros x. destruct (decide (x = r)) as [->|Hxr];
          [rewrite lookup_insert_eq, Hr; split; eauto|].
        rewrite lookup_insert_ne by congruence.
        destruct (decide (x = b)) as [->|Hxb];
          [rewrite lookup_insert_eq, Hb; split; eauto|].
        rewrite lookup_insert_ne by congruence. reflexivity. }
    destruct post as [|c post]; cbn [hd_or] in *.
    + erewrite set_last_nextptr_ok by exact Hh. cbn [obind store].
      erewrite set_next_ok by (cbn [with_heads links]; exact Hb).
      cbn [obind]. unfold ns_slist_link_init_.
      erewrite set_next_ok
        by (cbn [with_heads with_links links];
            rewrite lookup_insert_ne by congruence; exact Hr).
      cbn [obind]. eexists. split; [reflexivity|].
      split; [|split; [discriminate|split]].
      * split; [exact Hnd'|]. split; [|exact Hlk].
        cbn [with_heads with_links heads]. rewrite lookup_insert_eq.
        f_equal. f_equal.
        -- destruct pre; reflexivity.
        -- f_equal. symmetry. apply last_slot_snoc.
      * intros a' Ha'. injection Ha' as <-.
        cbn [with_heads with_links links]. apply lookup_insert_eq.
      * apply Hfr. intros h' Hh'. cbn [with_heads with_links heads].
        rewrite !lookup_insert_ne by congruence. reflexivity.
    + cbn [obind store].
      erewrite set_next_ok by exact Hb.
      cbn [obind]. unfold ns_slist_link_init_.
      erewrite set_next_ok
        by (cbn [with_heads with_links links];
            rewrite lookup_insert_ne by congruence; exact Hr).
      cbn [obind]. eexists. split; [reflexivity|].
      split; [|split; [discriminate|split]].
      * split; [exact Hnd'|]. split; [|exact Hlk].
        cbn [with_heads with_links heads]. rewrite Hh.
        f_equal. f_equal.
        -- destruct pre; reflexivity.
        -- f_equal. unfold last_slot. rewrite !last_app. reflexivity.
      * intros a' Ha'. injection Ha' as <-.
        cbn [with_heads with_links links]. apply lookup_insert_eq.
      * apply Hfr. reflexivity.
Qed.

Lemma remove_first_and_remove_next_unlink_witness :
  (exists m', ns_slist_remove_first_ 1000 demo = Returned (Some 10, m') /\
              slist m' 1000 [20; 30]) /\
  (exists m', ns_slist_remove_next_ 1000 20 demo = Returned (Some 30, m') /\
              slist m' 1000 [10; 20]) /\
  ns_slist_remove_next_ 1000 30 demo = Returned (None, demo).
Proof.
  destruct (remove_first_and_remove_next_unlink demo 1000) as [H1 H2].
  split; [|split].
  - destruct (H1 [10; 20; 30] demo_1000) as (m' & Hr & Hl & _).
    exists m'. split; assumption.
  - destruct (H2 [10] 20 [30] demo_1000) as (m' & Hr & Hl & _).
    exists m'. split; assumption.
  - destruct (H2 [10; 20] 30 [] demo_1000) as (m' & Hr & _ & Hm & _).
    rewrite <- (Hm eq_refl) at 2. exact Hr.
Defined.

(** The scan of [ns_slist_remove_]: it stops with the address of the
    pointer that leads to the entry. *)
Lemma remove_scan_found m e : forall pre slot fuel,
  (length pre <= fuel)%nat -> e ∉ pre -> lseg (links m) pre (Some e) ->
  remove_scan fuel e slot (hd_or pre (Some e)) m
  = Returned (match last pre with Some z => NextOf z | None => slot end).
Proof.
  induction pre as [|a pre IH]; intros slot fuel Hf He Hl.
  - destruct fuel; simpl; rewrite Z.eqb_refl; reflexivity.
  - apply not_elem_of_cons_ne in He as [Hea He]. destruct Hl as [Ha Hl].
    destruct fuel as [|fuel]; [simpl in Hf; lia|].
    cbn [remove_scan hd_or ptr_eqb].
    assert (E : (a =? e) = false) by (apply Z.eqb_neq; congruence).
    rewrite E. unfold get_next. rewrite Ha. cbn [deref obind].
    rewrite IH by (simpl in Hf; try lia; assumption).
    destruct pre as [|z pre]; [reflexivity|].
    change (last (a :: z :: pre)) with (last (z :: pre)).
    destruct (last (z :: pre)) eqn:E'; [reflexivity|].
    apply last_None in E'. discriminate E'.
Qed.

(** On a list that does not hold the entry the scan runs off the end. *)
Lemma remove_scan_absent m e : forall l slot fuel,
  (length l < fuel)%nat -> e ∉ l -> lseg (links m) l None ->
  remove_scan fuel e slot (hd_or l None) m = Fault.
Proof.
  induction l as [|a l IH]; intros slot fuel Hf He Hl.
  - destruct fuel; [simpl in Hf; lia | reflexivity].
  - apply not_elem_of_cons_ne in He as [Hea He]. destruct Hl as [Ha Hl].
    destruct fuel as [|fuel]; [simpl in Hf; lia|].
    cbn [remove_scan hd_or ptr_eqb].
    assert (E : (a =? e) = false) by (apply Z.eqb_neq; congruence).
    rewrite E. unfold get_next. rewrite Ha. cbn [deref obind].
    apply IH; [simpl in Hf; lia | assumption | assumption].
Qed.

(** X24.  [ns_slist_remove] on a well-formed list.  For an entry of
    the list it finds the entry, unlinks it wherever it is and leaves the
    others in their order; the link of the removed entry is filled with
    [NS_SLIST_POISON] and the tail pointer follows when the last entry is
    removed.  For an entry that is not on the list the scan runs off the
    end of the list and reads through a null pointer. *)
Theorem remove_unlinks_member_and_faults_on_stranger :
  forall (m : memory) (h : Z),
    (forall pre e post,
        slist m h (pre ++ e :: post) ->
        exists m',
          ns_slist_remove_ h e m = Returned m' /\
          slist m' h (pre ++ post) /\
          links m' !! e = Some NS_SLIST_POISON /\
          frame m m' h
                (e :: match last pre with Some z => [z] | None => [] end)) /\
    (forall l e, slist m h l -> e ∉ l -> ns_slist_remove_ h e m = Fault).
Proof.
  intros m h. split.
  - intros pre e post (Hnd & Hh & Hl).
    pose proof (lseg_length _ _ _ Hnd Hl) as Hlen.
    rewrite length_app in Hlen. simpl in Hlen.
    apply lseg_app in Hl as [Hpre He]. destruct He as [He Hpost].
    cbn [hd_or] in Hpre.
    assert (Hepre : e ∉ pre).
    { intros Hx. apply NoDup_app in Hnd as (_ & Hd & _).
      apply (Hd e Hx). left. }
    assert (Hepost : e ∉ post).
    { apply NoDup_app in Hnd as (_ & _ & Hd).
      apply NoDup_cons in Hd as [Hd _]. exact Hd. }
    assert (Hnd' : NoDup (pre ++ post)).
    { rewrite <- Permutation_middle in Hnd.
      apply NoDup_cons in Hnd as [_ Hnd]. exact Hnd. }
    unfold ns_slist_remove_. cbn [load]. unfold get_head. rewrite Hh.
    cbn [deref obind first_entry].
    assert (Hhead : head (pre ++ e :: post) = hd_or pre (Some e))
      by (destruct pre; reflexivity).
    rewrite Hhead, (remove_scan_found m e pre) by (try lia; assumption).
    cbn [obind]. unfold get_next. rewrite He. cbn [deref obind].
    (* the head after the conditional update of the tail pointer *)
    set (slot := match last pre with
                 | Some z => NextOf z
                 | None => FirstEntry h
                 end).
    assert (Hslot : slot = last_slot h pre) by reflexivity.
    set (hd1 := {| first_entry := head (pre ++ e :: post);
                   last_nextptr := Some (last_slot h (pre ++ post)) |}).
    assert (Hstep1 :
      (if hd_or post None is None
       then set_last_nextptr h (Some slot) m else Returned m)
      = Returned (with_heads (<[h := hd1]> (heads m)) m)).
    { destruct post as [|b post]; cbn [hd_or].
      - erewrite set_last_nextptr_ok by exact Hh. subst hd1.
        rewrite app_nil_r, Hslot. reflexivity.
      - f_equal. destruct m as [hs lk]. unfold with_heads. cbn [heads links].
        f_equal. symmetry. apply insert_id. cbn [heads] in Hh. rewrite Hh.
        subst hd1. f_equal. f_equal. f_equal.
        unfold last_slot. rewrite !last_app. reflexivity. }
    rewrite Hstep1. cbn [obind].
    destruct (last pre) as [z|] eqn:Hlast.
    + apply last_Some in Hlast as (pre0 & ->).
      subst slot. cbn [store].
      apply lseg_app in Hpre as [Hpre0 Hz]. destruct Hz as [Hz _].
      cbn [hd_or] in Hz.
      assert (Hze : z <> e).
      { intros ->. apply Hepre, elem_of_app. right. left. }
      erewrite set_next_ok by (cbn [with_heads links]; exact Hz).
      cbn [obind]. unfold ns_slist_link_init_.
      erewrite set_next_ok
        by (cbn [with_heads with_links links];
            rewrite lookup_insert_ne by congruence; exact He).
      eexists. split; [reflexivity|]. split; [|split].
      * split; [exact Hnd'|]. split.
        -- cbn [with_heads with_links heads]. rewrite lookup_insert_eq.
           subst hd1. f_equal. f_equal.
           rewrite <- !app_assoc. destruct pre0; reflexivity.
        -- cbn [with_heads with_links links].
           rewrite <- app_assoc. apply lseg_app. split; [|split].
           ++ eapply lseg_frame; [|exact Hpre0]. intros x Hx.
              assert (x <> e).
              { intros ->. apply Hepre, elem_of_app. left. exact Hx. }
              assert (x <> z).
              { intros ->. apply NoDup_app in Hnd' as (Hd & _).
                apply NoDup_app in Hd as (_ & Hd & _).
                apply (Hd z Hx). left. }
              rewrite !lookup_insert_ne by congruence. reflexivity.
           ++ cbn [hd_or app]. rewrite lookup_insert_ne by congruence.
              apply lookup_insert_eq.
           ++ eapply lseg_frame; [|exact Hpost]. intros x Hx.
              assert (x <> e) by (intros ->; contradiction).
              assert (x <> z).
              { intros ->. apply NoDup_app in Hnd' as (_ & Hd & _).
                apply (Hd z); [apply elem_of_app; right; left | exact Hx]. }
              rewrite !lookup_insert_ne by congruence. reflexivity.
      * cbn [with_heads with_links links]. apply lookup_insert_eq.
      * apply frame_links_only.
        -- intros x Hx. apply not_elem_of_cons_ne in Hx as [Hxe Hx].
           apply not_elem_of_cons_ne in Hx as [Hxz _].
           cbn [with_heads with_links links].
           rewrite !lookup_insert_ne by congruence. reflexivity.
        -- intros x. cbn [with_heads with_links links].
           destruct (decide (x = e)) as [->|Hxe];
             [rewrite lookup_insert_eq, He; split; eauto|].
           rewrite lookup_insert_ne by congruence.
           destruct (decide (x = z)) as [->|Hxz];
             [rewrite lookup_insert_eq, Hz; split; eauto|].
           rewrite lookup_insert_ne by congruence. reflexivity.
        -- intros h' Hh'. cbn [with_heads with_links heads].
           apply lookup_insert_ne. congruence.
    + apply last_None in Hlast. subst pre. subst slot. cbn [store].
      erewrite set_first_entry_ok
        by (cbn [with_heads heads]; apply lookup_insert_eq).
      cbn [obind]. unfold ns_slist_link_init_.
      erewrite set_next_ok by (cbn [with_heads with_links links]; exact He).
      eexists. split; [reflexivity|]. split; [|split].
      * split; [exact Hnd'|]. split.
        -- cbn [with_heads with_links heads]. rewrite lookup_insert_eq.
           rewrite hd_or_None. reflexivity.
        -- cbn [with_heads with_links links app].
           eapply lseg_frame; [|exact Hpost]. intros x Hx.
           apply lookup_insert_ne. intros ->. contradiction.
      * cbn [with_heads with_links links]. apply lookup_insert_eq.
      * apply frame_links_only.
        -- intros x Hx. apply not_elem_of_cons_ne in Hx as [Hxe _].
           cbn [with_heads with_links links]. apply lookup_insert_ne. congruence.
        -- intros x. cbn [with_heads with_links links].
           destruct (decide (x = e)) as [->|Hxe];
             [rewrite lookup_insert_eq, He; split; eauto|].
           rewrite lookup_insert_ne by congruence. reflexivity.
        -- intros h' Hh'. cbn [with_heads with_links heads].
           rewrite !lookup_insert_ne by congruence. reflexivity.
  - intros l e (Hnd & Hh & Hl) He.
    pose proof (lseg_length _ _ _ Hnd Hl) as Hlen.
    unfold ns_slist_remove_. cbn [load]. unfold get_head. rewrite Hh.
    cbn [deref obind first_entry].
    rewrite <- hd_or_None, (remove_scan_absent m e l) by (try lia; assumption).
    reflexivity.
Qed.

Lemma remove_unlinks_member_and_faults_on_stranger_witness :
  (exists m', ns_slist_remove_ 1000 20 demo = Returned m' /\
              slist m' 1000 [10; 30] /\
              links m' !! 20 = Some NS_SLIST_POISON) /\
  ns_slist_remove_ 1000 50 demo = Fault.
Proof.
  destruct (remove_unlinks_member_and_faults_on_stranger demo 1000) as [H1 H2].
  split.
  - destruct (H1 [10] 20 [30] demo_1000) as (m' & Hr & Hl & Hp & _).
    exists m'. split; [exact Hr|]. split; [exact Hl | exact Hp].
  - apply (H2 [10; 20; 30] 50 demo_1000).
    intros H. repeat (apply elem_of_cons in H as [H|H]; [discriminate H|]).
    inversion H.
Defined.

(** X25.  [ns_slist_concatenate] on two well-formed lists with
    different heads and no entry in common: the destination holds its own
    entries followed by those of the source, each part in its order, and
    the source is left empty and well formed.  With an empty source nothing
    is written.  Besides the two heads only the link of the destination's
    last entry is written. *)
Theorem concatenate_moves_all_entries :
  forall (m : memory) (dst src : Z) (l1 l2 : list Z),
    slist m dst l1 -> slist m src l2 -> dst <> src ->
    (forall x, x ∈ l1 -> x ∉ l2) ->
    exists m',
      ns_slist_concatenate_ dst src m = Returned m' /\
      slist m' dst (l1 ++ l2) /\
      slist m' src [] /\
      (l2 = [] -> m' = m) /\
      (forall h', h' <> dst -> h' <> src -> heads m' !! h' = heads m !! h') /\
      (forall x, last l1 <> Some x -> links m' !! x = links m !! x) /\
      (forall x, is_Some (links m' !! x) <-> is_Some (links m !! x)).
Proof.
  intros m dst src l1 l2 (Hnd1 & Hh1 & Hl1) (Hnd2 & Hh2 & Hl2) Hne Hdisj.
  unfold ns_slist_concatenate_, get_head at 1. rewrite Hh2.
  cbn [deref obind first_entry].
  destruct l2 as [|b l2]; cbn [head].
  { exists m. split; [reflexivity|]. rewrite app_nil_r.
    split; [repeat split; assumption|]. split; [repeat split; assumption|].
    split; [reflexivity|]. repeat split; intros; auto. }
  unfold get_head at 1. rewrite Hh1. cbn [deref obind last_nextptr].
  assert (Hnd : NoDup (l1 ++ b :: l2)).
  { apply NoDup_app. split; [exact Hnd1|]. split; [exact Hdisj | exact Hnd2]. }
  assert (Hlast : last_slot src (b :: l2) = last_slot dst (l1 ++ b :: l2)).
  { unfold last_slot. rewrite last_app.
    destruct (last (b :: l2)) eqn:E; [reflexivity|].
    apply last_None in E. discriminate E. }
  destruct (last l1) as [z|] eqn:Hz.
  - apply last_Some in Hz as (l0 & ->).
    rewrite last_slot_snoc. cbn [store].
    apply lseg_app in Hl1 as [Hl0 Hzl]. destruct Hzl as [Hzl _].
    cbn [hd_or] in Hzl.
    erewrite set_next_ok by exact Hzl. cbn [obind].
    unfold get_head. cbn [with_links heads]. rewrite Hh2.
    cbn [deref obind last_nextptr].
    erewrite set_last_nextptr_ok by (cbn [with_links heads]; exact Hh1).
    cbn [obind]. unfold ns_slist_init_.
    erewrite set_first_entry_ok
      by (cbn [with_heads with_links heads];
          rewrite lookup_insert_ne by congruence; exact Hh2).
    cbn [obind].
    erewrite set_last_nextptr_ok
      by (cbn [with_heads with_links heads]; apply lookup_insert_eq).
    eexists. split; [reflexivity|].
    split; [|split; [|split; [discriminate|split; [|split]]]].
    + split; [exact Hnd|]. split.
      * cbn [with_heads with_links heads].
        rewrite lookup_insert_ne, lookup_insert_ne, lookup_insert_eq
          by congruence.
        rewrite Hlast. f_equal. f_equal.
        rewrite <- !app_assoc. destruct l0; reflexivity.
      * cbn [with_heads with_links links].
        rewrite <- app_assoc. apply lseg_app. split; [|split].
        -- eapply lseg_frame; [|exact Hl0]. intros x Hx.
           apply lookup_insert_ne. intros ->.
           apply NoDup_app in Hnd1 as (_ & Hd & _). apply (Hd x Hx). left.
        -- cbn [hd_or app]. apply lookup_insert_eq.
        -- eapply lseg_frame; [|exact Hl2]. intros x Hx.
           apply lookup_insert_ne. intros ->.
           apply (Hdisj x); [apply elem_of_app; right; left | exact Hx].
    + split; [constructor|]. split; [|exact I].
      cbn [with_heads with_links heads]. rewrite lookup_insert_eq. reflexivity.
    + intros h' H1 H2. cbn [with_heads with_links heads].
      rewrite !lookup_insert_ne by congruence. reflexivity.
    + intros x Hx. cbn [with_heads with_links links].
      apply lookup_insert_ne. intros ->. apply Hx. reflexivity.
    + intros x. cbn [with_heads with_links links].
      destruct (decide (x = z)) as [->|Hxz];
        [rewrite lookup_insert_eq, Hzl; split; eauto|].
      rewrite lookup_insert_ne by congruence. reflexivity.
  - apply last_None in Hz. subst l1.
    unfold last_slot at 1. cbn [last store].
    erewrite set_first_entry_ok by exact Hh1. cbn [obind].
    unfold get_head. cbn [with_heads heads].
    rewrite lookup_insert_ne, Hh2 by congruence.
    cbn [deref obind last_nextptr].
    erewrite set_last_nextptr_ok
      by (cbn [with_heads heads]; apply lookup_insert_eq).
    cbn [obind]. unfold ns_slist_init_.
    erewrite set_first_entry_ok
      by (cbn [with_heads with_links heads];
          rewrite !lookup_insert_ne by congruence; exact Hh2).
    cbn [obind].
    erewrite set_last_nextptr_ok
      by (cbn [with_heads with_links heads]; apply lookup_insert_eq).
    eexists. split; [reflexivity|].
    split; [|split; [|split; [discriminate|split; [|split]]]].
    + split; [exact Hnd|]. split.
      * cbn [with_heads with_links heads].
        rewrite lookup_insert_ne, lookup_insert_ne, lookup_insert_eq
          by congruence.
        rewrite Hlast. reflexivity.
      * exact Hl2.
    + split; [constructor|]. split; [|exact I].
      cbn [with_heads with_links heads]. rewrite lookup_insert_eq. reflexivity.
    + intros h' H1 H2. cbn [with_heads with_links heads].
      rewrite !lookup_insert_ne by congruence. reflexivity.
    + reflexivity.
    + reflexivity.
Qed.

Lemma concatenate_moves_all_entries_witness :
  exists m',
    ns_slist_concatenate_ 1000 2000 demo = Returned m' /\
    slist m' 1000 [10; 20; 30; 50; 60] /\
    slist m' 2000 [].
Proof.
  destruct (concatenate_moves_all_entries demo 1000 2000 [10; 20; 30] [50; 60]
              demo_1000 demo_2000 ltac:(discriminate))
    as (m' & Hr & Hd & Hs & _).
  - intros x Hx Hy.
    repeat (apply elem_of_cons in Hx as [->|Hx];
            [repeat (apply elem_of_cons in Hy as [Hy|Hy]; [discriminate Hy|]);
             inversion Hy|]).
    inversion Hx.
  - exists m'. split; [exact Hr|]. split; [exact Hd | exact Hs].
Defined.

Lemma lseg_next lk l t : forall i a,
  lseg lk l t -> l !! i = Some a ->
  lk !! a = Some (match l !! S i with Some b => Some b | None => t end).
Proof.
  induction l as [|x l IH]; intros i a Hl Hi; [discriminate|].
  destruct Hl as [Hx Hl]. destruct i as [|i].
  - injection Hi as <-. rewrite Hx. destruct l; reflexivity.
  - apply (IH i a Hl Hi).
Qed.

Lemma count_loop_length W m : forall l c fuel,
  (length l <= fuel)%nat -> lseg (links m) l None ->
  count_loop W fuel (hd_or l None) (c mod 2 ^ W) m
  = Returned ((c + Z.of_nat (length l)) mod 2 ^ W).
Proof.
  induction l as [|a l IH]; intros c fuel Hf Hl.
  - destruct fuel; simpl; rewrite Z.add_0_r; reflexivity.
  - destruct Hl as [Ha Hl]. destruct fuel as [|fuel]; [simpl in Hf; lia|].
    cbn [count_loop hd_or]. unfold get_next. rewrite Ha. cbn [deref obind].
    rewrite Zplus_mod_idemp_l, IH by (simpl in Hf; try lia; assumption).
    f_equal. f_equal. cbn [length]. lia.
Qed.

(** X26.  The queries on a well-formed list: [ns_slist_is_empty]
    tells whether it has no entry, [ns_slist_get_first] and
    [ns_slist_get_last] return its first and its last entry (NULL when it
    is empty), [ns_slist_get_next] returns the successor of an entry (NULL
    for the last), and [ns_slist_count] returns the number of entries
    reduced modulo 2^W, W being the width of [uint_fast16_t]. *)
Theorem queries_read_the_list :
  forall (W : Z) (m : memory) (h : Z) (l : list Z),
    slist m h l ->
    ns_slist_is_empty h m = Returned (if l is [] then true else false) /\
    ns_slist_get_first h m = Returned (head l) /\
    (forall offset, ns_slist_get_last_ h offset m = Returned (last l)) /\
    (forall i a, l !! i = Some a ->
                 ns_slist_get_next_ a m = Returned (l !! S i)) /\
    ns_slist_count_ W h m = Returned (Z.of_nat (length l) mod 2 ^ W).
Proof.
  intros W m h l (Hnd & Hh & Hl).
  split; [|split; [|split; [|split]]].
  - unfold ns_slist_is_empty, get_head. rewrite Hh. destruct l; reflexivity.
  - unfold ns_slist_get_first, get_head. rewrite Hh. reflexivity.
  - intros offset. unfold ns_slist_get_last_, get_head. rewrite Hh.
    cbn [deref obind first_entry last_nextptr].
    destruct l as [|a l]; [reflexivity|]. cbn [head deref obind].
    unfold last_slot. destruct (last (a :: l)) eqn:E; [reflexivity|].
    apply last_None in E. discriminate E.
  - intros i a Hi. unfold ns_slist_get_next_, get_next.
    rewrite (lseg_next _ _ _ _ _ Hl Hi). cbn [deref].
    destruct (l !! S i); reflexivity.
  - unfold ns_slist_count_, get_head. rewrite Hh.
    cbn [deref obind first_entry].
    pose proof (lseg_length _ _ _ Hnd Hl) as Hlen.
    rewrite <- hd_or_None.
    rewrite <- (Zmod_0_l (2 ^ W)) at 1.
    rewrite count_loop_length by (try lia; assumption).
    reflexivity.
Qed.

Lemma queries_read_the_list_witness :
  ns_slist_get_last_ 1000 8 demo = Returned (Some 30) /\
  ns_slist_get_next_ 20 demo = Returned (Some 30) /\
  ns_slist_get_next_ 30 demo = Returned None /\
  ns_slist_count_ 16 1000 demo = Returned 3.
Proof.
  destruct (queries_read_the_list 16 demo 1000 [10; 20; 30] demo_1000)
    as (_ & _ & H3 & H4 & H5).
  split; [apply H3|]. split; [apply (H4 1%nat 20 eq_refl)|].
  split; [apply (H4 2%nat 30 eq_refl) | exact H5].
Defined.

(** X27.  [ns_slist_init] makes any head a well-formed empty list,
    whatever the head held before, and writes no entry: entries that were
    on the list keep their links and are on no list any more.  A
    zero-initialised head is not a valid list: it reads as empty, and
    [ns_slist_add_to_end] on it writes through a null pointer. *)
Theorem init_makes_a_head_valid :
  forall (m : memory) (h : Z) (hd0 : ns_slist_t),
    heads m !! h = Some hd0 ->
    (exists m',
        ns_slist_init_ h m = Returned m' /\
        slist m' h [] /\
        links m' = links m /\
        (forall h', h' <> h -> heads m' !! h' = heads m !! h')) /\
    (hd0 = {| first_entry := None; last_nextptr := None |} ->
     ns_slist_is_empty h m = Returned true /\
     forall e, is_Some (links m !! e) -> ns_slist_add_to_end_ h e m = Fault).
Proof.
  intros m h [f p] Hh. split.
  - unfold ns_slist_init_.
    erewrite set_first_entry_ok by exact Hh. cbn [obind].
    erewrite set_last_nextptr_ok
      by (cbn [with_heads heads]; apply lookup_insert_eq).
    eexists. split; [reflexivity|]. split; [|split; [reflexivity|]].
    + split; [constructor|]. split; [|exact I].
      cbn [with_heads heads]. rewrite lookup_insert_eq. reflexivity.
    + intros h' Hh'. cbn [with_heads heads].
      rewrite !lookup_insert_ne by congruence. reflexivity.
  - intros Hz. injection Hz as -> ->. split.
    + unfold ns_slist_is_empty, get_head. rewrite Hh. reflexivity.
    + intros e [v0 Hv0]. unfold ns_slist_add_to_end_.
      rewrite (set_next_ok _ _ _ _ Hv0). cbn [obind].
      unfold get_head. cbn [with_links heads]. rewrite Hh. reflexivity.
Qed.

Lemma init_makes_a_head_valid_witness :
  (exists m', ns_slist_init_ 1000 demo = Returned m' /\
              slist m' 1000 [] /\ links m' !! 10 = Some (Some 20)) /\
  ns_slist_add_to_end_ 3000 40 demo = Fault.
Proof.
  split.
  - destruct (proj1 (init_makes_a_head_valid demo 1000 _ eq_refl))
      as (m' & Hr & Hl & Hk & _).
    exists m'. split; [exact Hr|]. split; [exact Hl|]. rewrite Hk. reflexivity.
  - apply (proj2 (init_makes_a_head_valid demo 3000 _ eq_refl) eq_refl).
    eexists. reflexivity.
Defined.

End NsSlist_Facts.

(** ** ns_hslist.h *)

Module NsHslist_Facts.
Import NsSlist NsHslist.

Lemma hslistb_sound m h l : hslistb m h l = true -> hslist m h l.
Proof.
  unfold hslistb. intros H.
  apply andb_true_iff in H as [H H3]. apply andb_true_iff in H as [H1 H2].
  apply bool_decide_eq_true in H1.
  split; [exact H1|]. split; [|apply NsSlist_Facts.lsegb_sound, H3].
  destruct (hheads m !! h) as [f|]; [|discriminate].
  apply NsSlist_Facts.ptr_eqb_eq in H2. congruence.
Qed.

Lemma hdemo_1000 : hslist hdemo 1000 [10; 20; 30].
Proof. apply hslistb_sound. vm_compute. reflexivity. Qed.

Lemma hset_next_ok e v m v0 :
  hlinks m !! e = Some v0 ->
  hset_next e v m = Returned (with_hlinks (<[e := v]> (hlinks m)) m).
Proof. intros H. unfold hset_next. rewrite H. reflexivity. Qed.

Lemma hset_first_ok h v m f :
  hheads m !! h = Some f ->
  hset_first h v m = Returned (with_hheads (<[h := v]> (hheads m)) m).
Proof. intros H. unfold hset_first. rewrite H. reflexivity. Qed.

Lemma nodup_insert_middle (pre post : list Z) c e :
  NoDup (pre ++ c :: e :: post) <-> (e ∉ pre ++ c :: post) /\ NoDup (pre ++ c :: post).
Proof.
  assert (Hperm : pre ++ c :: e :: post ≡ₚ e :: (pre ++ c :: post)).
  { change (pre ++ c :: e :: post) with (pre ++ [c] ++ e :: post).
    rewrite app_assoc, <- Permutation_middle, <- app_assoc. reflexivity. }
  rewrite Hperm. apply NoDup_cons.
Qed.

Lemma hremove_first_spec m h l :
  hslist m h l ->
  exists m',
    ns_hslist_remove_first_ h m = Returned (head l, m') /\
    hslist m' h (tail l) /\
    (l = [] -> m' = m) /\
    hheads m' = <[h := head (tail l)]> (hheads m) /\
    (forall a, head l = Some a ->
               hlinks m' = <[a := NS_HSLIST_POISON]> (hlinks m)).
Proof.
  intros (Hnd & Hh & Hl).
  unfold ns_hslist_remove_first_, hget_first. rewrite Hh. cbn [deref obind].
  destruct l as [|a l]; cbn [head tail].
  { exists m. split; [reflexivity|]. split; [repeat split; assumption|].
    split; [reflexivity|]. split; [|discriminate].
    symmetry. apply insert_id. exact Hh. }
  destruct Hl as [Ha Hl]. apply NoDup_cons in Hnd as [Hal Hnd].
  unfold hget_next. rewrite Ha. cbn [deref obind].
  erewrite hset_first_ok by exact Hh. cbn [obind].
  unfold ns_hslist_link_init_.
  erewrite hset_next_ok by (cbn [with_hheads hlinks]; exact Ha).
  cbn [obind]. eexists. split; [reflexivity|].
  split; [|split; [discriminate|split]].
  - split; [exact Hnd|]. split.
    + cbn [with_hheads with_hlinks hheads]. rewrite lookup_insert_eq.
      rewrite NsSlist_Facts.hd_or_None. reflexivity.
    + cbn [with_hheads with_hlinks hlinks].
      eapply NsSlist_Facts.lseg_frame; [|exact Hl]. intros x Hx.
      apply lookup_insert_ne. intros ->. contradiction.
  - cbn [with_hheads with_hlinks hheads].
    rewrite NsSlist_Facts.hd_or_None. reflexivity.
  - intros a' Ha'. injection Ha' as <-. reflexivity.
Qed.

(** X28.  The operations of [ns_hslist.h] at a position, on a
    well-formed list.  [ns_hslist_add_to_start] puts a live entry that is
    not on the list before the others, and [ns_hslist_remove_first] right
    after it gives that entry back and leaves the head and every other
    link as they were; [ns_hslist_remove_first] returns the first entry
    (NULL, changing nothing, on an empty list) and leaves the rest;
    [ns_hslist_add_after] puts the entry directly behind a given one, and
    [ns_hslist_remove_next] returns and unlinks the entry behind a given
    one (NULL behind the last). *)
Theorem hslist_operations_at_a_position :
  forall (m : hmemory) (h : Z),
    (forall l e,
        hslist m h l -> e ∉ l -> is_Some (hlinks m !! e) ->
        exists m' m'',
          ns_hslist_add_to_start_ h e m = Returned m' /\
          hslist m' h (e :: l) /\
          ns_hslist_remove_first_ h m' = Returned (Some e, m'') /\
          hslist m'' h l /\
          hheads m'' = hheads m /\
          hlinks m'' = <[e := NS_HSLIST_POISON]> (hlinks m)) /\
    (forall l,
        hslist m h l ->
        exists m',
          ns_hslist_remove_first_ h m = Returned (head l, m') /\
          hslist m' h (tail l) /\ (l = [] -> m' = m)) /\
    (forall pre current post e,
        hslist m h (pre ++ current :: post) ->
        e ∉ pre ++ current :: post -> is_Some (hlinks m !! e) ->
        exists m',
          ns_hslist_add_after_ current e m = Returned m' /\
          hslist m' h (pre ++ current :: e :: post)) /\
    (forall pre before post,
        hslist m h (pre ++ before :: post) ->
        exists m',
          ns_hslist_remove_next_ before m = Returned (head post, m') /\
          hslist m' h (pre ++ before :: tail post) /\
          (post = [] -> m' = m) /\
          (forall a, head post = Some a ->
                     hlinks m' !! a = Some NS_HSLIST_POISON)).
Proof.
  intros m h. split; [|split; [|split]].
  - intros l e (Hnd & Hh & Hl) He [v0 Hv0].
    unfold ns_hslist_add_to_start_, hget_first. rewrite Hh.
    cbn [deref obind].
    rewrite (hset_next_ok _ _ _ _ Hv0). cbn [obind].
    erewrite hset_first_ok by (cbn [with_hlinks hheads]; exact Hh).
    set (m' := with_hheads _ _).
    assert (Hl' : hslist m' h (e :: l)).
    { split; [apply NoDup_cons; split; assumption|]. split.
      - subst m'. cbn [with_hheads with_hlinks hheads].
        apply lookup_insert_eq.
      - subst m'. cbn [with_hheads with_hlinks hlinks]. split.
        + rewrite NsSlist_Facts.hd_or_None. apply lookup_insert_eq.
        + eapply NsSlist_Facts.lseg_frame; [|exact Hl]. intros x Hx.
          apply lookup_insert_ne. intros ->. contradiction. }
    destruct (hremove_first_spec m' h (e :: l) Hl')
      as (m'' & Hr & Hl'' & _ & Hhd & Hlk).
    exists m', m''. split; [reflexivity|]. split; [exact Hl'|].
    split; [exact Hr|]. split; [exact Hl''|]. split.
    + rewrite Hhd. subst m'. cbn [with_hheads with_hlinks hheads tail].
      rewrite insert_insert_eq. apply insert_id. exact Hh.
    + rewrite (Hlk e eq_refl). subst m'.
      cbn [with_hheads with_hlinks hlinks]. apply insert_insert_eq.
  - intros l Hl.
    destruct (hremove_first_spec m h l Hl) as (m' & Hr & Hl' & Hm & _).
    exists m'. split; [exact Hr|]. split; assumption.
  - intros pre c post e (Hnd & Hh & Hl) He [v0 Hv0].
    assert (Hce : c <> e).
    { intros ->. apply He, elem_of_app. right. left. }
    apply NsSlist_Facts.lseg_app in Hl as [Hpre Hc]. destruct Hc as [Hc Hpost].
    unfold ns_hslist_add_after_, hget_next. rewrite Hc. cbn [deref obind].
    rewrite (hset_next_ok _ _ _ _ Hv0). cbn [obind].
    erewrite hset_next_ok
      by (cbn [with_hlinks hlinks]; rewrite lookup_insert_ne by congruence;
          exact Hc).
    eexists. split; [reflexivity|].
    split; [apply nodup_insert_middle; split; assumption|]. split.
    + cbn [with_hheads with_hlinks hheads]. rewrite Hh. f_equal.
      destruct pre; reflexivity.
    + cbn [with_hheads with_hlinks hlinks].
      apply NsSlist_Facts.lseg_app. split; [|split; [|split]].
      * eapply NsSlist_Facts.lseg_frame; [|exact Hpre]. intros x Hx.
        assert (x <> c).
        { intros ->. apply NoDup_app in Hnd as (_ & Hd & _).
          apply (Hd c Hx). left. }
        assert (x <> e).
        { intros ->. apply He, elem_of_app. left. exact Hx. }
        rewrite !lookup_insert_ne by congruence. reflexivity.
      * apply lookup_insert_eq.
      * simpl. rewrite lookup_insert_ne by congruence. apply lookup_insert_eq.
      * eapply NsSlist_Facts.lseg_frame; [|exact Hpost]. intros x Hx.
        assert (x <> c).
        { intros ->. apply NoDup_app in Hnd as (_ & _ & Hd).
          apply NoDup_cons in Hd as [Hd _]. contradiction. }
        assert (x <> e).
        { intros ->. apply He, elem_of_app. right. right. exact Hx. }
        rewrite !lookup_insert_ne by congruence. reflexivity.
  - intros pre b post (Hnd & Hh & Hl).
    apply NsSlist_Facts.lseg_app in Hl as [Hpre Hb]. destruct Hb as [Hb Hpost].
    unfold ns_hslist_remove_next_. unfold hget_next at 1.
    rewrite Hb. cbn [deref obind].
    destruct post as [|r post]; cbn [hd_or head tail].
    { exists m. split; [reflexivity|].
      split; [split; [exact Hnd|]; split; [exact Hh|];
              apply NsSlist_Facts.lseg_app; split;
              [exact Hpre | split; [exact Hb | exact I]]|].
      split; [reflexivity | discriminate]. }
    destruct Hpost as [Hr Hpost].
    apply nodup_insert_middle in Hnd as [Hrout Hnd'].
    assert (Hbr : b <> r).
    { intros ->. apply Hrout, elem_of_app. right. left. }
    unfold hget_next. rewrite Hr. cbn [deref obind].
    erewrite hset_next_ok by exact Hb. cbn [obind].
    unfold ns_hslist_link_init_.
    erewrite hset_next_ok
      by (cbn [with_hlinks hlinks]; rewrite lookup_insert_ne by congruence;
          exact Hr).
    cbn [obind]. eexists. split; [reflexivity|].
    split; [|split; [discriminate|]].
    + split; [exact Hnd'|]. split.
      * cbn [with_hheads with_hlinks hheads]. rewrite Hh. f_equal.
        destruct pre; reflexivity.
      * cbn [with_hheads with_hlinks hlinks].
        apply NsSlist_Facts.lseg_app. split; [|split].
        -- eapply NsSlist_Facts.lseg_frame; [|exact Hpre]. intros x Hx.
           assert (x <> r).
           { intros ->. apply Hrout, elem_of_app. left. exact Hx. }
           assert (x <> b).
           { intros ->. apply NoDup_app in Hnd' as (_ & Hd & _).
             apply (Hd b Hx). left. }
           rewrite !lookup_insert_ne by congruence. reflexivity.
        -- rewrite lookup_insert_ne by congruence. apply lookup_insert_eq.
        -- eapply NsSlist_Facts.lseg_frame; [|exact Hpost]. intros x Hx.
           assert (x <> r).
           { intros ->. apply Hrout, elem_of_app. right. right. exact Hx. }
           assert (x <> b).
           { intros ->. apply NoDup_app in Hnd' as (_ & _ & Hd).
             apply NoDup_cons in Hd as [Hd _]. contradiction. }
           rewrite !lookup_insert_ne by congruence. reflexivity.
    + intros a' Ha'. injection Ha' as <-.
      cbn [with_hheads with_hlinks hlinks]. apply lookup_insert_eq.
Qed.

Lemma hslist_operations_at_a_position_witness :
  (exists m' m'',
      ns_hslist_add_to_start_ 1000 40 hdemo = Returned m' /\
      hslist m' 1000 [40; 10; 20; 30] /\
      ns_hslist_remove_first_ 1000 m' = Returned (Some 40, m'') /\
      hslist m'' 1000 [10; 20; 30]) /\
  (exists m', ns_hslist_remove_next_ 10 hdemo = Returned (Some 20, m') /\
              hslist m' 1000 [10; 30]).
Proof.
  destruct (hslist_operations_at_a_position hdemo 1000) as (H1 & _ & _ & H4).
  split.
  - destruct (H1 [10; 20; 30] 40 hdemo_1000) as (m' & m'' & A & B & C & D & _).
    + intros H. repeat (apply elem_of_cons in H as [H|H]; [discriminate H|]).
      inversion H.
    + eexists. reflexivity.
    + exists m', m''. split; [exact A|]. split; [exact B|].
      split; [exact C | exact D].
  - destruct (H4 [] 10 [20; 30] hdemo_1000) as (m' & A & B & _).
    exists m'. split; [exact A | exact B].
Defined.

Lemma hremove_scan_found m e : forall pre slot fuel,
  (length pre <= fuel)%nat -> e ∉ pre -> lseg (hlinks m) pre (Some e) ->
  hremove_scan fuel e slot (hd_or pre (Some e)) m
  = Returned (match last pre with Some z => NextOf z | None => slot end).
Proof.
  induction pre as [|a pre IH]; intros slot fuel Hf He Hl.
  - destruct fuel; simpl; rewrite Z.eqb_refl; reflexivity.
  - apply NsSlist_Facts.not_elem_of_cons_ne in He as [Hea He].
    destruct Hl as [Ha Hl].
    destruct fuel as [|fuel]; [simpl in Hf; lia|].
    cbn [hremove_scan hd_or ptr_eqb].
    assert (E : (a =? e) = false) by (apply Z.eqb_neq; congruence).
    rewrite E. unfold hget_next. rewrite Ha. cbn [deref obind].
    rewrite IH by (simpl in Hf; try lia; assumption).
    destruct pre as [|z pre]; [reflexivity|].
    change (last (a :: z :: pre)) with (last (z :: pre)).
    destruct (last (z :: pre)) eqn:E'; [reflexivity|].
    apply last_None in E'. discriminate E'.
Qed.

Lemma hremove_scan_absent m e : forall l slot fuel,
  (length l < fuel)%nat -> e ∉ l -> lseg (hlinks m) l None ->
  hremove_scan fuel e slot (hd_or l None) m = Fault.
Proof.
  induction l as [|a l IH]; intros slot fuel Hf He Hl.
  - destruct fuel; [simpl in Hf; lia | reflexivity].
  - apply NsSlist_Facts.not_elem_of_cons_ne in He as [Hea He].
    destruct Hl as [Ha Hl].
    destruct fuel as [|fuel]; [simpl in Hf; lia|].
    cbn [hremove_scan hd_or ptr_eqb].
    assert (E : (a =? e) = false) by (apply Z.eqb_neq; congruence).
    rewrite E. unfold hget_next. rewrite Ha. cbn [deref obind].
    apply IH; [simpl in Hf; lia | assumption | assumption].
Qed.

Lemma hcount_loop_length W m : forall l c fuel,
  (length l <= fuel)%nat -> lseg (hlinks m) l None ->
  hcount_loop W fuel (hd_or l None) (c mod 2 ^ W) m
  = Returned ((c + Z.of_nat (length l)) mod 2 ^ W).
Proof.
  induction l as [|a l IH]; intros c fuel Hf Hl.
  - destruct fuel; simpl; rewrite Z.add_0_r; reflexivity.
  - destruct Hl as [Ha Hl]. destruct fuel as [|fuel]; [simpl in Hf; lia|].
    cbn [hcount_loop hd_or]. unfold hget_next. rewrite Ha. cbn [deref obind].
    rewrite Zplus_mod_idemp_l, IH by (simpl in Hf; try lia; assumption).
    f_equal. f_equal. cbn [length]. lia.
Qed.

(** X29.  [ns_hslist_remove] and [ns_hslist_count] on a well-formed
    list.  Removing an entry of the list unlinks it wherever it is, keeps
    the order of the others and fills its link with [NS_HSLIST_POISON];
    removing an entry that is not on the list runs off the end of the list
    and reads through a null pointer; the count is the number of entries
    modulo 2^W, W being the width of [uint_fast16_t]. *)
Theorem hslist_remove_and_count :
  forall (W : Z) (m : hmemory) (h : Z),
    (forall pre e post,
        hslist m h (pre ++ e :: post) ->
        exists m',
          ns_hslist_remove_ h e m = Returned m' /\
          hslist m' h (pre ++ post) /\
          hlinks m' !! e = Some NS_HSLIST_POISON /\
          (forall x, x <> e -> last pre <> Some x ->
                     hlinks m' !! x = hlinks m !! x)) /\
    (forall l e, hslist m h l -> e ∉ l -> ns_hslist_remove_ h e m = Fault) /\
    (forall l, hslist m h l ->
               ns_hslist_count_ W h m
               = Returned (Z.of_nat (length l) mod 2 ^ W)).
Proof.
  intros W m h. split; [|split].
  - intros pre e post (Hnd & Hh & Hl).
    pose proof (NsSlist_Facts.lseg_length _ _ _ Hnd Hl) as Hlen.
    rewrite length_app in Hlen. simpl in Hlen.
    apply NsSlist_Facts.lseg_app in Hl as [Hpre He]. destruct He as [He Hpost].
    cbn [hd_or] in Hpre.
    assert (Hepre : e ∉ pre).
    { intros Hx. apply NoDup_app in Hnd as (_ & Hd & _).
      apply (Hd e Hx). left. }
    assert (Hepost : e ∉ post).
    { apply NoDup_app in Hnd as (_ & _ & Hd).
      apply NoDup_cons in Hd as [Hd _]. exact Hd. }
    assert (Hnd' : NoDup (pre ++ post)).
    { rewrite <- Permutation_middle in Hnd.
      apply NoDup_cons in Hnd as [_ Hnd]. exact Hnd. }
    unfold ns_hslist_remove_, hget_first. rewrite Hh. cbn [deref obind].
    assert (Hhead : head (pre ++ e :: post) = hd_or pre (Some e))
      by (destruct pre; reflexivity).
    rewrite Hhead, (hremove_scan_found m e pre) by (try lia; assumption).
    cbn [obind]. unfold hget_next. rewrite He. cbn [deref obind].
    destruct (last pre) as [z|] eqn:Hlast.
    + apply last_Some in Hlast as (pre0 & ->). cbn [hstore].
      apply NsSlist_Facts.lseg_app in Hpre as [Hpre0 Hz].
      destruct Hz as [Hz _]. cbn [hd_or] in Hz.
      assert (Hze : z <> e).
      { intros ->. apply Hepre, elem_of_app. right. left. }
      erewrite hset_next_ok by exact Hz. cbn [obind].
      unfold ns_hslist_link_init_.
      erewrite hset_next_ok
        by (cbn [with_hlinks hlinks]; rewrite lookup_insert_ne by congruence;
            exact He).
      eexists. split; [reflexivity|]. split; [|split].
      * split; [exact Hnd'|]. split.
        -- cbn [with_hheads with_hlinks hheads]. rewrite Hh. f_equal.
           rewrite <- !app_assoc. destruct pre0; reflexivity.
        -- cbn [with_hheads with_hlinks hlinks].
           rewrite <- app_assoc. apply NsSlist_Facts.lseg_app.
           split; [|split].
           ++ eapply NsSlist_Facts.lseg_frame; [|exact Hpre0]. intros x Hx.
              assert (x <> e).
              { intros ->. apply Hepre, elem_of_app. left. exact Hx. }
              assert (x <> z).
              { intros ->. apply NoDup_app in Hnd' as (Hd & _).
                apply NoDup_app in Hd as (_ & Hd & _).
                apply (Hd z Hx). left. }
              rewrite !lookup_insert_ne by congruence. reflexivity.
           ++ cbn [hd_or app]. rewrite lookup_insert_ne by congruence.
              apply lookup_insert_eq.
           ++ eapply NsSlist_Facts.lseg_frame; [|exact Hpost]. intros x Hx.
              assert (x <> e) by (intros ->; contradiction).
              assert (x <> z).
              { intros ->. apply NoDup_app in Hnd' as (_ & Hd & _).
                apply (Hd z); [apply elem_of_app; right; left | exact Hx]. }
              rewrite !lookup_insert_ne by congruence. reflexivity.
      * cbn [with_hheads with_hlinks hlinks]. apply lookup_insert_eq.
      * intros x Hxe Hxz. cbn [with_hheads with_hlinks hlinks].
        rewrite !lookup_insert_ne; [reflexivity| |congruence].
        intros ->. apply Hxz. reflexivity.
    + apply last_None in Hlast. subst pre. cbn [hstore].
      erewrite hset_first_ok by exact Hh. cbn [obind].
      unfold ns_hslist_link_init_.
      erewrite hset_next_ok by (cbn [with_hheads hlinks]; exact He).
      eexists. split; [reflexivity|]. split; [|split].
      * split; [exact Hnd'|]. split.
        -- cbn [with_hheads with_hlinks hheads]. rewrite lookup_insert_eq.
           rewrite NsSlist_Facts.hd_or_None. reflexivity.
        -- cbn [with_hheads with_hlinks hlinks app].
           eapply NsSlist_Facts.lseg_frame; [|exact Hpost]. intros x Hx.
           apply lookup_insert_ne. intros ->. contradiction.
      * cbn [with_hheads with_hlinks hlinks]. apply lookup_insert_eq.
      * intros x Hxe _. cbn [with_hheads with_hlinks hlinks].
        apply lookup_insert_ne. congruence.
  - intros l e (Hnd & Hh & Hl) He.
    pose proof (NsSlist_Facts.lseg_length _ _ _ Hnd Hl) as Hlen.
    unfold ns_hslist_remove_, hget_first. rewrite Hh. cbn [deref obind].
    rewrite <- NsSlist_Facts.hd_or_None,
      (hremove_scan_absent m e l) by (try lia; assumption).
    reflexivity.
  - intros l (Hnd & Hh & Hl).
    unfold ns_hslist_count_, hget_first. rewrite Hh. cbn [deref obind].
    pose proof (NsSlist_Facts.lseg_length _ _ _ Hnd Hl) as Hlen.
    rewrite <- NsSlist_Facts.hd_or_None.
    rewrite <- (Zmod_0_l (2 ^ W)) at 1.
    rewrite hcount_loop_length by (try lia; assumption).
    reflexivity.
Qed.

Lemma hslist_remove_and_count_witness :
  (exists m', ns_hslist_remove_ 1000 30 hdemo = Returned m' /\
              hslist m' 1000 [10; 20]) /\
  ns_hslist_remove_ 1000 40 hdemo = Fault /\
  ns_hslist_count_ 16 1000 hdemo = Returned 3.
Proof.
  destruct (hslist_remove_and_count 16 hdemo 1000) as (H1 & H2 & H3).
  split; [|split].
  - destruct (H1 [10; 20] 30 [] hdemo_1000) as (m' & A & B & _).
    exists m'. split; [exact A|]. rewrite app_nil_r in B. exact B.
  - apply (H2 [10; 20; 30] 40 hdemo_1000).
    intros H. repeat (apply elem_of_cons in H as [H|H]; [discriminate H|]).
    inversion H.
  - apply (H3 [10; 20; 30] hdemo_1000).
Defined.

End NsHslist_Facts.
